(** * ey_frog_challenge: a shallow embedding of the notebooks' data handling

    The repository is a set of Jupyter notebooks that fetch occurrence
    records and rasters, clip and combine them, join points to pixels and
    export GeoTIFF files.  This development embeds the notebook code that
    the specification talks about and proves (or refutes) what the
    specification says about it; Part IV adds properties of that code and
    of the cells around it that are read off the code itself.

    Conventions of the embedding.
    - A pandas / xarray float that takes part only in comparisons,
      selection and sorting is a [cell]: [Some q] for a finite number
      [q : Q], [None] for NaN (a missing value).
    - The slope computation needs a square root, so elevations are real
      numbers ([R]); the values numpy produces when it divides by zero
      are the non-finite members of [fval].  Rounding and overflow of
      float64 are not modelled.
    - A pandas DataFrame is the list of its rows, in row order.
    - A Python exception is a value of [exn]; code that may raise returns
      a [result].
    - Remote services (STAC catalog, blob storage, GBIF REST API) are
      parameters of the programs that call them; every call is recorded
      as an [event]. *)

From Stdlib Require Import QArith Qabs Reals Lra Lia String List.
From Stdlib Require Lqa.
From stdpp Require Import base option list sorting gmap strings.

Set Default Proof Using "Type".

(* ===================================================================== *)
(** * Part I: the embedding *)
(* ===================================================================== *)

(** ** Numbers with a missing value *)

Definition cell : Type := option Q.

Definition Qltb (a b : Q) : bool := negb (Qle_bool b a).

(** [series < scalar] and [series > scalar]: a comparison with NaN is
    False. *)
Definition cell_lt (v : cell) (c : Q) : bool :=
  match v with Some q => Qltb q c | None => false end.

Definition cell_gt (v : cell) (c : Q) : bool :=
  match v with Some q => Qltb c q | None => false end.

(** ** Exceptions *)

Inductive exn : Type :=
| KeyError (what : string)
| IndexError
| ValueError (what : string)
| UnboundLocalError (name : string)
| HTTPError (status : nat)
| StopIteration
| KeyboardInterrupt.

Inductive result (A : Type) : Type :=
| Ok (a : A)
| Raise (e : exn).
Arguments Ok {A} a.
Arguments Raise {A} e.

(** Sequencing stops at the first exception; [x ← m; k] is stdpp's
    notation for [mbind]. *)
#[global] Instance result_ret : MRet result := fun A a => Ok a.
#[global] Instance result_bind : MBind result := fun A B k m =>
  match m with Ok a => k a | Raise e => Raise e end.

(** ** Occurrence records (Billy_frogs_planetary_computer.ipynb) *)

(** The four columns the notebook keeps from the GBIF snapshot. *)
Record occurrence : Type := mkOcc {
  eventdate : string;
  order : string;
  decimallatitude : cell;
  decimallongitude : cell
}.

(** [bbox = (min_lon, min_lat, max_lon, max_lat)]. *)
Record bbox : Type := mkBbox {
  min_lon : Q; min_lat : Q; max_lon : Q; max_lat : Q
}.

(** [.query("order == 'Anura'")]. *)
Definition query_anura (df : list occurrence) : list occurrence :=
  filter (fun r => order r = "Anura"%string) df.

(** The boolean mask of the bounding-box cell, in the source's order:
    [(lat < max_lat) & (lat > min_lat) & (lon < max_lon) & (lon > min_lon)]. *)
Definition in_bbox (b : bbox) (r : occurrence) : bool :=
  cell_lt (decimallatitude r) (max_lat b)
  && cell_gt (decimallatitude r) (min_lat b)
  && cell_lt (decimallongitude r) (max_lon b)
  && cell_gt (decimallongitude r) (min_lon b).

(** [df = df[mask]]. *)
Definition bbox_filter (b : bbox) (df : list occurrence) : list occurrence :=
  List.filter (in_bbox b) df.

(** ** Slope from elevation (the DEM notebook, [slope_pct]) *)

(** A float64 value as numpy can produce it from finite operands: a finite
    real, an infinity or NaN. *)
Inductive fval : Type := Fin (r : R) | PInf | NInf | NaN.

Section Slope.
Local Open Scope R_scope.

(** A two-dimensional array of finite values, as the list of its rows. *)
Definition ndarray2 : Type := list (list R).

(** A filter kernel with integer entries, as written in the notebook. *)
Definition kernel : Type := list (list Z).

Definition at2 (a : ndarray2) (i j : nat) : R := nth j (nth i a []) 0.

Definition nrows (a : ndarray2) : nat := length a.
Definition ncols (a : ndarray2) : nat := length (hd [] a).

(** scipy.ndimage's default boundary mode, [mode='reflect']: the array is
    extended by mirroring about the edge of the last pixel,
    [(d c b a | a b c d | d c b a)]. *)
Definition reflect (n : nat) (i : Z) : nat :=
  let p := (i mod (2 * Z.of_nat n))%Z in
  Z.to_nat (if (p <? Z.of_nat n)%Z then p else (2 * Z.of_nat n - 1 - p)%Z).

(** The input seen through the boundary extension. *)
Definition pix (a : ndarray2) (i j : Z) : R :=
  at2 a (reflect (nrows a) i) (reflect (ncols a) j).

Definition Rsum (l : list R) : R := fold_right Rplus 0 l.

(** The index of the kernel entry that sits on the output pixel: the
    middle one, moved by one for an even-sized kernel in a convolution
    (scipy's origin adjustment). *)
Definition centre (convolution : bool) (size : nat) : Z :=
  if convolution && Nat.even size
  then (Z.of_nat (size / 2) - 1)%Z else Z.of_nat (size / 2).

(** One output pixel of scipy.ndimage's correlation: the kernel is laid
    over the neighbourhood and the products are summed. *)
Definition correlate_at (convolution : bool) (input : ndarray2) (w : kernel)
    (i j : nat) : R :=
  let cu := centre convolution (length w) in
  let cv := centre convolution (length (hd [] w)) in
  Rsum (concat (imap (fun u wrow =>
          imap (fun v wuv =>
            IZR wuv * pix input (Z.of_nat i + Z.of_nat u - cu)
                                (Z.of_nat j + Z.of_nat v - cv)) wrow) w)).

Definition correlate_or_convolve (convolution : bool) (input : ndarray2)
    (w : kernel) : ndarray2 :=
  imap (fun i row =>
          imap (fun j _ => correlate_at convolution input w i j) row) input.

(** [scipy.ndimage.convolve(input, weights)]: a correlation with the
    weights reversed along both axes.  The output has the input's shape. *)
Definition convolve (input : ndarray2) (weights : kernel) : ndarray2 :=
  correlate_or_convolve true input (rev (map (@rev Z) weights)).

(** Kernel for rate of elevation change in x-axis. *)
Definition dx_kernel : kernel := [[1; 0; -1]; [2; 0; -2]; [1; 0; -1]]%Z.

(** Kernel for rate of elevation change in y-axis. *)
Definition dy_kernel : kernel := [[1; 2; 1]; [0; 0; 0]; [-1; -2; -1]]%Z.

(** numpy's true division of a finite value by a finite scalar: dividing
    by zero raises nothing, it yields NaN for 0/0 and a signed infinity
    otherwise (the notebook silences the warning). *)
Definition fdiv (x d : R) : fval :=
  if Req_dec_T d 0 then
    (if Req_dec_T x 0 then NaN else if Rlt_dec 0 x then PInf else NInf)
  else Fin (x / d).

(** [np.square]. *)
Definition fsquare (x : fval) : fval :=
  match x with Fin r => Fin (r * r) | PInf | NInf => PInf | NaN => NaN end.

(** Elementwise [+]. *)
Definition fadd (x y : fval) : fval :=
  match x, y with
  | Fin a, Fin b => Fin (a + b)
  | NaN, _ | _, NaN => NaN
  | PInf, NInf | NInf, PInf => NaN
  | PInf, _ | _, PInf => PInf
  | NInf, _ | _, NInf => NInf
  end.

(** [np.sqrt]. *)
Definition fsqrt (x : fval) : fval :=
  match x with
  | Fin r => if Rlt_dec r 0 then NaN else Fin (sqrt r)
  | PInf => PInf
  | NInf | NaN => NaN
  end.

(** Multiplication by a finite scalar. *)
Definition fscale (x : fval) (c : R) : fval :=
  match x with
  | Fin r => Fin (r * c)
  | NaN => NaN
  | PInf => if Req_dec_T c 0 then NaN else if Rlt_dec 0 c then PInf else NInf
  | NInf => if Req_dec_T c 0 then NaN else if Rlt_dec 0 c then NInf else PInf
  end.

(** [slope_pct(dem, resolution)]. *)
Definition slope_pct (dem : ndarray2) (resolution : R) : list (list fval) :=
  (* Rate of change calculations for each axis. *)
  let dx := map (map (fun v => fdiv v (8 * resolution)))
                (convolve dem dx_kernel) in
  let dy := map (map (fun v => fdiv v (8 * resolution)))
                (convolve dem dy_kernel) in
  (* Return rise/run * 100 for slope percent. *)
  zip_with (zip_with (fun a b =>
              fscale (fsqrt (fadd (fsquare a) (fsquare b))) 100)) dx dy.

(** The pixel [(i, j)] of a list of rows. *)
Definition pixel {A} (a : list (list A)) (i j : nat) : option A :=
  a !! i ≫= (.!! j).

End Slope.

(** ** Arrays and labelled arrays (numpy, xarray) *)

(** A numpy array: its shape and its elements in row-major order. *)
Record ndarray : Type := mkArr {
  shape : list nat;
  flat : list cell
}.

(** [np.array([v1, ..., vn])], a one-dimensional array. *)
Definition array1 (l : list cell) : ndarray :=
  {| shape := [length l]; flat := l |}.

(** [np.concatenate((a, b), axis=0)]: both arrays need at least one
    dimension and must agree on all dimensions but the first. *)
Definition concatenate (a b : ndarray) : result ndarray :=
  match shape a, shape b with
  | na :: ta, nb :: tb =>
      if decide (ta = tb)
      then Ok {| shape := (na + nb)%nat :: ta; flat := flat a ++ flat b |}
      else Raise (ValueError "all the input array dimensions except for the concatenation axis must match exactly")
  | _, _ => Raise (ValueError "zero-dimensional arrays cannot be concatenated")
  end.

(** [np.squeeze(a)]: the axes of length one are removed. *)
Definition squeeze (a : ndarray) : ndarray :=
  {| shape := List.filter (fun n => negb (n =? 1)%nat) (shape a);
     flat := flat a |}.

(** The position in the row-major buffer of a multi-index. *)
Definition ravel (shp idx : list nat) : nat :=
  foldl (fun acc ni => (acc * ni.1 + ni.2)%nat) 0%nat (zip shp idx).

(** An xarray DataArray over the dimensions the notebooks use: a band
    axis and the two spatial axes, each with its coordinate labels. *)
Record DataArray : Type := mkDA {
  values : ndarray;
  dims : list string;
  band : list string;
  x : list Q;
  y : list Q
}.

(** The length of the axis called [name]. *)
Definition dim_size (dms : list string) (shp : list nat) (name : string)
    : option nat :=
  i ← fst <$> list_find (fun d => d = name) dms; shp !! i.

(** [xr.DataArray(data=..., dims=..., coords=dict(band=..., x=..., y=...))]:
    there must be one dimension name per axis, and every coordinate must
    be as long as the axis it labels. *)
Definition xr_DataArray (data : ndarray) (dms : list string)
    (bands : list string) (xs ys : list Q) : result DataArray :=
  if decide (length dms = length (shape data)
             ∧ dim_size dms (shape data) "band" = Some (length bands)
             ∧ dim_size dms (shape data) "x" = Some (length xs)
             ∧ dim_size dms (shape data) "y" = Some (length ys))
  then Ok {| values := data; dims := dms; band := bands; x := xs; y := ys |}
  else Raise (ValueError "conflicting sizes for dimension").

(** *** [create_predictor_image] (Billy_Model-Copy2.ipynb) *)

(** The local variables the loop assigns; before the first iteration
    none of them is bound. *)
Record cpi_locals : Type := mkLocals {
  combined_values : ndarray;
  combined_bands : list string;
  x_coords : list Q;
  y_coords : list Q;
  dims_ : list string
}.

(** [for i, data in enumerate(all_datasets)], from index [i] on. *)
Fixpoint cpi_loop (i : nat) (datasets : list DataArray)
    (locals : option cpi_locals) : result (option cpi_locals) :=
  match datasets with
  | [] => Ok locals
  | data :: rest =>
      locals' ←
        (if (i =? 0)%nat then
           Ok {| combined_values := values data;
                 combined_bands := band data;
                 x_coords := x data;
                 y_coords := y data;
                 dims_ := dims data |}
         else
           match locals with
           | None => Raise (UnboundLocalError "combined_values")
           | Some l =>
               v ← concatenate (combined_values l) (values data);
               Ok {| combined_values := v;
                     combined_bands := combined_bands l ++ band data;
                     x_coords := x_coords l;
                     y_coords := y_coords l;
                     dims_ := dims_ l |}
           end);
      cpi_loop (S i) rest (Some locals')
  end.

Definition create_predictor_image (all_datasets : list DataArray)
    : result DataArray :=
  locals ← cpi_loop 0 all_datasets None;
  match locals with
  | None => Raise (UnboundLocalError "combined_values")
  | Some l =>
      xr_DataArray (combined_values l) (dims_ l) (combined_bands l)
                   (x_coords l) (y_coords l)
  end.

(** *** Nearest-neighbour selection ([sel(..., method="nearest")]) *)

Definition Qdist (a b : Q) : Q := Qabs (a - b).

Fixpoint strictly_increasing (l : list Q) : bool :=
  match l with
  | a :: (b :: _) as t => Qltb a b && strictly_increasing t
  | _ => true
  end.

Fixpoint strictly_decreasing (l : list Q) : bool :=
  match l with
  | a :: (b :: _) as t => Qltb b a && strictly_decreasing t
  | _ => true
  end.

(** The position of the label nearest to [target] among the labels from
    position [i] on, [best] (with label [cbest]) being the nearest one
    before [i].  Of two labels equally near the larger is taken, which is
    what pandas does on a monotonic index. *)
Fixpoint nearest_scan (target : Q) (best : nat) (cbest : Q) (i : nat)
    (labels : list Q) : nat :=
  match labels with
  | [] => best
  | c :: rest =>
      if Qltb (Qdist c target) (Qdist cbest target)
         || (Qeq_bool (Qdist c target) (Qdist cbest target) && Qltb cbest c)
      then nearest_scan target i c (S i) rest
      else nearest_scan target best cbest (S i) rest
  end.

(** pandas' [Index.get_indexer([target], method="nearest")] as xarray
    calls it: an empty index has no nearest label, and the index has to be
    unique and monotonic. *)
Definition get_indexer_nearest (index : list Q) (target : Q) : result nat :=
  match index with
  | [] => Raise (KeyError "not all values found in index")
  | c0 :: rest =>
      if strictly_increasing index || strictly_decreasing index
      then Ok (nearest_scan target 0 c0 1 rest)
      else Raise (ValueError "index must be unique and monotonic increasing or decreasing")
  end.

(** The multi-index of band [b] at row [iy] and column [ix], in the order
    of the array's dimensions. *)
Definition multi_index (dms : list string) (b iy ix : nat) : list nat :=
  (fun d : string =>
     if decide (d = "band"%string) then b
     else if decide (d = "y"%string) then iy
     else if decide (d = "x"%string) then ix else 0%nat) <$> dms.

(** The values of all bands at one pixel, in band order. *)
Definition pixel_values (img : DataArray) (iy ix : nat) : list cell :=
  (fun b => default None
              (flat (values img)
                 !! ravel (shape (values img)) (multi_index (dims img) b iy ix)))
    <$> seq 0 (length (band img)).

(** [img.sel(x=lon, y=lat, method="nearest").values]: a one-dimensional
    array over the bands. *)
Definition sel_nearest (img : DataArray) (lon lat : Q) : result ndarray :=
  ix ← get_indexer_nearest (x img) lon;
  iy ← get_indexer_nearest (y img) lat;
  Ok (array1 (pixel_values img iy ix)).

(** *** [join_features] (Billy_Model-Copy2.ipynb) *)

(** A row of the response table [model_data]. *)
Record frog : Type := mkFrog {
  key : Z;
  decimalLongitude : Q;
  decimalLatitude : Q;
  occurrenceStatus : Z
}.

(** A row of [data_per_point]: the band columns with their values, and
    the column 'key'. *)
Record feature_row : Type := mkFeat {
  f_columns : list string;
  f_values : list cell;
  f_key : cell
}.

(** A row of the merged table: the columns of the response row followed
    by the band columns. *)
Record joined_row : Type := mkJoined {
  j_point : frog;
  j_columns : list string;
  j_values : list cell
}.

(** The body of the loop for one point. *)
Definition point_features (predictor_image : DataArray) (p : frog)
    : result feature_row :=
  (* Get the predictor pixel at the site of the frog occurrence *)
  nearest_point ← sel_nearest predictor_image
                     (decimalLongitude p) (decimalLatitude p);
  (* Prepare values and columns, saving the join key *)
  row ← concatenate (squeeze nearest_point)
                    (array1 [Some (inject_Z (key p))]);
  let columns := band predictor_image ++ ["key"%string] in
  if decide (length columns = length (flat row))
  then Ok {| f_columns := band predictor_image;
             f_values := flat (squeeze nearest_point);
             f_key := Some (inject_Z (key p)) |}
  else Raise (ValueError "Shape of passed values does not match the columns").

(** [for j, (lon, lat, key) in enumerate(zip(...))]: one row is appended
    to [data_per_point] for every point, in order. *)
Fixpoint join_loop (predictor_image : DataArray) (points : list frog)
    (data_per_point : list feature_row) : result (list feature_row) :=
  match points with
  | [] => Ok data_per_point
  | p :: rest =>
      row ← point_features predictor_image p;
      join_loop predictor_image rest (data_per_point ++ [row])
  end.

Definition key_matches (k : Z) (c : cell) : bool :=
  match c with Some q => Qeq_bool (inject_Z k) q | None => false end.

(** [left.merge(right, on=['key'], how='inner')]: every left row is paired
    with every right row of the same key, in the order of the left rows. *)
Definition merge_on_key (left : list frog) (right : list feature_row)
    : list joined_row :=
  left ≫= (fun p =>
    (fun r => {| j_point := p; j_columns := f_columns r;
                 j_values := f_values r |})
      <$> List.filter (fun r => key_matches (key p) (f_key r)) right).

Definition join_features (model_data : list frog) (predictor_image : DataArray)
    : result (list joined_row) :=
  data_per_point ← join_loop predictor_image model_data [];
  Ok (merge_on_key model_data data_per_point).

(** ** GeoTIFF export (rasterio) *)

Section GeoTIFF.
Context {A : Type}.

(** A raster band: the list of its rows. *)
Definition raster : Type := list (list A).

Definition has_shape (height width : nat) (r : raster) : Prop :=
  length r = height ∧ Forall (fun row => length row = width) r.

#[global] Instance has_shape_dec height width r : Decision (has_shape height width r).
Proof. unfold has_shape. apply _. Defined.

(** A dataset opened for writing: its dimensions, the number of bands it
    was declared with, and what has been written so far.  Bands are
    numbered from 1. *)
Record GTiff : Type := mkTiff {
  tiff_width : nat;
  tiff_height : nat;
  tiff_count : nat;
  tiff_bands : gmap nat raster;
  tiff_descriptions : gmap nat string
}.

(** [rasterio.open(filename, 'w', driver='GTiff', width=..., height=...,
    count=...)]. *)
Definition rasterio_open (width height count : nat) : GTiff :=
  {| tiff_width := width; tiff_height := height; tiff_count := count;
     tiff_bands := ∅; tiff_descriptions := ∅ |}.

(** [dst.write(arr, indexes)] and [dst.write_band(indexes, arr)] for a
    two-dimensional array: the band must exist and the array must have
    the dimensions of the dataset. *)
Definition write_band (dst : GTiff) (indexes : nat) (arr : raster)
    : result GTiff :=
  if decide (1 ≤ indexes ≤ tiff_count dst) then
    if decide (has_shape (tiff_height dst) (tiff_width dst) arr) then
      Ok {| tiff_width := tiff_width dst; tiff_height := tiff_height dst;
            tiff_count := tiff_count dst;
            tiff_bands := <[indexes := arr]> (tiff_bands dst);
            tiff_descriptions := tiff_descriptions dst |}
    else Raise (ValueError "Source shape is inconsistent with the dataset")
  else Raise IndexError.

(** Writing the slices of a three-dimensional array to the bands
    [i], [i+1], ... *)
Fixpoint write_from (dst : GTiff) (i : nat) (slices : list raster)
    : result GTiff :=
  match slices with
  | [] => Ok dst
  | arr :: rest => dst' ← write_band dst i arr; write_from dst' (S i) rest
  end.

(** [dst.write(arr)] for a three-dimensional array: one slice per band
    of the dataset, in order. *)
Definition write_all (dst : GTiff) (slices : list raster) : result GTiff :=
  if decide (length slices = tiff_count dst)
  then write_from dst 1 slices
  else Raise (ValueError "Source shape is inconsistent with given indexes").

(** [dst.set_band_description(bidx, value)]. *)
Definition set_band_description (dst : GTiff) (bidx : nat) (value : string)
    : result GTiff :=
  if decide (1 ≤ bidx ≤ tiff_count dst) then
    Ok {| tiff_width := tiff_width dst; tiff_height := tiff_height dst;
          tiff_count := tiff_count dst;
          tiff_bands := tiff_bands dst;
          tiff_descriptions := <[bidx := value]> (tiff_descriptions dst) |}
  else Raise IndexError.

(** A stack of labelled bands, as [stackstac] returns it for one item:
    [(band label, raster)] in band order. *)
Definition band_stack : Type := list (string * raster).

(** [data.sel(band=name)] as the export uses it: exactly one band must
    carry the label for the result to be a two-dimensional array. *)
Definition sel_band (data : band_stack) (name : string) : result raster :=
  match List.filter (fun b => bool_decide (b.1 = name)) data with
  | [] => Raise (KeyError name)
  | [b] => Ok b.2
  | _ => Raise (ValueError "array has more than two dimensions")
  end.

(** The loop of the surface-water export over [enumerate(cog_assets)],
    from index [i] on. *)
Fixpoint write_assets (data : band_stack) (dst : GTiff) (i : nat)
    (assets : list string) : result GTiff :=
  match assets with
  | [] => Ok dst
  | band :: rest =>
      img ← sel_band data band;
      dst1 ← write_band dst (i + 1) img;
      dst2 ← set_band_description dst1 (i + 1) band;
      write_assets data dst2 (S i) rest
  end.

(** The export cell of JRC_Surface_Water.ipynb. *)
Definition jrc_export (data : band_stack) (cog_assets : list string)
    : result GTiff :=
  occurrence_band ← sel_band data "occurrence";
  let height := length occurrence_band in
  let width := length (hd [] occurrence_band) in
  let dst := rasterio_open width height (length cog_assets) in
  dst ← write_all dst (snd <$> data);
  write_assets data dst 0 cog_assets.

(** A window of rows [r0, r1) and columns [c0, c1), as the label slices
    of [Combined_Data.sel(x=slice(...), y=slice(...))] select it from
    every variable of the dataset. *)
Definition clip (r0 r1 c0 c1 : nat) (a : raster) : raster :=
  (fun row => take (c1 - c0) (drop c0 row)) <$> take (r1 - r0) (drop r0 a).

(** The export cell of the DEM notebook. *)
Definition dem_export (elevation slope : raster) : result GTiff :=
  (* Set the dimensions of file in pixels *)
  let height := length elevation in
  let width := length (hd [] elevation) in
  let dst := rasterio_open width height 2 in
  dst ← write_band dst 1 elevation;
  write_band dst 2 slope.

End GeoTIFF.

Arguments raster : clear implicits.
Arguments GTiff : clear implicits.
Arguments band_stack : clear implicits.

(** The DEM notebook from the elevation tile to the file: the slope is
    computed on the whole tile, both layers are clipped to the same
    window, and the two are written as float32 bands. *)
Definition dem_notebook (data_elevation : ndarray2) (r0 r1 c0 c1 : nat)
    : result (GTiff fval) :=
  let data_slope := slope_pct data_elevation 30 in
  let elevation := clip r0 r1 c0 c1 (map (map Fin) data_elevation) in
  let slope := clip r0 r1 c0 c1 data_slope in
  dem_export elevation slope.

(** ** Remote services and the programs that call them *)

(** The URL of a blob; signing it attaches a short-lived SAS token. *)
Record url : Type := mkUrl {
  path : string;
  sas_token : option nat
}.

(** A STAC asset and a STAC item. *)
Record asset : Type := mkAsset {
  href : url;
  media_type : string
}.

Record item : Type := mkItem {
  item_id : string;
  assets : list (string * asset)
}.

(** The keyword arguments of [stac.search]. *)
Record search_query : Type := mkQuery {
  q_bbox : bbox;
  q_datetime : option string;
  q_collections : list string;
  q_limit : option nat;
  q_query : option string
}.

(** A record of the GBIF occurrence search, and one page of results. *)
Record gbif_record : Type := mkGbif {
  gbif_latitude : Q;
  gbif_longitude : Q
}.

Record response : Type := mkResponse {
  results : list gbif_record;
  count : nat;
  endOfRecords : bool
}.

(** What leaves the notebook: every call to a remote service. *)
Inductive event : Type :=
| StacSearch (q : search_query)
| SignRequest (p : string)
| ReadCollection (name : string)
| OpenAsset (u : url)
| ReadPartition (u : url) (i : nat)
| RestGet (offset limit : nat).

(** The services, as the notebooks see them.  [t] is the time of the
    call, counted in remote calls made so far: what a blob read returns
    may depend on it, since a token expires. *)
Record services : Type := mkServices {
  (* the STAC catalog *)
  catalog : search_query → list item;
  (* the collection document of terraclimate *)
  terraclimate_assets : list (string * asset);
  (* reading one partition of a parquet dataset *)
  read_partition : nat → url → nat → result (list occurrence);
  (* the number of partitions of the GBIF snapshot *)
  gbif_npartitions : nat;
  (* reading an asset, warped onto the grid of a bounding box *)
  read_asset : url → bbox → Q → raster cell;
  (* the GBIF occurrence search for a bounding box, at an offset *)
  gbif_search : bbox → nat → nat → response;
  (* the outcome of the i-th draw of [np.random.random() < 0.1] *)
  selected : nat → bool
}.

(** The state a program runs in: the clock, the log of remote calls and
    the global variables of the notebook. *)
Record world (G : Type) : Type := mkWorld {
  clock : nat;
  trace : list event;
  globals : G
}.
Arguments mkWorld {G} clock trace globals.
Arguments clock {G} w.
Arguments trace {G} w.
Arguments globals {G} w.

(** A program: it ends with a value or an exception, and in both cases
    leaves a world behind. *)
Definition M (G A : Type) : Type := world G → result A * world G.

#[global] Instance M_ret {G} : MRet (M G) := fun A a w => (Ok a, w).
#[global] Instance M_bind {G} : MBind (M G) := fun A B k m w =>
  match m w with
  | (Ok a, w') => k a w'
  | (Raise e, w') => (Raise e, w')
  end.

(** A remote call: it is logged and the clock advances; the program gets
    the time of the call. *)
Definition call {G} (e : event) : M G nat := fun w =>
  (Ok (clock w),
   {| clock := S (clock w); trace := trace w ++ [e]; globals := globals w |}).

Definition lift {G A} (r : result A) : M G A := fun w => (r, w).

Definition get_globals {G} : M G G := fun w => (Ok (globals w), w).

Definition set_globals {G} (g : G) : M G () := fun w =>
  (Ok (), {| clock := clock w; trace := trace w; globals := g |}).

(** [try: body except: handler], with a bare [except]: whatever the
    exception is, the handler runs in the world the body left. *)
Definition try_except {G A} (body handler : M G A) : M G A := fun w =>
  match body w with
  | (Ok a, w') => (Ok a, w')
  | (Raise _, w') => handler w'
  end.

(** [for i in l: body(i)]. *)
Fixpoint for_each {G A} (l : list A) (body : A → M G ()) : M G () :=
  match l with
  | [] => mret ()
  | a :: rest => _ ← body a; for_each rest body
  end.

(** [[f(a) for a in l]]. *)
Fixpoint for_list {G A B} (l : list A) (f : A → M G B) : M G (list B) :=
  match l with
  | [] => mret []
  | a :: rest => b ← f a; bs ← for_list rest f; mret (b :: bs)
  end.

(** [d[k]] on a dictionary kept as an association list. *)
Definition getitem {V} (d : list (string * V)) (k : string) : result V :=
  match list_find (fun kv => kv.1 = k) d with
  | Some (_, kv) => Ok kv.2
  | None => Raise (KeyError k)
  end.

(** [l[0]]. *)
Definition first {A} (l : list A) : result A :=
  match l with a :: _ => Ok a | [] => Raise IndexError end.

(** *** Signing (planetary_computer.sign) *)

Definition sign_url (t : nat) (u : url) : url :=
  {| path := path u; sas_token := Some t |}.

(** [planetary_computer.sign(asset)]: a token is requested and attached
    to the asset's href. *)
Definition sign_asset {G} (a : asset) : M G asset :=
  t ← call (SignRequest (path (href a)));
  mret {| href := sign_url t (href a); media_type := media_type a |}.

(** [planetary_computer.sign(item)]: one token for the item's container,
    attached to the href of every asset. *)
Definition sign_item {G} (it : item) : M G item :=
  t ← call (SignRequest (item_id it));
  mret {| item_id := item_id it;
          assets := (fun ka : string * asset =>
                       (ka.1, {| href := sign_url t (href ka.2);
                                 media_type := media_type ka.2 |}))
                    <$> assets it |}.

(** [stac.search(...)] followed by [list(search.get_items())]. *)
Definition stac_search {G} (sv : services) (q : search_query) : M G (list item) :=
  _ ← call (StacSearch q); mret (catalog sv q).

(** *** The extraction loop (Billy_frogs_planetary_computer.ipynb) *)

(** The dask dataframe: a lazy view of the parquet dataset behind a
    signed href, with the Anura query and the bounding-box filter
    attached. *)
Record dask_df : Type := mkDf {
  df_href : url
}.

(** The global variables of the notebook. *)
Record frogs_notebook : Type := mkNb {
  gbif_items : list item;
  nb_bbox : bbox;
  df : dask_df;
  frogs : list occurrence
}.

(** [resign_planetary_computer()]: the cell that built [df], repeated. *)
Definition resign_planetary_computer : M frogs_notebook dask_df :=
  g ← get_globals;
  it ← lift (first (gbif_items g));
  gbif ← sign_item it;
  gbif_data_asset ← lift (getitem (assets gbif) "data");
  mret {| df_href := href gbif_data_asset |}.

(** [d.get_partition(i).compute()]: the partition is read, then queried
    and filtered. *)
Definition compute_partition (sv : services) (d : dask_df) (i : nat)
    : M frogs_notebook (list occurrence) :=
  g ← get_globals;
  t ← call (ReadPartition (df_href d) i);
  rows ← lift (read_partition sv t (df_href d) i);
  mret (bbox_filter (nb_bbox g) (query_anura rows)).

(** [frogs = frogs.append(df.get_partition(i).compute())]. *)
Definition take_partition (sv : services) (i : nat) : M frogs_notebook () :=
  g ← get_globals;
  rows ← compute_partition sv (df g) i;
  set_globals {| gbif_items := gbif_items g; nb_bbox := nb_bbox g;
                 df := df g; frogs := frogs g ++ rows |}.

(** The body of [for i in range(df.npartitions)]. *)
Definition extraction_body (sv : services) (i : nat) : M frogs_notebook () :=
  if selected sv i then
    try_except
      (take_partition sv i)
      (d ← resign_planetary_computer;
       g ← get_globals;
       _ ← set_globals {| gbif_items := gbif_items g; nb_bbox := nb_bbox g;
                          df := d; frogs := frogs g |};
       take_partition sv i)
  else mret ().

Definition extraction (sv : services) : M frogs_notebook () :=
  for_each (seq 0 (gbif_npartitions sv)) (extraction_body sv).

(** *** [get_frogs] (the model-building notebook) *)

(** A row of the frame [get_frogs] returns. *)
Record sighting : Type := mkSighting {
  s_latitude : Q;
  s_longitude : Q;
  s_occurrenceStatus : Z;
  s_geometry : Q * Q
}.

(** [pd.DataFrame(response['results'])[["decimalLatitude",
    "decimalLongitude"]]]: a page without results has no such columns. *)
Definition results_frame (rs : list gbif_record) : result (list (Q * Q)) :=
  match rs with
  | [] => Raise (KeyError "decimalLatitude")
  | _ => Ok ((fun r => (gbif_latitude r, gbif_longitude r)) <$> rs)
  end.

(** [while True: ...], for at most [fuel] iterations; [None] if the loop
    has not ended by then. *)
Fixpoint get_frogs_loop {G} (sv : services) (fuel : nat) (b : bbox)
    (limit offset : nat) (frogs : list (Q * Q)) : M G (option (list (Q * Q))) :=
  match fuel with
  | O => mret None
  | S fuel' =>
      (* Fetch results *)
      _ ← call (RestGet offset limit);
      let response := gbif_search sv b offset limit in
      (* Add results to dataframe *)
      page ← lift (results_frame (results response));
      let frogs := frogs ++ page in
      if endOfRecords response then mret (Some frogs)
      else get_frogs_loop sv fuel' b limit (offset + limit) frogs
  end.

(** [.assign(occurrenceStatus = 1)] and the point geometry
    [points_from_xy(decimalLongitude, decimalLatitude)]. *)
Definition to_sighting (r : Q * Q) : sighting :=
  {| s_latitude := r.1; s_longitude := r.2;
     s_occurrenceStatus := 1; s_geometry := (r.2, r.1) |}.

Definition get_frogs {G} (sv : services) (fuel : nat) (b : bbox)
    : M G (option (list sighting)) :=
  let limit := 300%nat in
  let offset := 0%nat in
  frogs ← get_frogs_loop sv fuel b limit offset [];
  mret (M := M G)
    ((fun rows : list (Q * Q) => to_sighting <$> rows)
       <$> (frogs : option (list (Q * Q)))).

(** *** Stacking and compositing (stackstac, xarray) *)

(** The [assets] argument of [stackstac.stack]: a set of media types or
    a list of asset keys. *)
Inductive asset_selector : Type :=
| ByMediaType (types : list string)
| ByKey (keys : list string).

Definition has_media_type (types : list string) (a : asset) : bool :=
  existsb (fun t => String.prefix t (media_type a)) types.

(** The bands of the stack. *)
Definition selected_keys (sel : asset_selector) (items : list item)
    : list string :=
  match sel with
  | ByKey keys => keys
  | ByMediaType types =>
      remove_dups
        (items ≫= fun it =>
           fst <$> List.filter (fun ka => has_media_type types ka.2) (assets it))
  end.

(** One band of one item: the asset is opened and read onto the grid; an
    item without the asset contributes no data. *)
Definition stack_band {G} (sv : services) (b : bbox) (scale : Q) (it : item)
    (k : string) : M G (raster cell) :=
  match list_find (fun ka => ka.1 = k) (assets it) with
  | Some (_, ka) =>
      _ ← call (OpenAsset (href ka.2));
      mret (read_asset sv (href ka.2) b scale)
  | None => mret []
  end.

(** [stackstac.stack(items, ..., bounds_latlon=bbox, resolution=scale,
    assets=...)], computed: a cube indexed by time (one slice per item),
    band, row and column. *)
Definition stackstac_stack {G} (sv : services) (items : list item)
    (sel : asset_selector) (b : bbox) (scale : Q)
    : M G (list (list (raster cell))) :=
  match items with
  | [] => lift (Raise (ValueError "No items"))
  | _ =>
      for_list items (fun it =>
        for_list (selected_keys sel items) (stack_band sv b scale it))
  end.

(** [data.where(lambda x: x != na_val, other=np.nan)]. *)
Definition where_ne (na_val : Q) (data : list (list (raster cell)))
    : list (list (raster cell)) :=
  map (map (map (map (fun c : cell =>
    match c with
    | Some q => if Qeq_bool q na_val then None else Some q
    | None => None
    end)))) data.

#[global] Instance Qle_rel_dec : RelDecision Qle.
Proof.
  intros a b. destruct (Qle_bool a b) eqn:H.
  - left. apply Qle_bool_iff, H.
  - right. intros H'. apply Qle_bool_iff in H'. congruence.
Defined.

(** The median of a list of numbers: the middle one of the sorted list,
    or the mean of the two middle ones. *)
Definition median (xs : list Q) : cell :=
  let sorted := merge_sort Qle xs in
  let n := length sorted in
  if (n =? 0)%nat then None
  else if Nat.odd n then sorted !! (n / 2)%nat
  else
    lo ← sorted !! (n / 2 - 1)%nat;
    hi ← sorted !! (n / 2)%nat;
    Some ((lo + hi) / 2)%Q.

(** The numbers of a series, NaN left out. *)
Definition dropna (series : list cell) : list Q :=
  omap (fun c : cell => c) series.

(** The median of a series, with or without skipping NaN. *)
Definition series_median (skipna : bool) (series : list cell) : cell :=
  if skipna then median (dropna series)
  else if forallb (fun c : cell => bool_decide (is_Some c)) series
       then median (dropna series) else None.

(** The series of one pixel along the time axis. *)
Definition time_series (data : list (list (list (list cell)))) (b y x : nat)
    : list cell :=
  (fun scene : list (list (list cell)) =>
     match scene !! b with
     | Some band => default None (pixel band y x)
     | None => None
     end) <$> data.

(** [data.median(dim="time", skipna=...)]: the time axis is reduced,
    pixel by pixel. *)
Definition median_time (skipna : bool) (data : list (list (raster cell)))
    : list (raster cell) :=
  match data with
  | [] => []
  | scene0 :: _ =>
      imap (fun b band0 =>
        imap (fun y row0 =>
          imap (fun x _ => series_median skipna (time_series data b y x))
               row0) band0) scene0
  end.

(** *** [get_pc] (Billy_Model-Copy2.ipynb) *)

(** What [get_pc] returns: the clipped weather variables for
    'terraclimate', the median mosaic for every other product. *)
Inductive pc_data : Type :=
| Terraclimate (store : url) (variables : list string)
| Mosaic (bands : list (raster cell)).

Definition get_pc {G} (sv : services) (product : string) (b : bbox)
    (assets : asset_selector) (resolution : Q) (pc_query : option string)
    (date_range : option string) (na_val : option Q) : M G pc_data :=
  (* Handle terraclimate differently *)
  if decide (product = "terraclimate"%string) then
    _ ← call (ReadCollection "terraclimate");
    asset ← lift (getitem (terraclimate_assets sv) "zarr-https");
    _ ← call (OpenAsset (href asset));
    mret (Terraclimate (href asset) ["tmax"; "tmin"; "ppt"; "soil"]%string)
  else
    (* Query the planetary computer *)
    items ← stac_search sv {| q_bbox := b; q_datetime := date_range;
                              q_collections := [product];
                              q_limit := Some 500%nat; q_query := pc_query |};
    signed_items ← for_list items sign_item;
    (* degrees per pixel for crs=4326 *)
    let scale := (resolution / 111320)%Q in
    (* Stack up the items returned from the planetary computer *)
    data ← stackstac_stack sv signed_items assets b scale;
    let data := match na_val with
                | Some v => where_ne v data
                | None => data
                end in
    (* Median Composite *)
    mret (Mosaic (median_time true data)).

(** *** The loading cells of two notebooks *)

(** The DEM notebook: search, sign the 'data' asset of the first tile,
    open it. *)
Definition dem_load {G} (sv : services) (b : bbox) : M G url :=
  items ← stac_search sv {| q_bbox := b; q_datetime := None;
                            q_collections := ["cop-dem-glo-30"%string];
                            q_limit := None; q_query := None |};
  it ← lift (first items);
  a ← lift (getitem (assets it) "data");
  signed_asset ← sign_asset a;
  _ ← call (OpenAsset (href signed_asset));
  mret (href signed_asset).

Definition COG : string :=
  "image/tiff; application=geotiff; profile=cloud-optimized".

(** The default of the [assets] argument of [stackstac.stack]. *)
Definition stackstac_default_assets : asset_selector :=
  ByMediaType ["image/tiff"; "image/x.geotiff"; "image/vnd.stac.geotiff";
               "image/jp2"]%string.

(** [next(search.get_items())]. *)
Definition next {A} (l : list A) : result A :=
  match l with a :: _ => Ok a | [] => Raise StopIteration end.

(** The land-cover notebook, up to the stack and the colour map: the
    search is iterated three times (for the count, for the first tile, for
    the signed tiles); the no-data value is read from the metadata of the
    first tile's 'data' asset; the signed tiles are stacked; and that
    'data' asset is opened once more, through its signed href, for the
    colour map. The mosaic over time that the notebook takes of the stack
    is left out. *)
Definition land_cover_load {G} (sv : services) (b : bbox)
    : M G (list (list (raster cell))) :=
  let q := {| q_bbox := b; q_datetime := None;
              q_collections := ["io-lulc"%string];
              q_limit := None; q_query := None |} in
  _ ← stac_search sv q;
  found ← stac_search sv q;
  it ← lift (next found);
  again ← stac_search sv q;
  items ← for_list again sign_item;
  _ ← lift (getitem (assets it) "data");
  data ← stackstac_stack sv items stackstac_default_assets b (10 / 111320)%Q;
  a ← lift (getitem (assets it) "data");
  t ← call (SignRequest (path (href a)));
  _ ← call (OpenAsset (sign_url t (href a)));
  mret data.

(** [data.where(lambda x: x > 0, other=np.nan)]. *)
Definition where_positive (data : list (list (raster cell)))
    : list (list (raster cell)) :=
  map (map (map (map (fun c : cell =>
    match c with
    | Some q => if Qltb 0 q then Some q else None
    | None => None
    end)))) data.

(** The Sentinel-2 notebook: search for the clear scenes of 2020, sign
    them, stack the four bands, mask the no-data value, take the median
    over time. *)
Definition sentinel2_load {G} (sv : services) (b : bbox)
    : M G (list (raster cell)) :=
  items ← stac_search sv {| q_bbox := b;
                            q_datetime := Some "2020-01-01/2020-12-31"%string;
                            q_collections := ["sentinel-2-l2a"%string];
                            q_limit := Some 500%nat;
                            q_query := Some "eo:cloud_cover lt 20"%string |};
  signed_items ← for_list items sign_item;
  data ← stackstac_stack sv signed_items
           (ByKey ["B04"; "B03"; "B02"; "B08"]%string) b (10 / 111320)%Q;
  mret (median_time true (where_positive data)).

(** The surface-water notebook: search, take the only scene as it is,
    open each of its COG assets for the colour map, stack the scene. *)
Definition jrc_load {G} (sv : services) (b : bbox)
    : M G (list (list (raster cell))) :=
  items ← stac_search sv {| q_bbox := b; q_datetime := None;
                            q_collections := ["jrc-gsw"%string];
                            q_limit := None; q_query := None |};
  it ← lift (first items);
  let cog_assets :=
    fst <$> List.filter (fun ka => bool_decide (media_type ka.2 = COG))
                        (assets it) in
  _ ← for_each cog_assets (fun asset_key =>
         a ← lift (getitem (assets it) asset_key);
         _ ← call (OpenAsset (href a)); mret ());
  stackstac_stack sv [it] stackstac_default_assets b (10 / 111320)%Q.

(** ** Label slices ([sel(x=slice(start, stop))], the DEM notebook) *)

(** pandas' [is_monotonic_increasing] and [is_monotonic_decreasing]:
    equal neighbours are allowed. *)
Fixpoint is_monotonic_increasing (l : list Q) : bool :=
  match l with
  | a :: (b :: _) as t => Qle_bool a b && is_monotonic_increasing t
  | _ => true
  end.

Fixpoint is_monotonic_decreasing (l : list Q) : bool :=
  match l with
  | a :: (b :: _) as t => Qle_bool b a && is_monotonic_decreasing t
  | _ => true
  end.

(** [a.searchsorted(v, side)] on an array in increasing order: the number
    of elements below [v] for side 'left', of elements not above [v] for
    side 'right'. *)
Definition searchsorted (a : list Q) (v : Q) (left : bool) : nat :=
  length (List.filter (fun c => if left then Qltb c v else Qle_bool c v) a).

(** The positions at which a label occurs. *)
Definition positions (index : list Q) (label : Q) : list nat :=
  omap (fun ic : nat * Q => if Qeq_bool ic.2 label then Some ic.1 else None)
       (imap pair index).

(** pandas' [Index.get_slice_bound(label, side)].  On a monotonic index
    the bound is found by bisection (on a decreasing index in the
    reversed index), whether the label is present or not; on any other
    index the label must be present, and its occurrences must be
    adjacent. *)
Definition get_slice_bound (index : list Q) (label : Q) (left : bool)
    : result nat :=
  if is_monotonic_increasing index then
    Ok (searchsorted index label left)
  else if is_monotonic_decreasing index then
    Ok (length index - searchsorted (rev index) label (negb left))
  else
    match positions index label with
    | [] => Raise (KeyError "label not in index")
    | p0 :: _ as ps =>
        if decide (ps = seq p0 (length ps))
        then Ok (if left then p0 else p0 + length ps)
        else Raise (KeyError "Cannot get slice bound for non-unique label")
    end.

(** [index.slice_indexer(start, stop)]: the window of positions
    [start_slice, end_slice). *)
Definition slice_indexer (index : list Q) (start stop : Q)
    : result (nat * nat) :=
  start_slice ← get_slice_bound index start true;
  end_slice ← get_slice_bound index stop false;
  Ok (start_slice, end_slice).

(** [l[start_slice:end_slice]]. *)
Definition isel {A} (window : nat * nat) (l : list A) : list A :=
  take (window.2 - window.1) (drop window.1 l).

(** [Combined_Data] of the DEM notebook: elevation and slope on the grid
    of the tile, rows along y and columns along x. *)
Record Combined : Type := mkCombined {
  cd_x : list Q;
  cd_y : list Q;
  cd_elevation : raster fval;
  cd_slope : raster fval
}.

(** [Combined_Data.sel(x=slice(min_lon,max_lon),y=slice(max_lat,min_lat))]. *)
Definition sel_box (b : bbox) (d : Combined) : result Combined :=
  cols ← slice_indexer (cd_x d) (min_lon b) (max_lon b);
  rows ← slice_indexer (cd_y d) (max_lat b) (min_lat b);
  Ok {| cd_x := isel cols (cd_x d);
        cd_y := isel rows (cd_y d);
        cd_elevation := clip rows.1 rows.2 cols.1 cols.2 (cd_elevation d);
        cd_slope := clip rows.1 rows.2 cols.1 cols.2 (cd_slope d) |}.

(** The cells of the DEM notebook from the opened tile to the file, the
    clip being the one the bounding box selects on the coordinates of the
    tile. *)
Definition dem_cells (data_elevation : ndarray2) (xs ys : list Q) (b : bbox)
    : result (GTiff fval) :=
  let data_slope := slope_pct data_elevation 30 in
  let Combined_Data :=
    {| cd_x := xs; cd_y := ys;
       cd_elevation := map (map Fin) data_elevation;
       cd_slope := data_slope |} in
  Clipped_Data ← sel_box b Combined_Data;
  dem_export (cd_elevation Clipped_Data) (cd_slope Clipped_Data).

(** ** The export cells of the Sentinel-2 notebook *)

(** [median.sel(band="red").shape] gives the height and the width; the
    file is opened with four bands and the red, green, blue and
    near-infrared bands of the mosaic are written in that order. *)
Definition sentinel2_export {A} (median : band_stack A) : result (GTiff A) :=
  (* Set the dimensions of file in pixels *)
  red ← sel_band median "red";
  let height := length red in
  let width := length (hd [] red) in
  (* Create the GeoTIFF output file using the defined parameters *)
  let dst := rasterio_open width height 4 in
  red ← sel_band median "red";
  dst ← write_band dst 1 red;
  green ← sel_band median "green";
  dst ← write_band dst 2 green;
  blue ← sel_band median "blue";
  dst ← write_band dst 3 blue;
  nir ← sel_band median "nir";
  write_band dst 4 nir.

(** ** [predict_frogs] (Billy_Model-Copy2.ipynb) *)

(** A fitted scikit-learn classifier, as far as [predict_frogs] uses it:
    [predict_proba] takes one row of features per sample and returns one
    row of class probabilities per sample, or raises. *)
Record classifier : Type := mkClassifier {
  predict_proba : list (list cell) → result (list (list Q))
}.

(** [predictor_image.stack(z=("x", "y")).transpose()]: one row per pixel,
    the x index varying slowest; a row carries its label [(x, y)] and the
    values of all bands at that pixel. *)
Definition stack_z (img : DataArray) : list ((Q * Q) * list cell) :=
  concat (imap (fun ix xv =>
            imap (fun iy yv => ((xv, yv), pixel_values img iy ix)) (y img))
          (x img)).

(** [probabilities[:, k]]. *)
Fixpoint column (k : nat) (rows : list (list Q)) : result (list Q) :=
  match rows with
  | [] => Ok []
  | r :: rest =>
      match r !! k with
      | Some p => ps ← column k rest; Ok (p :: ps)
      | None => Raise IndexError
      end
  end.

(** A one-band image over the dimensions [(x, y)]: one row per x label. *)
Record xy_image : Type := mkXY {
  xy_x : list Q;
  xy_y : list Q;
  xy_values : list (list cell)
}.

(** No two labels are equal. *)
Fixpoint unique_labels (l : list Q) : bool :=
  match l with
  | [] => true
  | a :: t => forallb (fun b => negb (Qeq_bool a b)) t && unique_labels t
  end.

(** [resultant_image.unstack()] for a vector indexed by the stacked
    coordinate [z] whose levels are the labels [xs] and [ys]: the entry
    labelled [(x, y)] goes to position [(x, y)], a label without entry
    gives NaN, and an index with duplicate entries cannot be unstacked. *)
Definition unstack (xs ys : list Q) (z : list ((Q * Q) * Q)) : result xy_image :=
  if unique_labels xs && unique_labels ys then
    Ok {| xy_x := xs; xy_y := ys;
          xy_values :=
            (fun xv =>
               (fun yv =>
                  snd <$> List.find (fun e : (Q * Q) * Q =>
                                       Qeq_bool e.1.1 xv && Qeq_bool e.1.2 yv) z)
                 <$> ys) <$> xs |}
  else Raise (ValueError "cannot unstack: the index has duplicate entries").

Definition predict_frogs (predictor_image : DataArray) (model : classifier)
    : result xy_image :=
  (* Stack up pixels so they are in the appropriate format for the model *)
  let stacked := stack_z predictor_image in
  (* Calculate probability for each pixel point *)
  probabilities ← predict_proba model (snd <$> stacked);
  (* Just take probability of frog (class=1) *)
  probabilities ← column 1 probabilities;
  (* Add the coordinates to the probabilities, saving them in an xarray *)
  if decide (length probabilities = length stacked) then
    (* Unstack the image *)
    unstack (x predictor_image) (y predictor_image)
            (zip (fst <$> stacked) probabilities)
  else Raise (ValueError "conflicting sizes for dimension 'z'").

(** ** The grid of absence points (the GBIF notebook in Brian_Weather.ipynb) *)

(** A numpy array of two numbers, with the elementwise operations the
    cell uses. *)
Definition vec2 : Type := (Q * Q)%type.

Definition vadd (a b : vec2) : vec2 := (a.1 + b.1, a.2 + b.2)%Q.
Definition vmul (a b : vec2) : vec2 := (a.1 * b.1, a.2 * b.2)%Q.
Definition vdiv (a b : vec2) : vec2 := (a.1 / b.1, a.2 / b.2)%Q.

(** [point.intersects(Polygon(coords))] for a polygon that is a rectangle
    with sides parallel to the axes, as every grid unit is: the point
    lies in the rectangle or on its boundary, that is, between the least
    and the greatest corner in both directions. *)
Definition intersects (point : vec2) (coords : list vec2) : bool :=
  existsb (fun c : vec2 => Qle_bool c.1 point.1) coords
  && existsb (fun c : vec2 => Qle_bool point.1 c.1) coords
  && existsb (fun c : vec2 => Qle_bool c.2 point.2) coords
  && existsb (fun c : vec2 => Qle_bool point.2 c.2) coords.

(** A row of [non_frogs]. *)
Record absence : Type := mkAbsence {
  a_latitude : Q;
  a_longitude : Q
}.

(** The variables the two loops update. *)
Record grid_walk : Type := mkWalk {
  bottom_corner : vec2;
  non_frogs : list absence
}.

(** Specify granularity of grid (50x50). *)
Definition grid : nat * nat := (50, 50)%nat.

(** Calculate the step required to achieve granularity. *)
Definition grid_step (b : bbox) : vec2 :=
  vdiv (max_lat b - min_lat b, max_lon b - min_lon b)%Q
       (inject_Z (Z.of_nat grid.1), inject_Z (Z.of_nat grid.2)).

(** Define unit vectors. *)
Definition up : vec2 := (0, 1)%Q.
Definition right : vec2 := (1, 0)%Q.

(** Bottom corner of entire bounding box. *)
Definition bbox_bottom_corner (b : bbox) : vec2 := (min_lon b, min_lat b).

(** The body of the inner loop, for the indices [(i, j)]. *)
Definition grid_unit_body (b : bbox) (geo_frogs : list vec2) (st : grid_walk)
    (ij : nat * nat) : grid_walk :=
  let step := grid_step b in
  (* Define grid unit *)
  let coords := [ bottom_corner st;
                  vadd (bottom_corner st) (vmul step up);
                  vadd (bottom_corner st) step;
                  vadd (bottom_corner st) (vmul step right) ] in
  (* count all frogs that intersect with this region *)
  let num_frogs :=
    length (List.filter (fun p => intersects p coords) geo_frogs) in
  let non_frogs :=
    if (num_frogs =? 0)%nat then
      let midpoint := vadd (bottom_corner st) (vdiv step (2, 2)%Q) in
      non_frogs st ++ [{| a_latitude := midpoint.2;
                          a_longitude := midpoint.1 |}]
    else non_frogs st in
  (* move bottom corner to next grid unit *)
  {| bottom_corner :=
       vadd (bbox_bottom_corner b)
            (vmul step (inject_Z (Z.of_nat ij.1), inject_Z (Z.of_nat ij.2)));
     non_frogs := non_frogs |}.

(** [for i in range(grid[0]): for j in range(grid[1])]. *)
Definition grid_indices : list (nat * nat) :=
  i ← seq 0 grid.1; j ← seq 0 grid.2; [(i, j)].

(** The cell that lays the grid over the bounding box and collects the
    midpoints of the units without a frog. *)
Definition non_frog_grid (b : bbox) (geo_frogs : list vec2) : list absence :=
  non_frogs
    (foldl (grid_unit_body b geo_frogs)
           {| bottom_corner := bbox_bottom_corner b; non_frogs := [] |}
           grid_indices).

(* ===================================================================== *)
(** * Part II: the vocabulary of the specification *)
(* ===================================================================== *)

(** ** Bounding box *)

(** What it means for a record to lie strictly inside the box. *)
Definition strictly_inside (b : bbox) (r : occurrence) : Prop :=
  ∃ lat lon,
    decimallatitude r = Some lat ∧ decimallongitude r = Some lon ∧
    (min_lat b < lat)%Q ∧ (lat < max_lat b)%Q ∧
    (min_lon b < lon)%Q ∧ (lon < max_lon b)%Q.

(** A record on one of the four edges of the box. *)
Definition on_edge (b : bbox) (r : occurrence) : Prop :=
  (∃ lat, decimallatitude r = Some lat ∧
          (lat == min_lat b ∨ lat == max_lat b)%Q) ∨
  (∃ lon, decimallongitude r = Some lon ∧
          (lon == min_lon b ∨ lon == max_lon b)%Q).

(** ** Convolution *)

Section SlopeSpec.
Local Open Scope R_scope.

(** The entry of a 3x3 kernel at offset [(a, b)] from its middle,
    [a, b] in [-1 .. 1]. *)
Definition kernel_entry (k : kernel) (a b : Z) : Z :=
  nth (Z.to_nat (b + 1)) (nth (Z.to_nat (a + 1)) k []) 0%Z.

(** The discrete convolution of an image with a 3x3 kernel, as in the
    textbooks: [(k * dem)(i, j) = sum over a, b of k(a, b) dem(i-a, j-b)],
    the image being extended over its border by reflection. *)
Definition convolution3 (k : kernel) (dem : ndarray2) (i j : Z) : R :=
  Rsum (map (fun ab : Z * Z =>
               IZR (kernel_entry k ab.1 ab.2) * pix dem (i - ab.1) (j - ab.2))
            (list_prod [-1; 0; 1]%Z [-1; 0; 1]%Z)).

(** A float that is a number and is not below zero. *)
Definition fval_nonneg (v : fval) : Prop :=
  match v with Fin r => 0 <= r | PInf => True | NInf | NaN => False end.

Definition fval_finite (v : fval) : Prop :=
  match v with Fin _ => True | _ => False end.

End SlopeSpec.

(** ** Labelled arrays *)

(** A DataArray that xarray can hold: its own constructor accepts it. *)
Definition valid_DataArray (d : DataArray) : Prop :=
  xr_DataArray (values d) (dims d) (band d) (x d) (y d) = Ok d.

(** The band axis comes first, as in the docstring of
    [create_predictor_image]: "the ith array has dimensions (k_i, n, m)". *)
Definition band_first (d : DataArray) : Prop :=
  ∃ spatial, dims d = "band"%string :: spatial.

(** Two datasets share their spatial dimensions: all axes after the band
    axis have the same lengths. *)
Definition same_spatial_dims (d0 d : DataArray) : Prop :=
  tail (shape (values d)) = tail (shape (values d0)).

(** ** Nearest pixel *)

(** Position [i] holds a label of [labels] that is nearest to [target]:
    no label is nearer. *)
Definition nearest (labels : list Q) (target : Q) (i : nat) : Prop :=
  ∃ c, labels !! i = Some c ∧
       ∀ j c', labels !! j = Some c' → (Qdist c target <= Qdist c' target)%Q.

(** The coordinates of a regular grid: at least one label, the labels
    strictly increasing or strictly decreasing. *)
Definition regular_grid (labels : list Q) : Prop :=
  labels ≠ [] ∧ strictly_increasing labels || strictly_decreasing labels = true.

(** The merged row a point should get: its own columns and the values of
    the pixel at [(iy, ix)]. *)
Definition joined_with (img : DataArray) (p : frog) (iy ix : nat) : joined_row :=
  {| j_point := p; j_columns := band img; j_values := pixel_values img iy ix |}.

(** ** Rasters *)

(** Every row of the array has the same length (a numpy array is never
    ragged). *)
Definition rectangular {A} (a : list (list A)) : Prop :=
  Forall (fun row => length row = length (hd [] a)) a.

(** A stack of bands is a cube with one label per band: the labels are
    pairwise distinct and all bands have the same dimensions. *)
Definition stack_cube {A} (data : band_stack A) : Prop :=
  NoDup (fst <$> data) ∧ ∃ h w, Forall (fun b => has_shape h w b.2) data.

(** ** Paging *)

(** A search service that pages faithfully through the records matching
    the query: a page holds the records from [offset] on, at most [limit]
    of them, and says whether it is the last. *)
Definition paged_server (sv : services) (b : bbox)
    (matching : list gbif_record) : Prop :=
  ∀ offset limit,
    gbif_search sv b offset limit
    = {| results := take limit (drop offset matching);
         count := length matching;
         endOfRecords := bool_decide (length matching ≤ offset + limit) |}.

(** The number of pages of 300 records from [offset] on. *)
Definition pages_from (n offset : nat) : nat := (n - offset + 299) / 300.

(** The requests that fetch these pages. *)
Definition page_requests (n offset : nat) : list event :=
  (fun k => RestGet (offset + k * 300) 300) <$> seq 0 (pages_from n offset).

(** The REST requests in a log. *)
Definition rest_requests (tr : list event) : list event :=
  List.filter (fun e => match e with RestGet _ _ => true | _ => false end) tr.

(** ** Access to assets *)

(** The asset URLs a log shows as opened. *)
Definition opened_urls (tr : list event) : list url :=
  omap (fun e => match e with OpenAsset u => Some u | _ => None end) tr.

(** The URL was obtained by signing an asset of an item that the catalog
    returns for the query. *)
Definition signed_asset_of_search (sv : services) (q : search_query)
    (u : url) : Prop :=
  ∃ it k a t,
    it ∈ catalog sv q ∧ (k, a) ∈ assets it ∧ u = sign_url t (href a).

(** A program that opens only URLs satisfying [P], and whose value, when
    it returns one, satisfies [Post]. *)
Definition opens_only {G A} (P : url → Prop) (Post : A → Prop) (m : M G A)
    : Prop :=
  ∀ w,
    (∀ u, u ∈ opened_urls (trace (m w).2) → u ∈ opened_urls (trace w) ∨ P u)
    ∧ (∀ a, (m w).1 = Ok a → Post a).

(** The catalog queries of the DEM notebook and of [get_pc]: a bounding
    box and a collection id, for [get_pc] with its optional date range,
    property filter and page size. *)
Definition dem_query (b : bbox) : search_query :=
  {| q_bbox := b; q_datetime := None;
     q_collections := ["cop-dem-glo-30"%string];
     q_limit := None; q_query := None |}.

Definition pc_query (product : string) (b : bbox) (date_range : option string)
    (query : option string) : search_query :=
  {| q_bbox := b; q_datetime := date_range; q_collections := [product];
     q_limit := Some 500%nat; q_query := query |}.

Definition land_cover_query (b : bbox) : search_query :=
  {| q_bbox := b; q_datetime := None; q_collections := ["io-lulc"%string];
     q_limit := None; q_query := None |}.

Definition sentinel2_query (b : bbox) : search_query :=
  {| q_bbox := b; q_datetime := Some "2020-01-01/2020-12-31"%string;
     q_collections := ["sentinel-2-l2a"%string];
     q_limit := Some 500%nat;
     q_query := Some "eo:cloud_cover lt 20"%string |}.

(** An empty notebook. *)
Definition fresh : world () := {| clock := 0; trace := []; globals := () |}.

(** ** Median *)

(** How many of the numbers are at most [m], and at least [m]. *)
Definition count_le (xs : list Q) (m : Q) : nat :=
  length (filter (fun v => (v <= m)%Q) xs).

Definition count_ge (xs : list Q) (m : Q) : nat :=
  length (filter (fun v => (m <= v)%Q) xs).

(** [m] is a median of [xs]: at least half of the numbers are at most
    [m] and at least half of them are at least [m]. *)
Definition is_median (xs : list Q) (m : Q) : Prop :=
  length xs ≤ 2 * count_le xs m ∧ length xs ≤ 2 * count_ge xs m.

(** [m] is the median of a series with NaN skipped: a median of the
    numbers in the series, and NaN if there is none. *)
Definition median_skipna (series : list cell) (m : cell) : Prop :=
  (dropna series = [] ∧ m = None)
  ∨ (dropna series ≠ [] ∧ ∃ q, m = Some q ∧ is_median (dropna series) q).

(** The value of a mosaic at band [b], row [y], column [x]. *)
Definition mosaic_pixel (mosaic : list (list (list cell))) (b y x : nat)
    : option cell :=
  match mosaic !! b with Some r => pixel r y x | None => None end.

(** ** Sample data *)

(** A one-band elevation raster and a one-band gradient raster on the same
    1x2 grid, as [get_predictor_datasets] collects them for
    'cop-dem-glo-30'. *)
Definition sample_elevation : DataArray :=
  {| values := {| shape := [1; 1; 2]%nat; flat := [Some 12; Some 40]%Q |};
     dims := ["band"; "y"; "x"]%string;
     band := ["elevation"%string];
     x := [150 # 1; 151 # 1]%Q;
     y := [-33 # 1]%Q |}.

Definition sample_gradient : DataArray :=
  {| values := {| shape := [1; 1; 2]%nat; flat := [Some 3; Some 7]%Q |};
     dims := ["band"; "y"; "x"]%string;
     band := ["gradient"%string];
     x := [150 # 1; 151 # 1]%Q;
     y := [-33 # 1]%Q |}.

(** A two-band predictor image on the 1x2 grid of the samples above. *)
Definition sample_image : DataArray :=
  {| values := {| shape := [2; 1; 2]%nat;
                  flat := [Some 12; Some 40; Some 3; Some 7]%Q |};
     dims := ["band"; "y"; "x"]%string;
     band := ["elevation"; "gradient"]%string;
     x := [150 # 1; 151 # 1]%Q;
     y := [-33 # 1]%Q |}.

(** Two occurrences near the two pixels, with distinct keys and with the
    same key. *)
Definition sample_frogs : list frog :=
  [ {| key := 0; decimalLongitude := 1501 # 10; decimalLatitude := -33 # 1;
       occurrenceStatus := 1 |};
    {| key := 1; decimalLongitude := 1509 # 10; decimalLatitude := -33 # 1;
       occurrenceStatus := 1 |} ].

Definition same_key_frogs : list frog :=
  [ {| key := 0; decimalLongitude := 1501 # 10; decimalLatitude := -33 # 1;
       occurrenceStatus := 1 |};
    {| key := 0; decimalLongitude := 1509 # 10; decimalLatitude := -33 # 1;
       occurrenceStatus := 1 |} ].

(** A 2x2 elevation tile that rises by 8 m from west to east. *)
Definition sample_dem : ndarray2 := [[0; 8]; [0; 8]]%R.

(** Two surface-water layers on a 1x2 grid and the list of their keys. *)
Definition sample_water : band_stack cell :=
  [ ("change"%string, [[Some 100; Some 120]]%Q);
    ("occurrence"%string, [[Some 0; Some 97]]%Q) ].

Definition sample_cog_assets : list string := ["change"; "occurrence"]%string.

(** The Richmond bounding box of the notebooks. *)
Definition richmond : bbox :=
  {| min_lon := 15062 # 100; min_lat := -3369 # 100;
     max_lon := 15083 # 100; max_lat := -3348 # 100 |}.

(** A GBIF snapshot item with its parquet asset, and a surface-water
    scene with one cloud-optimized GeoTIFF. *)
Definition sample_gbif_asset : asset :=
  {| href := {| path := "gbif/occurrence.parquet"; sas_token := None |};
     media_type := "application/x-parquet" |}.

Definition sample_gbif_item : item :=
  {| item_id := "gbif-2021-04-13"; assets := [("data"%string, sample_gbif_asset)] |}.

Definition sample_jrc_item : item :=
  {| item_id := "jrc-gsw-150E-30S";
     assets := [("occurrence"%string,
                 {| href := {| path := "jrc/occurrence.tif"; sas_token := None |};
                    media_type := COG |})] |}.

(** One partition of the snapshot: a frog inside the box and a frog
    outside it. *)
Definition sample_partition : list occurrence :=
  [ {| eventdate := "2020-01-05"; order := "Anura";
       decimallatitude := Some (-336 # 10); decimallongitude := Some (1507 # 10) |};
    {| eventdate := "2020-02-11"; order := "Anura";
       decimallatitude := Some (-30 # 1); decimallongitude := Some (1507 # 10) |} ]%Q.

(** The 650 sightings that match a query: three pages of the search. *)
Definition sample_matching : list gbif_record :=
  repeat {| gbif_latitude := -336 # 10; gbif_longitude := 1507 # 10 |} 650.

(** Services whose blob store accepts a token for one tick after it was
    issued, and whose occurrence search pages through the sightings
    above. *)

Definition sample_services : services :=
  {| catalog := fun q =>
       if bool_decide (q_collections q = ["jrc-gsw"%string])
       then [sample_jrc_item] else [sample_gbif_item];
     terraclimate_assets :=
       [("zarr-https"%string,
         {| href := {| path := "terraclimate.zarr"; sas_token := None |};
            media_type := "application/vnd+zarr" |})];
     read_partition := fun t u i =>
       match sas_token u with
       | Some issued =>
           if (t - issued <=? 1)%nat then Ok sample_partition
           else Raise (HTTPError 403)
       | None => Raise (HTTPError 404)
       end;
     gbif_npartitions := 2;
     read_asset := fun u b scale => [[Some 1; Some 2]]%Q;
     gbif_search := fun b offset limit =>
       {| results := take limit (drop offset sample_matching);
          count := length sample_matching;
          endOfRecords := bool_decide (length sample_matching ≤ offset + limit) |};
     selected := fun i => (i =? 0)%nat |}.

(** The notebook at the start of a long extraction: the handle was signed
    at time 0 and it is now time 5. *)
Definition sample_world : world frogs_notebook :=
  {| clock := 5; trace := [];
     globals := {| gbif_items := [sample_gbif_item]; nb_bbox := richmond;
                   df := {| df_href := sign_url 0 (href sample_gbif_asset) |};
                   frogs := [] |} |}.

(** ** Logs of the extraction *)

(** The partitions a log shows as read, each with the handle it was read
    through, and the names tokens were requested for. *)
Definition partition_reads (tr : list event) : list (url * nat) :=
  omap (fun e => match e with ReadPartition u i => Some (u, i) | _ => None end) tr.

Definition sign_requests (tr : list event) : list string :=
  omap (fun e => match e with SignRequest p => Some p | _ => None end) tr.

(** A frog of the box: a record of the order Anura strictly inside it. *)
Definition frog_in_box (b : bbox) (r : occurrence) : Prop :=
  order r = "Anura"%string ∧ strictly_inside b r.

(** What a run may do to the notebook: the box stays and frogs of the box
    are added behind the records already there. *)
Definition grows_by_frogs (w1 w2 : world frogs_notebook) : Prop :=
  nb_bbox (globals w2) = nb_bbox (globals w1)
  ∧ ∃ new, frogs (globals w2) = frogs (globals w1) ++ new
           ∧ Forall (frog_in_box (nb_bbox (globals w1))) new.

(** ** One scene *)

(** A scene after the masking of [get_pc]: the no-data value, if one is
    given, has become NaN. *)
Definition mask_na (na_val : option Q) (scene : list (raster cell))
    : list (raster cell) :=
  match na_val with
  | Some v =>
      map (map (map (fun c : cell =>
        match c with
        | Some q => if Qeq_bool q v then None else Some q
        | None => None
        end))) scene
  | None => scene
  end.

(** ** More sample services *)

(** A blob store that never refuses a read, over three partitions of
    which the first and the last are drawn. *)
Definition reliable_services : services :=
  {| catalog := fun q => [sample_jrc_item];
     terraclimate_assets := [];
     read_partition := fun t u i => Ok sample_partition;
     gbif_npartitions := 3;
     read_asset := fun u b scale => [[Some 0; Some 97]]%Q;
     gbif_search := fun b offset limit =>
       {| results := []; count := 0; endOfRecords := true |};
     selected := fun i => negb (i =? 1)%nat |}.

(** A region for which the catalog and the occurrence search find
    nothing. *)
Definition empty_services : services :=
  {| catalog := fun q => [];
     terraclimate_assets := [];
     read_partition := fun t u i => Ok [];
     gbif_npartitions := 0;
     read_asset := fun u b scale => [];
     gbif_search := fun b offset limit =>
       {| results := []; count := 0; endOfRecords := true |};
     selected := fun i => false |}.

(** An occurrence search that reports one matching record in total but
    never sets [endOfRecords]. *)
Definition endless_services : services :=
  {| catalog := fun q => [];
     terraclimate_assets := [];
     read_partition := fun t u i => Ok [];
     gbif_npartitions := 0;
     read_asset := fun u b scale => [];
     gbif_search := fun b offset limit =>
       {| results := [{| gbif_latitude := -336 # 10;
                         gbif_longitude := 1507 # 10 |}];
          count := 1; endOfRecords := false |};
     selected := fun i => false |}.

(** A reading that carries no observation: NaN or the no-data value. *)
Definition no_observation (na : Q) (c : cell) : Prop :=
  match c with Some q => (q == na)%Q | None => True end.

(** ** Terrain *)

Section TerrainSpec.
Local Open Scope R_scope.

(** The terrain lifted by [c] metres everywhere. *)
Definition raise_terrain (c : R) (dem : ndarray2) : ndarray2 :=
  map (map (fun e => e + c)) dem.

(** A terrain of constant elevation [c]. *)
Definition flat_terrain (c : R) (dem : ndarray2) : Prop :=
  ∀ i j e, pixel dem i j = Some e → e = c.

(** A plane: the elevation grows by [a] per column and by [b] per row. *)
Definition plane_terrain (e0 a b : R) (dem : ndarray2) : Prop :=
  ∀ i j, (i < nrows dem)%nat → (j < ncols dem)%nat →
         at2 dem i j = e0 + a * INR j + b * INR i.

(** A pixel that has all eight neighbours. *)
Definition interior (dem : ndarray2) (i j : nat) : Prop :=
  (1 ≤ i ∧ i + 1 < nrows dem ∧ 1 ≤ j ∧ j + 1 < ncols dem)%nat.

(** A 3x3 tile that rises by 8 m per column and falls by 6 m per row. *)
Definition sample_slope_tile : ndarray2 :=
  [[12; 20; 28]; [6; 14; 22]; [0; 8; 16]].

(** A 2x2 tile at 40 m. *)
Definition sample_plateau : ndarray2 := [[40; 40]; [40; 40]].

End TerrainSpec.

(** ** The join, away from the raster *)

(** A sighting fifty degrees east of the sample image. *)
Definition sample_far_frog : frog :=
  {| key := 7; decimalLongitude := 200 # 1; decimalLatitude := -33 # 1;
     occurrenceStatus := 1 |}.

(** ** Stacked images *)

(** The image that holds the bands of [d0] and of the datasets after it,
    on the grid of [d0]. *)
Definition stacked_image (d0 : DataArray) (rest : list DataArray) : DataArray :=
  {| values := {| shape := length (concat (band <$> d0 :: rest))
                           :: tail (shape (values d0));
                  flat := concat ((flat ∘ values) <$> d0 :: rest) |};
     dims := dims d0;
     band := concat (band <$> d0 :: rest);
     x := x d0;
     y := y d0 |}.

(** A one-band raster on a grid of three columns. *)
Definition sample_image_3x1 : DataArray :=
  {| values := {| shape := [1; 1; 3]%nat; flat := [Some 1; Some 2; Some 3]%Q |};
     dims := ["band"; "y"; "x"]%string;
     band := ["landcover"%string];
     x := [150 # 1; 151 # 1; 152 # 1]%Q;
     y := [-33 # 1]%Q |}.

(** ** The tile of the DEM notebook *)

(** A 4x4 tile around the Richmond box, north up: the columns at
    150.6 .. 150.9 degrees east, the rows at 33.4 .. 33.7 degrees south. *)
Definition sample_tile_x : list Q := [1506 # 10; 1507 # 10; 1508 # 10; 1509 # 10].
Definition sample_tile_y : list Q := [-334 # 10; -335 # 10; -336 # 10; -337 # 10].

Definition sample_tile : ndarray2 :=
  [[10; 11; 12; 13]; [20; 21; 22; 23]; [30; 31; 32; 33]; [40; 41; 42; 43]]%R.

(** ** A Sentinel-2 mosaic *)

(** The four bands of a mosaic on a 1x2 grid, in the order of the stack
    (B04, B03, B02, B08) under their common names. *)
Definition sample_s2_median : band_stack cell :=
  [ ("red"%string, [[Some 900; Some 1100]]%Q);
    ("green"%string, [[Some 800; Some 700]]%Q);
    ("blue"%string, [[Some 500; Some 400]]%Q);
    ("nir"%string, [[Some 3000; None]]%Q) ].

(** ** Classifiers *)

(** A classifier that looks at one sample at a time, as the estimators of
    scikit-learn do: the probabilities of a sample are [f] of its
    features. *)
Definition rowwise (model : classifier) (f : list cell → list Q) : Prop :=
  ∀ rows, predict_proba model rows = Ok (f <$> rows).

(** A two-class toy model: the probability of a frog is 3/4 where the
    first feature is a number above 10, and 1/4 elsewhere. *)
Definition sample_proba (features : list cell) : list Q :=
  match features with
  | Some v :: _ => if Qltb 10 v then [1 # 4; 3 # 4] else [3 # 4; 1 # 4]
  | _ => [3 # 4; 1 # 4]
  end.

Definition sample_model : classifier :=
  {| predict_proba := fun rows => Ok (sample_proba <$> rows) |}.

(** ** The grid of absence points *)

(** The corner the cell computes for the indices [(i, j)]: [i] steps of
    a fiftieth of the latitude extent along x and [j] steps of a fiftieth
    of the longitude extent along y. *)
Definition unit_corner (b : bbox) (ij : nat * nat) : vec2 :=
  (min_lon b + (max_lat b - min_lat b) / 50 * inject_Z (Z.of_nat ij.1),
   min_lat b + (max_lon b - min_lon b) / 50 * inject_Z (Z.of_nat ij.2))%Q.

(** The grid unit with its bottom corner at [c], and its midpoint. *)
Definition unit_at (b : bbox) (c : vec2) : list vec2 :=
  [ c;
    (c.1 + (max_lat b - min_lat b) / 50 * 0, c.2 + (max_lon b - min_lon b) / 50 * 1);
    (c.1 + (max_lat b - min_lat b) / 50, c.2 + (max_lon b - min_lon b) / 50);
    (c.1 + (max_lat b - min_lat b) / 50 * 1, c.2 + (max_lon b - min_lon b) / 50 * 0) ]%Q.

Definition unit_midpoint (b : bbox) (c : vec2) : absence :=
  {| a_latitude := (c.2 + (max_lon b - min_lon b) / 50 / 2)%Q;
     a_longitude := (c.1 + (max_lat b - min_lat b) / 50 / 2)%Q |}.

(** No frog lies in the unit at [c] or on its boundary. *)
Definition unit_without_frog (b : bbox) (geo_frogs : list vec2) (c : vec2) : bool :=
  forallb (fun p => negb (intersects p (unit_at b c))) geo_frogs.

(** The corners of the units the walk examines, in order: in every
    iteration the corner is the one computed at the end of the iteration
    before, at first the corner of the box. *)
Definition examined_corners (b : bbox) (indices : list (nat * nat)) : list vec2 :=
  take (length indices) (bbox_bottom_corner b :: (unit_corner b <$> indices)).

(** Three sightings in the Richmond box. *)
Definition sample_geo_frogs : list vec2 :=
  [(1507 # 10, -336 # 10); (1507 # 10, -336 # 10); (15063 # 100, -3368 # 100)]%Q.

(** ** Empty search results *)

(** The catalog query of the surface-water notebook. *)
Definition jrc_query (b : bbox) : search_query :=
  {| q_bbox := b; q_datetime := None; q_collections := ["jrc-gsw"%string];
     q_limit := None; q_query := None |}.

(** The world after the searches [qs], made one after the other and
    nothing else. *)
Definition after_searches {G} (w : world G) (qs : list search_query) : world G :=
  {| clock := clock w + length qs;
     trace := trace w ++ (StacSearch <$> qs);
     globals := globals w |}.

(** ** A Sentinel-2 scene *)

(** A scene with the four bands the notebook stacks, and services that
    find it three times (three acquisitions) and read 0 (no data) and
    1200 from every band. *)
Definition sample_s2_item : item :=
  {| item_id := "S2A_MSIL2A_20200105";
     assets :=
       (fun k : string =>
          (k, {| href := {| path := "s2/" +:+ k +:+ ".tif"; sas_token := None |};
                 media_type := COG |}))
         <$> ["B04"; "B03"; "B02"; "B08"]%string |}.

Definition sentinel_services : services :=
  {| catalog := fun q => [sample_s2_item; sample_s2_item; sample_s2_item];
     terraclimate_assets := [];
     read_partition := fun t u i => Ok [];
     gbif_npartitions := 0;
     read_asset := fun u b scale => [[Some 0; Some 1200]]%Q;
     gbif_search := fun b offset limit =>
       {| results := []; count := 0; endOfRecords := true |};
     selected := fun i => false |}.

(** ** Pixels of a stacked image *)

(** The number of elements of an array of a given shape. *)
Definition size (shp : list nat) : nat := foldr Nat.mul 1%nat shp.

(** The buffer of the array holds one element per index. *)
Definition full_buffer (d : DataArray) : Prop :=
  length (flat (values d)) = size (shape (values d)).

(** The dimensions are (band, y, x), as the median mosaics have them. *)
Definition band_y_x (d : DataArray) : Prop :=
  dims d = ["band"; "y"; "x"]%string.

(* ===================================================================== *)
(** * Part III: properties *)
(* ===================================================================== *)

Lemma Qltb_lt (a b : Q) : Qltb a b = true ↔ (a < b)%Q.
Proof.
  unfold Qltb. rewrite negb_true_iff, <- not_true_iff_false, Qle_bool_iff.
  split; [apply Qnot_le_lt | apply Qlt_not_le].
Qed.

Lemma cell_lt_spec (v : cell) (c : Q) :
  cell_lt v c = true ↔ ∃ q, v = Some q ∧ (q < c)%Q.
Proof.
  destruct v as [q|]; simpl.
  - rewrite Qltb_lt. split; [eauto | intros (q' & [= <-] & H); exact H].
  - split; [discriminate | intros (q & [=] & _)].
Qed.

Lemma cell_gt_spec (v : cell) (c : Q) :
  cell_gt v c = true ↔ ∃ q, v = Some q ∧ (c < q)%Q.
Proof.
  destruct v as [q|]; simpl.
  - rewrite Qltb_lt. split; [eauto | intros (q' & [= <-] & H); exact H].
  - split; [discriminate | intros (q & [=] & _)].
Qed.

Lemma in_bbox_spec (b : bbox) (r : occurrence) :
  in_bbox b r = true ↔ strictly_inside b r.
Proof.
  unfold in_bbox, strictly_inside.
  rewrite !andb_true_iff, !cell_lt_spec, !cell_gt_spec. split.
  - intros [[[(lat & Hlat & H1) (lat' & Hlat' & H2)] (lon & Hlon & H3)]
              (lon' & Hlon' & H4)].
    rewrite Hlat in Hlat'. rewrite Hlon in Hlon'.
    injection Hlat' as <-. injection Hlon' as <-.
    exists lat, lon. tauto.
  - intros (lat & lon & Hlat & Hlon & H1 & H2 & H3 & H4).
    repeat split; eauto.
Qed.

Lemma on_edge_not_inside (b : bbox) (r : occurrence) :
  on_edge b r → ¬ strictly_inside b r.
Proof.
  intros Hedge (lat & lon & Hlat & Hlon & H1 & H2 & H3 & H4).
  destruct Hedge as [(l & Hl & He) | (l & Hl & He)].
  - rewrite Hlat in Hl. injection Hl as <-.
    destruct He as [He | He]; rewrite He in *;
      eapply Qlt_irrefl; eassumption.
  - rewrite Hlon in Hl. injection Hl as <-.
    destruct He as [He | He]; rewrite He in *;
      eapply Qlt_irrefl; eassumption.
Qed.


(** ** The slope computation *)

Section SlopeFacts.
Local Open Scope R_scope.

Lemma pixel_imap2 {A B} (f : nat → nat → A → B) (a : list (list A)) i j :
  pixel (imap (fun i row => imap (fun j x => f i j x) row) a) i j
  = f i j <$> pixel a i j.
Proof.
  unfold pixel. rewrite list_lookup_imap.
  destruct (a !! i) as [row|]; simpl; [| reflexivity].
  apply list_lookup_imap.
Qed.

Lemma pixel_map2 {A B} (f : A → B) (a : list (list A)) i j :
  pixel (map (map f) a) i j = f <$> pixel a i j.
Proof.
  unfold pixel. rewrite list_lookup_fmap.
  destruct (a !! i) as [row|]; simpl; [| reflexivity].
  apply list_lookup_fmap.
Qed.

Lemma pixel_zip_with2 {A B C} (f : A → B → C) (a : list (list A))
    (b : list (list B)) i j :
  pixel (zip_with (zip_with f) a b) i j
  = (x ← pixel a i j; y ← pixel b i j; Some (f x y)).
Proof.
  unfold pixel. rewrite lookup_zip_with.
  destruct (a !! i) as [ra|]; simpl; [| reflexivity].
  destruct (b !! i) as [rb|]; simpl.
  - rewrite lookup_zip_with. reflexivity.
  - destruct (ra !! j); reflexivity.
Qed.

(** The output of [convolve] has a pixel exactly where the input has one. *)
Lemma convolve_pixel (dem : ndarray2) (k : kernel) i j :
  pixel (convolve dem k) i j
  = (fun _ => correlate_at true dem (rev (map (@rev Z) k)) i j)
      <$> pixel dem i j.
Proof. unfold convolve, correlate_or_convolve. apply pixel_imap2. Qed.

Ltac shift_index n :=
  repeat match goal with
  | |- context [(Z.of_nat n + ?u - ?c)%Z] =>
      let d := eval compute in (c - u)%Z in
      replace (Z.of_nat n + u - c)%Z with (Z.of_nat n - d)%Z by lia
  end.

Ltac eval_kernel :=
  repeat match goal with
  | |- context [kernel_entry ?k ?a ?b] =>
      let v := eval vm_compute in (kernel_entry k a b) in
      change (kernel_entry k a b) with v
  end.

(** scipy's reversed-kernel correlation is the textbook convolution. *)
Lemma convolve_is_convolution3 (dem : ndarray2) (k : kernel) (i j : nat) :
  k = dx_kernel ∨ k = dy_kernel →
  correlate_at true dem (rev (map (@rev Z) k)) i j
  = convolution3 k dem (Z.of_nat i) (Z.of_nat j).
Proof.
  intros [-> | ->]; unfold correlate_at, convolution3, centre;
    cbn -[pix IZR Z.of_nat Z.add Z.sub kernel_entry];
    change (Z.of_nat 0) with 0%Z; change (Z.of_nat 1) with 1%Z;
    change (Z.of_nat 2) with 2%Z;
    shift_index i; shift_index j; eval_kernel; lra.
Qed.

(** One pixel of the slope, with the two gradients still as [fval]. *)
Lemma slope_pct_pixel (dem : ndarray2) (resolution : R) i j :
  pixel (slope_pct dem resolution) i j
  = (fun _ =>
       let dx := fdiv (convolution3 dx_kernel dem (Z.of_nat i) (Z.of_nat j))
                      (8 * resolution) in
       let dy := fdiv (convolution3 dy_kernel dem (Z.of_nat i) (Z.of_nat j))
                      (8 * resolution) in
       fscale (fsqrt (fadd (fsquare dx) (fsquare dy))) 100)
      <$> pixel dem i j.
Proof.
  unfold slope_pct. rewrite pixel_zip_with2, !pixel_map2, !convolve_pixel.
  rewrite !convolve_is_convolution3 by auto.
  destruct (pixel dem i j); reflexivity.
Qed.

Lemma fdiv_nonzero (x d : R) : d ≠ 0 → fdiv x d = Fin (x / d).
Proof. intros Hd. unfold fdiv. destruct (Req_dec_T d 0); [contradiction | reflexivity]. Qed.

Lemma fsqrt_sum_squares (a b : R) :
  fsqrt (fadd (fsquare (Fin a)) (fsquare (Fin b))) = Fin (sqrt (a * a + b * b)).
Proof.
  simpl. destruct (Rlt_dec (a * a + b * b) 0) as [Hneg|]; [| reflexivity].
  exfalso. nra.
Qed.


(** Evaluates the closed index arithmetic of a convolution over a
    concrete image. *)
Ltac eval_convolution :=
  unfold convolution3, Rsum, pix, at2, nrows, ncols;
  cbn [map list_prod app fold_right fst snd length hd]; eval_kernel;
  repeat match goal with
  | |- context [reflect ?n ?z] =>
      let v := eval vm_compute in (reflect n z) in
      change (reflect n z) with v
  end;
  cbn [nth].


(** [slope_pct] returns an array of the shape of its input. *)
Lemma slope_pct_shape (dem : ndarray2) (resolution : R) (i j : nat) :
  is_Some (pixel (slope_pct dem resolution) i j) ↔ is_Some (pixel dem i j).
Proof. rewrite slope_pct_pixel. apply fmap_is_Some. Qed.



(** With a zero resolution nothing is raised, but no value is finite: a
    pixel is +infinity where both convolutions are nonzero and NaN where
    one of them is zero. *)
Lemma slope_pct_zero_resolution (dem : ndarray2) (i j : nat) (e : R) :
  pixel dem i j = Some e →
  let cx := convolution3 dx_kernel dem (Z.of_nat i) (Z.of_nat j) in
  let cy := convolution3 dy_kernel dem (Z.of_nat i) (Z.of_nat j) in
  (cx ≠ 0 ∧ cy ≠ 0 → pixel (slope_pct dem 0) i j = Some PInf) ∧
  (cx = 0 ∨ cy = 0 → pixel (slope_pct dem 0) i j = Some NaN).
Proof.
  intros He cx cy. rewrite slope_pct_pixel, He. simpl fmap. cbv zeta.
  fold cx cy. unfold fdiv.
  destruct (Req_dec_T (8 * 0) 0) as [_ | Hne]; [| exfalso; lra].
  split.
  - intros [Hx Hy].
    destruct (Req_dec_T cx 0); [contradiction |].
    destruct (Req_dec_T cy 0); [contradiction |].
    destruct (Rlt_dec 0 cx), (Rlt_dec 0 cy); simpl;
      (destruct (Req_dec_T 100 0); [exfalso; lra |]);
      (destruct (Rlt_dec 0 100); [reflexivity | exfalso; lra]).
  - intros Hz.
    destruct (Req_dec_T cx 0), (Req_dec_T cy 0);
      try (exfalso; tauto); simpl; try reflexivity;
      destruct (Rlt_dec 0 cx); destruct (Rlt_dec 0 cy); reflexivity.
Qed.


End SlopeFacts.

(** ** Stacking the predictor bands *)

Lemma dim_size_band (spatial : list string) (k : nat) (t : list nat) :
  dim_size ("band"%string :: spatial) (k :: t) "band" = Some k.
Proof. reflexivity. Qed.

(** The length of a spatial axis does not depend on the number of bands. *)
Lemma dim_size_spatial (spatial : list string) (k k' : nat) (t : list nat)
    (name : string) :
  name ≠ "band"%string →
  dim_size ("band"%string :: spatial) (k :: t) name
  = dim_size ("band"%string :: spatial) (k' :: t) name.
Proof.
  intros Hne. unfold dim_size. simpl.
  destruct (decide ("band"%string = name)) as [Heq | _]; [congruence |].
  destruct (list_find (λ d, d = name) spatial) as [[i d]|]; reflexivity.
Qed.

Lemma valid_DataArray_inv (d : DataArray) :
  valid_DataArray d →
  length (dims d) = length (shape (values d))
  ∧ dim_size (dims d) (shape (values d)) "band" = Some (length (band d))
  ∧ dim_size (dims d) (shape (values d)) "x" = Some (length (x d))
  ∧ dim_size (dims d) (shape (values d)) "y" = Some (length (y d)).
Proof.
  unfold valid_DataArray, xr_DataArray.
  case_decide as H; [intros _; exact H | discriminate].
Qed.

(** A valid array with the band axis first has one slice per band. *)
Lemma band_first_shape (d : DataArray) :
  valid_DataArray d → band_first d →
  shape (values d) = length (band d) :: tail (shape (values d)).
Proof.
  intros Hv [spatial Hd]. apply valid_DataArray_inv in Hv as (Hlen & Hb & _).
  rewrite Hd in Hlen, Hb.
  destruct (shape (values d)) as [|k t]; [discriminate |].
  rewrite dim_size_band in Hb. injection Hb as ->. reflexivity.
Qed.

(** The loop after its first iteration: every further dataset adds its
    bands and its values at the end and leaves the coordinates alone. *)
Lemma cpi_loop_invariant (t : list nat) (rest : list DataArray) :
  ∀ (i : nat) (l : cpi_locals),
    Forall valid_DataArray rest →
    Forall band_first rest →
    Forall (fun d => tail (shape (values d)) = t) rest →
    shape (combined_values l) = length (combined_bands l) :: t →
    ∃ l',
      cpi_loop (S i) rest (Some l) = Ok (Some l')
      ∧ combined_bands l' = combined_bands l ++ concat (band <$> rest)
      ∧ flat (combined_values l')
        = flat (combined_values l) ++ concat ((flat ∘ values) <$> rest)
      ∧ shape (combined_values l') = length (combined_bands l') :: t
      ∧ x_coords l' = x_coords l ∧ y_coords l' = y_coords l
      ∧ dims_ l' = dims_ l.
Proof.
  induction rest as [|d rest IH]; intros i l Hvalid Hband Hshape Hl.
  - exists l. simpl. rewrite !app_nil_r. auto 10.
  - apply Forall_cons in Hvalid as [Hv Hvalid].
    apply Forall_cons in Hband as [Hb Hband].
    apply Forall_cons in Hshape as [Hs Hshape].
    pose proof (band_first_shape d Hv Hb) as Hd. rewrite Hs in Hd.
    cbn [cpi_loop Nat.eqb]. unfold concatenate. rewrite Hl, Hd.
    rewrite decide_True by reflexivity. cbn [mbind result_bind].
    set (l1 := {| combined_values := _ |}).
    destruct (IH (S i) l1) as (l' & Hrun & Hbands & Hflat & Hshp & Hx & Hy & Hdims);
      [assumption.. | |].
    { subst l1. cbn. rewrite length_app. reflexivity. }
    exists l'. subst l1. cbn in Hrun, Hbands, Hflat, Hx, Hy, Hdims.
    split; [exact Hrun |].
    split; [rewrite Hbands, <- app_assoc; reflexivity |].
    split; [rewrite Hflat, <- app_assoc; reflexivity |].
    auto.
Qed.

(** C8. For a non-empty list of valid datasets with the band axis first
    that share their spatial dimensions, [create_predictor_image] returns
    an array whose band coordinate is the concatenation of the inputs' band
    coordinates in list order (so it has as many bands as the inputs have
    together), whose values are the inputs' values one after the other, and
    whose x and y coordinates are those of the first dataset; for the empty
    list it fails on the unbound variable [combined_values]. *)
Theorem create_predictor_image_bands (d0 : DataArray) (rest : list DataArray) :
  Forall valid_DataArray (d0 :: rest) →
  Forall band_first (d0 :: rest) →
  Forall (same_spatial_dims d0) rest →
  create_predictor_image [] = Raise (UnboundLocalError "combined_values")
  ∧ ∃ img,
      create_predictor_image (d0 :: rest) = Ok img
      ∧ band img = concat (band <$> d0 :: rest)
      ∧ length (band img) = sum_list ((length ∘ band) <$> d0 :: rest)
      ∧ flat (values img) = concat ((flat ∘ values) <$> d0 :: rest)
      ∧ x img = x d0 ∧ y img = y d0 ∧ dims img = dims d0.
Proof.
  intros Hvalid Hband Hshape. split; [reflexivity |].
  apply Forall_cons in Hvalid as [Hv0 Hvalid].
  apply Forall_cons in Hband as [Hb0 Hband].
  pose proof (band_first_shape d0 Hv0 Hb0) as Hd0.
  set (l0 := {| combined_values := values d0; combined_bands := band d0;
                x_coords := x d0; y_coords := y d0; dims_ := dims d0 |}).
  destruct (cpi_loop_invariant (tail (shape (values d0))) rest 0 l0)
    as (l' & Hrun & Hbands & Hflat & Hshp & Hx & Hy & Hdims);
    [assumption.. | exact Hd0 |].
  unfold create_predictor_image. cbn [cpi_loop Nat.eqb mbind result_bind].
  fold l0. rewrite Hrun. cbn [mbind result_bind].
  subst l0. cbn in Hbands, Hflat, Hx, Hy, Hdims.
  apply valid_DataArray_inv in Hv0 as (Hlen0 & _ & Hx0 & Hy0).
  destruct Hb0 as [spatial Hdims0].
  unfold xr_DataArray. rewrite decide_True.
  - eexists. split; [reflexivity |]. cbn.
    rewrite Hbands, Hflat, Hx, Hy, Hdims. repeat split; try reflexivity.
    rewrite length_app, length_concat, <- list_fmap_compose. reflexivity.
  - rewrite Hshp, Hdims, Hx, Hy, Hdims0. rewrite Hd0, Hdims0 in Hlen0, Hx0, Hy0.
    split; [exact Hlen0 |]. split; [apply dim_size_band |].
    split.
    + rewrite <- Hx0. apply dim_size_spatial. discriminate.
    + rewrite <- Hy0. apply dim_size_spatial. discriminate.
Qed.

Lemma create_predictor_image_bands_witness :
  ∃ img,
    create_predictor_image [sample_elevation; sample_gradient] = Ok img
    ∧ band img = ["elevation"; "gradient"]%string
    ∧ x img = x sample_elevation.
Proof.
  destruct (create_predictor_image_bands sample_elevation [sample_gradient])
    as (_ & img & Hrun & Hband & _ & _ & Hx & _).
  - repeat constructor.
  - repeat constructor; eexists; reflexivity.
  - repeat constructor.
  - exists img. auto.
Defined.

(** ** The spatial join *)

Lemma nearest_scan_spec (target : Q) (post : list Q) :
  ∀ (pre : list Q) (best : nat) (cbest : Q),
    pre !! best = Some cbest →
    (∀ j c', pre !! j = Some c' → (Qdist cbest target <= Qdist c' target)%Q) →
    nearest (pre ++ post) target
            (nearest_scan target best cbest (length pre) post).
Proof.
  induction post as [|c rest IH]; intros pre best cbest Hbest Hmin.
  - simpl. rewrite app_nil_r. exists cbest. split; assumption.
  - cbn [nearest_scan].
    replace (pre ++ c :: rest) with ((pre ++ [c]) ++ rest)
      by (rewrite <- app_assoc; reflexivity).
    replace (S (length pre)) with (length (pre ++ [c]))
      by (rewrite length_app; simpl; lia).
    destruct (Qltb (Qdist c target) (Qdist cbest target)
              || Qeq_bool (Qdist c target) (Qdist cbest target)
                 && Qltb cbest c) eqn:Hbetter.
    + assert (Hle : (Qdist c target <= Qdist cbest target)%Q).
      { apply orb_true_iff in Hbetter as [Hlt | Heq].
        - apply Qlt_le_weak, Qltb_lt, Hlt.
        - apply andb_true_iff in Heq as [Heq _].
          apply Qeq_bool_iff in Heq. rewrite Heq. apply Qle_refl. }
      apply IH.
      * rewrite lookup_app_r by lia. rewrite Nat.sub_diag. reflexivity.
      * intros j c' Hj. apply lookup_snoc_Some in Hj as [[_ Hj] | [_ <-]].
        -- eapply Qle_trans; [exact Hle | eauto].
        -- apply Qle_refl.
    + apply orb_false_iff in Hbetter as [Hnlt _].
      assert (Hle : (Qdist cbest target <= Qdist c target)%Q).
      { apply Qnot_lt_le. intros Hlt. apply Qltb_lt in Hlt. congruence. }
      apply IH.
      * apply lookup_app_l_Some. exact Hbest.
      * intros j c' Hj. apply lookup_snoc_Some in Hj as [[_ Hj] | [_ <-]];
          [eauto | exact Hle].
Qed.

(** On a regular grid the selector returns a position, and the label at
    that position is nearest to the target. *)
Lemma get_indexer_nearest_spec (labels : list Q) (target : Q) :
  regular_grid labels →
  ∃ i, get_indexer_nearest labels target = Ok i ∧ nearest labels target i.
Proof.
  intros [Hne Hmono]. destruct labels as [|c0 rest]; [contradiction |].
  unfold get_indexer_nearest. rewrite Hmono. eexists. split; [reflexivity |].
  apply (nearest_scan_spec target rest [c0] 0%nat c0); [reflexivity |].
  intros [|j] c' Hj; simpl in Hj; [| discriminate].
  injection Hj as <-. apply Qle_refl.
Qed.

Lemma length_pixel_values (img : DataArray) (iy ix : nat) :
  length (pixel_values img iy ix) = length (band img).
Proof. unfold pixel_values. rewrite length_fmap, length_seq. reflexivity. Qed.

(** One iteration of the loop: the row holds the values of a nearest
    pixel and the key of the point. *)
Lemma point_features_spec (img : DataArray) (p : frog) :
  regular_grid (x img) → regular_grid (y img) → length (band img) ≠ 1%nat →
  ∃ ix iy,
    nearest (x img) (decimalLongitude p) ix
    ∧ nearest (y img) (decimalLatitude p) iy
    ∧ point_features img p
      = Ok {| f_columns := band img;
              f_values := pixel_values img iy ix;
              f_key := Some (inject_Z (key p)) |}.
Proof.
  intros Hx Hy Hk.
  destruct (get_indexer_nearest_spec (x img) (decimalLongitude p) Hx)
    as (ix & Hix & Hnx).
  destruct (get_indexer_nearest_spec (y img) (decimalLatitude p) Hy)
    as (iy & Hiy & Hny).
  exists ix, iy. split; [exact Hnx |]. split; [exact Hny |].
  unfold point_features, sel_nearest. rewrite Hix, Hiy.
  cbn [mbind result_bind].
  assert (Hsq : squeeze (array1 (pixel_values img iy ix))
                = array1 (pixel_values img iy ix)).
  { unfold squeeze, array1. cbn [shape flat List.filter].
    rewrite length_pixel_values.
    destruct (Nat.eqb_spec (length (band img)) 1); [contradiction |].
    reflexivity. }
  rewrite Hsq. unfold concatenate, array1. cbn [shape flat].
  rewrite decide_True by reflexivity. cbn [mbind result_bind flat].
  rewrite decide_True; [reflexivity |].
  rewrite !length_app, length_pixel_values. reflexivity.
Qed.

(** The loop appends one row per point, in the order of the points. *)
Lemma join_loop_spec (img : DataArray) (F : frog → feature_row)
    (points : list frog) :
  ∀ acc,
    Forall (fun p => point_features img p = Ok (F p)) points →
    join_loop img points acc = Ok (acc ++ (F <$> points)).
Proof.
  induction points as [|p rest IH]; intros acc Hall.
  - simpl. rewrite app_nil_r. reflexivity.
  - apply Forall_cons in Hall as [Hp Hall]. cbn [join_loop]. rewrite Hp.
    cbn [mbind result_bind]. rewrite IH by assumption.
    rewrite <- app_assoc. reflexivity.
Qed.

Lemma key_matches_inject (k k' : Z) :
  key_matches k (Some (inject_Z k')) = true ↔ k = k'.
Proof.
  unfold key_matches. rewrite Qeq_bool_iff. apply inject_Z_injective.
Qed.

(** No row carries a key that no point has. *)
Lemma filter_key_absent (F : frog → feature_row) (k : Z) (points : list frog) :
  (∀ p, f_key (F p) = Some (inject_Z (key p))) →
  k ∉ key <$> points →
  List.filter (fun r => key_matches k (f_key r)) (F <$> points) = [].
Proof.
  intros HF. induction points as [|p rest IH]; intros Hk; [reflexivity |].
  rewrite fmap_cons in Hk. apply not_elem_of_cons in Hk as [Hne Hk].
  cbn. rewrite HF.
  destruct (key_matches k (Some (inject_Z (key p)))) eqn:Hm.
  - apply key_matches_inject in Hm. contradiction.
  - apply IH, Hk.
Qed.

(** With distinct keys a point matches its own row and no other. *)
Lemma filter_key_unique (F : frog → feature_row) (points : list frog) :
  (∀ p, f_key (F p) = Some (inject_Z (key p))) →
  NoDup (key <$> points) →
  ∀ p, p ∈ points →
    List.filter (fun r => key_matches (key p) (f_key r)) (F <$> points) = [F p].
Proof.
  intros HF. induction points as [|q rest IH]; intros Hnd p Hin.
  - inversion Hin.
  - rewrite fmap_cons in Hnd. apply NoDup_cons in Hnd as [Hq Hnd].
    cbn. rewrite HF. apply elem_of_cons in Hin as [-> | Hin].
    + rewrite (proj2 (key_matches_inject (key q) (key q)) eq_refl).
      rewrite filter_key_absent by assumption. reflexivity.
    + destruct (key_matches (key p) (Some (inject_Z (key q)))) eqn:Hm.
      * apply key_matches_inject in Hm. exfalso. apply Hq. rewrite <- Hm.
        apply list_elem_of_fmap. exists p. auto.
      * apply IH; assumption.
Qed.

Lemma bind_singleton {A B} (h : A → B) (l : list A) :
  l ≫= (fun a => [h a]) = h <$> l.
Proof. induction l as [|a l IH]; [reflexivity |]. cbn. rewrite IH. reflexivity. Qed.

(** The inner merge on distinct keys gives every point its own row. *)
Lemma merge_on_key_distinct (F : frog → feature_row) (points : list frog) :
  (∀ p, f_key (F p) = Some (inject_Z (key p))) →
  NoDup (key <$> points) →
  merge_on_key points (F <$> points)
  = (fun p => {| j_point := p; j_columns := f_columns (F p);
                 j_values := f_values (F p) |}) <$> points.
Proof.
  intros HF Hnd. unfold merge_on_key.
  etrans; [| apply bind_singleton].
  apply Forall_bind_ext, Forall_forall. intros p Hin.
  rewrite (filter_key_unique F points HF Hnd p Hin). reflexivity.
Qed.



(** A label that is strictly farther than another one is not nearest. *)
Lemma nearest_not_farther (labels : list Q) (target : Q) (i j : nat) (c c' : Q) :
  labels !! i = Some c → labels !! j = Some c' →
  (Qdist c' target < Qdist c target)%Q → ¬ nearest labels target i.
Proof.
  intros Hi Hj Hlt (c0 & Hi' & Hmin). rewrite Hi in Hi'. injection Hi' as <-.
  apply (Qlt_not_le _ _ Hlt), (Hmin j c' Hj).
Qed.


(** X11. On a one-band image the loop body fails at its first point:
    [np.squeeze] turns the one-element array into a zero-dimensional one,
    which [np.concatenate] rejects, so [join_features] raises ValueError
    instead of joining the single band. *)
Lemma join_features_single_band (p : frog) (rest : list frog) (img : DataArray) :
  regular_grid (x img) → regular_grid (y img) →
  length (band img) = 1%nat →
  join_features (p :: rest) img
  = Raise (ValueError "zero-dimensional arrays cannot be concatenated").
Proof.
  intros Hx Hy Hk.
  destruct (get_indexer_nearest_spec (x img) (decimalLongitude p) Hx)
    as (ix & Hix & _).
  destruct (get_indexer_nearest_spec (y img) (decimalLatitude p) Hy)
    as (iy & Hiy & _).
  unfold join_features. cbn [join_loop]. unfold point_features, sel_nearest.
  rewrite Hix, Hiy. cbn [mbind result_bind].
  unfold squeeze, array1, concatenate. cbn [shape flat List.filter].
  rewrite length_pixel_values, Hk. reflexivity.
Qed.

(** ** GeoTIFF band order *)

Section GeoTIFFFacts.
Context {A : Type}.
Implicit Types (dst : GTiff A) (arr img : raster A) (data : band_stack A).

Lemma write_band_ok dst k arr :
  1 ≤ k ≤ tiff_count dst →
  has_shape (tiff_height dst) (tiff_width dst) arr →
  write_band dst k arr
  = Ok {| tiff_width := tiff_width dst; tiff_height := tiff_height dst;
          tiff_count := tiff_count dst;
          tiff_bands := <[k := arr]> (tiff_bands dst);
          tiff_descriptions := tiff_descriptions dst |}.
Proof.
  intros Hk Hs. unfold write_band.
  rewrite decide_True by exact Hk. rewrite decide_True by exact Hs.
  reflexivity.
Qed.

(** Rows of one common length give the array the shape that the export
    cells compute from another array with the same rows. *)
Lemma uniform_rows_shape (L : nat) (a b : list (list A)) :
  Forall (fun row => length row = L) a →
  Forall (fun row => length row = L) b →
  length b = length a →
  has_shape (length a) (length (hd [] a)) b.
Proof.
  intros Ha Hb Hlen. split; [exact Hlen |].
  destruct a as [|r a'].
  - destruct b; [constructor | discriminate].
  - apply Forall_cons in Ha as [Hr _]. simpl. rewrite Hr. exact Hb.
Qed.

Lemma clip_rows (L r0 r1 c0 c1 : nat) (a : list (list A)) :
  Forall (fun row => length row = L) a →
  Forall (fun row => length row = (c1 - c0) `min` (L - c0))
         (clip r0 r1 c0 c1 a).
Proof.
  intros Ha. unfold clip. apply Forall_fmap.
  apply Forall_take, Forall_drop.
  eapply Forall_impl; [exact Ha |].
  intros row Hrow. simpl. rewrite length_take, length_drop, Hrow. reflexivity.
Qed.

Lemma clip_length (r0 r1 c0 c1 : nat) (a : list (list A)) :
  length (clip r0 r1 c0 c1 a) = (r1 - r0) `min` (length a - r0).
Proof. unfold clip. rewrite length_fmap, length_take, length_drop. reflexivity. Qed.

(** The DEM export writes exactly two bands when both layers have the
    same rows. *)
Lemma dem_export_bands (L : nat) (elevation slope : raster A) :
  Forall (fun row => length row = L) elevation →
  Forall (fun row => length row = L) slope →
  length slope = length elevation →
  ∃ dst,
    dem_export elevation slope = Ok dst
    ∧ tiff_count dst = 2
    ∧ tiff_bands dst = <[2 := slope]> (<[1 := elevation]> ∅).
Proof.
  intros He Hs Hlen. unfold dem_export.
  rewrite write_band_ok; cbn [rasterio_open tiff_count tiff_height tiff_width];
    [| lia | apply (uniform_rows_shape L); auto].
  cbn [mbind result_bind].
  rewrite write_band_ok; cbn [tiff_count tiff_height tiff_width];
    [| lia | apply (uniform_rows_shape L); auto].
  eexists. split; [reflexivity |]. split; reflexivity.
Qed.

Lemma sel_band_unique data (name : string) img :
  NoDup (fst <$> data) → (name, img) ∈ data → sel_band data name = Ok img.
Proof.
  intros Hnd Hin. unfold sel_band.
  assert (Hf : List.filter (fun b => bool_decide (b.1 = name)) data
               = [(name, img)]); [| rewrite Hf; reflexivity].
  induction data as [|[n r] data IH]; [inversion Hin |].
  rewrite fmap_cons in Hnd. apply NoDup_cons in Hnd as [Hn Hnd].
  cbn [List.filter fst]. apply elem_of_cons in Hin as [[= <- <-] | Hin].
  - rewrite bool_decide_eq_true_2 by reflexivity. f_equal.
    clear IH. induction data as [|[n' r'] data IH]; [reflexivity |].
    rewrite fmap_cons in Hn, Hnd. apply not_elem_of_cons in Hn as [Hne Hn].
    apply NoDup_cons in Hnd as [_ Hnd]. cbn [List.filter fst].
    rewrite bool_decide_eq_false_2 by (simpl in Hne; congruence).
    apply IH; assumption.
  - rewrite bool_decide_eq_false_2; [apply IH; assumption |].
    simpl. intros ->. apply Hn. apply list_elem_of_fmap.
    exists (name, img). auto.
Qed.

(** Writing the slices in sequence succeeds and keeps the dimensions
    and the descriptions of the dataset. *)
Lemma write_from_ok (slices : list (raster A)) :
  ∀ dst i,
    1 ≤ i → i + length slices ≤ S (tiff_count dst) →
    Forall (has_shape (tiff_height dst) (tiff_width dst)) slices →
    ∃ dst',
      write_from dst i slices = Ok dst'
      ∧ tiff_count dst' = tiff_count dst
      ∧ tiff_height dst' = tiff_height dst
      ∧ tiff_width dst' = tiff_width dst
      ∧ tiff_descriptions dst' = tiff_descriptions dst.
Proof.
  induction slices as [|arr rest IH]; intros dst i Hi Hn Hs.
  - exists dst. auto.
  - apply Forall_cons in Hs as [Harr Hs]. simpl in Hn.
    cbn [write_from]. rewrite write_band_ok by (auto; lia).
    cbn [mbind result_bind].
    match goal with
    | |- context [write_from ?d (S i) rest] =>
        destruct (IH d (S i)) as (dst' & Hrun & Hc & Hh & Hw & Hd);
          [| | exact Hs |]; cbn [tiff_count]; [lia | lia |]
    end.
    exists dst'. auto.
Qed.

(** The loop over the assets: asset [j] of the remaining list ends up
    in band [i + j + 1], with its name as description; the bands up to
    [i] are left as they were. *)
Lemma write_assets_spec data (assets : list string) :
  ∀ dst i,
    i + length assets ≤ tiff_count dst →
    (∀ a, a ∈ assets →
       ∃ img, sel_band data a = Ok img
              ∧ has_shape (tiff_height dst) (tiff_width dst) img) →
    ∃ dst',
      write_assets data dst i assets = Ok dst'
      ∧ tiff_count dst' = tiff_count dst
      ∧ (∀ j a, assets !! j = Some a →
           ∃ img, sel_band data a = Ok img
                  ∧ tiff_bands dst' !! (i + j + 1) = Some img
                  ∧ tiff_descriptions dst' !! (i + j + 1) = Some a)
      ∧ (∀ k, k ≤ i →
           tiff_bands dst' !! k = tiff_bands dst !! k
           ∧ tiff_descriptions dst' !! k = tiff_descriptions dst !! k).
Proof.
  induction assets as [|a rest IH]; intros dst i Hn Hsel.
  - exists dst. split; [reflexivity |]. split; [reflexivity |].
    split; [intros j a' Hj; discriminate | auto].
  - simpl in Hn.
    destruct (Hsel a) as (img & Himg & Hshape); [left |].
    cbn [write_assets]. rewrite Himg. cbn [mbind result_bind].
    rewrite write_band_ok by (auto; lia). cbn [mbind result_bind].
    unfold set_band_description. cbn [tiff_count].
    rewrite decide_True by lia. cbn [mbind result_bind].
    match goal with
    | |- context [write_assets data ?d (S i) rest] =>
        destruct (IH d (S i)) as (dst' & Hrun & Hc & Hnew & Hold);
          [| | rewrite Hrun]; cbn [tiff_count tiff_height tiff_width]
    end.
    { lia. }
    { intros a' Ha'. apply Hsel. right. exact Ha'. }
    cbn [tiff_bands tiff_descriptions] in Hold.
    exists dst'. split; [reflexivity |]. split; [exact Hc |]. split.
    + intros [|j] a' Hj.
      * injection Hj as <-. exists img. split; [exact Himg |].
        destruct (Hold (i + 1)) as [Hb Hd]; [lia |].
        replace (i + 0 + 1) with (i + 1) by lia.
        rewrite Hb, Hd, !lookup_insert_eq. auto.
      * destruct (Hnew j a' Hj) as (img' & Hs' & Hb & Hd).
        exists img'. replace (i + S j + 1) with (S i + j + 1) by lia. auto.
    + intros k Hk. destruct (Hold k) as [Hb Hd]; [lia |].
      rewrite Hb, Hd, !lookup_insert_ne by lia. auto.
Qed.

(** The surface-water export writes asset [i] of the list as band
    [i + 1]. *)
Lemma jrc_export_bands data (cog_assets : list string) :
  stack_cube data →
  length data = length cog_assets →
  "occurrence"%string ∈ fst <$> data →
  (∀ a, a ∈ cog_assets → a ∈ fst <$> data) →
  ∃ dst,
    jrc_export data cog_assets = Ok dst
    ∧ tiff_count dst = length cog_assets
    ∧ ∀ i a, cog_assets !! i = Some a →
        ∃ img, (a, img) ∈ data
               ∧ tiff_bands dst !! (i + 1) = Some img
               ∧ tiff_descriptions dst !! (i + 1) = Some a.
Proof.
  intros [Hnd (h & w & Hcube)] Hlen Hocc Hassets.
  assert (Hfind : ∀ a, a ∈ fst <$> data →
            ∃ img, (a, img) ∈ data ∧ sel_band data a = Ok img
                   ∧ has_shape h w img).
  { intros a Ha. apply list_elem_of_fmap in Ha as ([a' img] & -> & Hin).
    exists img. split; [exact Hin |]. split; [apply sel_band_unique; auto |].
    rewrite Forall_forall in Hcube. apply (Hcube _ Hin). }
  destruct (Hfind _ Hocc) as (occ & _ & Hsel_occ & Hocc_shape).
  assert (Hshape : ∀ r : raster A, has_shape h w r →
            has_shape (length occ) (length (hd [] occ)) r).
  { intros r [Hr1 Hr2]. destruct Hocc_shape as [Ho1 Ho2].
    apply (uniform_rows_shape w); auto. congruence. }
  unfold jrc_export. rewrite Hsel_occ. cbn [mbind result_bind].
  unfold write_all. cbn [rasterio_open tiff_count].
  rewrite decide_True by (rewrite length_fmap; exact Hlen).
  match goal with
  | |- context [write_from ?d 1 (snd <$> data)] =>
      destruct (write_from_ok (snd <$> data) d 1)
        as (dst1 & Hrun1 & Hc1 & Hh1 & Hw1 & _);
        [| | | rewrite Hrun1];
        cbn [rasterio_open tiff_count tiff_height tiff_width]
  end.
  { lia. }
  { rewrite length_fmap. lia. }
  { apply Forall_fmap. eapply Forall_impl; [exact Hcube |].
    intros b Hb. apply Hshape, Hb. }
  cbn [mbind result_bind].
  cbn [rasterio_open tiff_count tiff_height tiff_width] in Hc1, Hh1, Hw1.
  destruct (write_assets_spec data cog_assets dst1 0)
    as (dst & Hrun & Hc & Hnew & _).
  { rewrite Hc1. lia. }
  { intros a Ha. destruct (Hfind a (Hassets a Ha)) as (img & _ & Hs & Hsh).
    exists img. split; [exact Hs |]. rewrite Hh1, Hw1. apply Hshape, Hsh. }
  exists dst. split; [exact Hrun |]. split; [congruence |].
  intros i a Hi. destruct (Hnew i a Hi) as (img & Hs & Hb & Hd).
  destruct (Hfind a) as (img' & Hin & Hs' & _).
  { apply Hassets. eapply list_elem_of_lookup_2. exact Hi. }
  rewrite Hs in Hs'. injection Hs' as <-.
  exists img. auto.
Qed.

End GeoTIFFFacts.

(** The slope has the rows of the elevation. *)
Lemma slope_pct_rows (L : nat) (dem : ndarray2) (resolution : R) :
  Forall (fun row => length row = L) dem →
  length (slope_pct dem resolution) = length dem
  ∧ Forall (fun row => length row = L) (slope_pct dem resolution).
Proof.
  intros Hdem. unfold slope_pct, convolve, correlate_or_convolve. split.
  - rewrite length_zip_with, !length_map, !length_imap. lia.
  - apply Forall_lookup. intros i row Hrow.
    rewrite lookup_zip_with in Hrow.
    change (@map (list R) (list fval)) with (@fmap list _ (list R) (list fval)) in Hrow.
    rewrite !list_lookup_fmap, !list_lookup_imap in Hrow.
    match type of Hrow with
    | context [@lookup ?K ?V ?M ?I i dem] =>
        destruct (@lookup K V M I i dem) as [drow|] eqn:Hd
    end;
      cbn [fmap option_fmap option_map mbind option_bind] in Hrow;
      [| discriminate].
    injection Hrow as <-.
    rewrite length_zip_with, !length_map, !length_imap.
    rewrite Forall_lookup in Hdem. rewrite (Hdem i drow Hd). lia.
Qed.

(** The DEM notebook writes exactly two bands: the clipped elevation as
    band 1 and the clipped slope as band 2. *)
Lemma dem_notebook_bands (data_elevation : ndarray2) (r0 r1 c0 c1 : nat) :
  rectangular data_elevation →
  ∃ dst,
    dem_notebook data_elevation r0 r1 c0 c1 = Ok dst
    ∧ tiff_count dst = 2
    ∧ tiff_bands dst
      = <[2 := clip r0 r1 c0 c1 (slope_pct data_elevation 30)]>
          (<[1 := clip r0 r1 c0 c1 (map (map Fin) data_elevation)]> ∅).
Proof.
  intros Hrect. unfold dem_notebook.
  set (L := length (hd [] data_elevation)).
  destruct (slope_pct_rows L data_elevation 30 Hrect) as [Hlen Hrows].
  apply (dem_export_bands ((c1 - c0) `min` (L - c0))).
  - apply clip_rows. apply Forall_lookup. intros i row Hrow.
    change (@map (list R) (list fval)) with (@fmap list _ (list R) (list fval)) in Hrow.
    rewrite list_lookup_fmap in Hrow.
    match type of Hrow with
    | context [@lookup ?K ?V ?M ?I i data_elevation] =>
        destruct (@lookup K V M I i data_elevation) as [drow|] eqn:Hd
    end; [| discriminate].
    injection Hrow as <-. rewrite length_map.
    unfold rectangular in Hrect. rewrite Forall_lookup in Hrect.
    apply (Hrect i drow Hd).
  - apply clip_rows, Hrows.
  - rewrite !clip_length, Hlen, length_map. reflexivity.
Qed.



(** ** The extraction loop *)

Lemma getitem_signed (t : nat) (d : list (string * asset)) (k : string) (a : asset) :
  getitem d k = Ok a →
  getitem ((fun ka : string * asset =>
              (ka.1, {| href := sign_url t (href ka.2);
                        media_type := media_type ka.2 |})) <$> d) k
  = Ok {| href := sign_url t (href a); media_type := media_type a |}.
Proof.
  unfold getitem. induction d as [|[k' a'] d IH]; [discriminate |].
  cbn. destruct (decide (k' = k)) as [-> | Hne].
  - cbn. intros [= ->]. reflexivity.
  - intros H. cbn in *.
    destruct (list_find (λ kv : string * asset, kv.1 = k) d) as [[n kv]|];
      destruct (list_find _ (_ <$> d)) as [[n' kv']|];
      cbn in *; try discriminate; auto.
Qed.

(** Runs the sequencing and the primitive operations of a program. *)
Ltac run_program :=
  repeat (progress (unfold mbind, M_bind, mret, M_ret, call, lift,
                      get_globals, set_globals, try_except;
                    cbn [fst snd clock trace globals]; cbv beta iota)).

(** What one attempt on partition [i] does when the read fails and when
    it succeeds. *)
Lemma take_partition_run (sv : services) (i : nat) (w : world frogs_notebook) :
  take_partition sv i w
  = match read_partition sv (clock w) (df_href (df (globals w))) i with
    | Ok rows =>
        (Ok (),
         {| clock := S (clock w);
            trace := trace w ++ [ReadPartition (df_href (df (globals w))) i];
            globals :=
              {| gbif_items := gbif_items (globals w);
                 nb_bbox := nb_bbox (globals w);
                 df := df (globals w);
                 frogs := frogs (globals w)
                          ++ bbox_filter (nb_bbox (globals w)) (query_anura rows) |} |})
    | Raise e =>
        (Raise e,
         {| clock := S (clock w);
            trace := trace w ++ [ReadPartition (df_href (df (globals w))) i];
            globals := globals w |})
    end.
Proof.
  unfold take_partition, compute_partition. run_program.
  destruct (read_partition sv (clock w) (df_href (df (globals w))) i);
    reflexivity.
Qed.

(** C4. When the computation of a selected partition raises an exception,
    whichever it is, the loop body re-signs the dataset once and tries the
    same partition once more, with the new handle.  If the second attempt
    succeeds its records are appended to those accumulated before; if it
    raises too, that exception leaves the loop unhandled.  In both cases
    the records accumulated from earlier partitions are untouched. *)
Theorem extraction_retries_once (sv : services) (i : nat)
    (w : world frogs_notebook) (e : exn) (it : item) (a : asset) :
  selected sv i = true →
  first (gbif_items (globals w)) = Ok it →
  getitem (assets it) "data" = Ok a →
  read_partition sv (clock w) (df_href (df (globals w))) i = Raise e →
  let d' := {| df_href := sign_url (S (clock w)) (href a) |} in
  let outcome := extraction_body sv i w in
  trace outcome.2
  = trace w ++ [ReadPartition (df_href (df (globals w))) i;
                SignRequest (item_id it);
                ReadPartition (df_href d') i]
  ∧ df (globals outcome.2) = d'
  ∧ match read_partition sv (S (S (clock w))) (df_href d') i with
    | Ok rows =>
        outcome.1 = Ok ()
        ∧ frogs (globals outcome.2)
          = frogs (globals w)
            ++ bbox_filter (nb_bbox (globals w)) (query_anura rows)
    | Raise e' =>
        outcome.1 = Raise e'
        ∧ frogs (globals outcome.2) = frogs (globals w)
    end.
Proof.
  intros Hsel Hit Ha Hfail d' outcome. subst outcome.
  unfold extraction_body. rewrite Hsel. unfold try_except.
  rewrite take_partition_run, Hfail.
  unfold resign_planetary_computer, sign_item. run_program.
  rewrite Hit. run_program. cbn [assets item_id].
  rewrite (getitem_signed _ _ _ _ Ha). run_program.
  rewrite take_partition_run. cbn [clock trace globals df df_href href frogs nb_bbox].
  subst d'. cbn [df_href].
  destruct (read_partition sv (S (S (clock w)))
              (sign_url (S (clock w)) (href a)) i) as [rows | e'];
    cbn [fst snd trace globals df frogs]; rewrite <- !app_assoc; auto.
Qed.

Lemma extraction_retries_once_witness :
  trace (extraction_body sample_services 0 sample_world).2
  = [ReadPartition (sign_url 0 (href sample_gbif_asset)) 0;
     SignRequest "gbif-2021-04-13";
     ReadPartition (sign_url 6 (href sample_gbif_asset)) 0]
  ∧ length (frogs (globals (extraction_body sample_services 0 sample_world).2))
    = 1%nat.
Proof.
  destruct (extraction_retries_once sample_services 0 sample_world
              (HTTPError 403) sample_gbif_item sample_gbif_asset)
    as (Htrace & _ & Hretry); [reflexivity.. |].
  split; [exact Htrace |].
  match type of Hretry with
  | match ?r with _ => _ end =>
      let v := eval vm_compute in r in change r with v in Hretry
  end.
  cbv beta iota in Hretry. destruct Hretry as [_ Hfrogs].
  rewrite Hfrogs. reflexivity.
Defined.

(** A loop keeps what its body keeps. *)
Lemma for_each_preserves {G A} (R : relation (world G))
    (body : A → M G ()) (l : list A) :
  (∀ w, R w w) → (∀ w1 w2 w3, R w1 w2 → R w2 w3 → R w1 w3) →
  (∀ a w, R w (body a w).2) → ∀ w, R w (for_each l body w).2.
Proof.
  intros Hrefl Htrans Hbody. induction l as [|a l IH]; intros w.
  - apply Hrefl.
  - cbn [for_each]. unfold mbind, M_bind.
    specialize (Hbody a w). destruct (body a w) as [[[]|e] w'];
      cbn [snd] in *; [| exact Hbody].
    eapply Htrans; [exact Hbody | apply IH].
Qed.

(** Records are only ever appended: whatever happens in an iteration,
    the records accumulated before it are still there, in front. *)
Lemma extraction_body_keeps_records (sv : services) (i : nat)
    (w : world frogs_notebook) :
  frogs (globals w) `prefix_of` frogs (globals (extraction_body sv i w).2).
Proof.
  unfold extraction_body. destruct (selected sv i); [| reflexivity].
  unfold try_except. rewrite take_partition_run.
  destruct (read_partition sv (clock w) (df_href (df (globals w))) i);
    cbn [snd globals frogs]; [apply prefix_app_r; reflexivity |].
  unfold resign_planetary_computer, sign_item. run_program.
  destruct (first (gbif_items (globals w))) as [it|]; [| reflexivity].
  run_program.
  destruct (getitem _ "data") as [a|]; [| reflexivity].
  run_program. rewrite take_partition_run.
  cbn [clock trace globals df df_href frogs nb_bbox].
  destruct (read_partition sv _ _ i); cbn [snd globals frogs];
    [apply prefix_app_r |]; reflexivity.
Qed.

Lemma extraction_keeps_records (sv : services) (w : world frogs_notebook) :
  frogs (globals w) `prefix_of` frogs (globals (extraction sv w).2).
Proof.
  unfold extraction.
  apply (for_each_preserves
           (fun w1 w2 => frogs (globals w1) `prefix_of` frogs (globals w2))).
  - intros w'. reflexivity.
  - intros w1 w2 w3 H12 H23. etrans; eassumption.
  - intros i w'. apply extraction_body_keeps_records.
Qed.

(** ** Paging through the occurrence search *)

Lemma pages_from_more (n offset : nat) :
  offset + 300 < n → pages_from n offset = S (pages_from n (offset + 300)).
Proof.
  intros H. unfold pages_from.
  replace (n - offset + 299) with ((n - (offset + 300) + 299) + 1 * 300) by lia.
  rewrite Nat.div_add by lia. lia.
Qed.

Lemma pages_from_last (n offset : nat) :
  offset < n → n ≤ offset + 300 → pages_from n offset = 1.
Proof.
  intros H1 H2. unfold pages_from. symmetry.
  apply (Nat.div_unique _ _ _ (n - offset - 1)); lia.
Qed.

(** With enough fuel the loop ends, having asked for the pages at
    [offset], [offset + 300], ... and collected every record from
    [offset] on, in order. *)
Lemma get_frogs_loop_pages {G} (sv : services) (b : bbox)
    (matching : list gbif_record) :
  paged_server sv b matching →
  ∀ (fuel offset : nat) (acc : list (Q * Q)) (w : world G),
    offset < length matching →
    pages_from (length matching) offset ≤ fuel →
    get_frogs_loop sv fuel b 300 offset acc w
    = (Ok (Some (acc ++ ((fun r => (gbif_latitude r, gbif_longitude r))
                          <$> drop offset matching))),
       {| clock := clock w + pages_from (length matching) offset;
          trace := trace w ++ page_requests (length matching) offset;
          globals := globals w |}).
Proof.
  intros Hsrv. induction fuel as [|fuel IH]; intros offset acc w Hoff Hfuel.
  - exfalso. unfold pages_from in Hfuel.
    assert (1 ≤ (length matching - offset + 299) / 300); [| lia].
    apply Nat.div_le_lower_bound; lia.
  - cbn [get_frogs_loop]. run_program. rewrite Hsrv. cbn [results endOfRecords].
    assert (Hpage : take 300 (drop offset matching) ≠ []).
    { intros Hnil. apply (f_equal length) in Hnil.
      rewrite length_take, length_drop in Hnil. cbn [length] in Hnil. lia. }
    unfold results_frame.
    destruct (take 300 (drop offset matching)) as [|r page] eqn:Hp;
      [contradiction |]. rewrite <- Hp. clear Hpage r page Hp.
    run_program. rewrite ?Hsrv. cbn [endOfRecords]. case_bool_decide as Hend.
    + rewrite (pages_from_last _ _ Hoff Hend).
      rewrite take_ge by (rewrite length_drop; lia).
      unfold page_requests. rewrite (pages_from_last _ _ Hoff Hend).
      cbn. rewrite Nat.add_0_r, Nat.add_1_r. reflexivity.
    + rewrite IH; cbn [clock trace globals]; [| lia |].
      * rewrite (pages_from_more (length matching) offset) by lia.
        unfold page_requests at 2.
        rewrite (pages_from_more (length matching) offset) by lia.
        rewrite <- cons_seq, fmap_cons, <- fmap_S_seq, <- list_fmap_compose.
        f_equal; [| f_equal].
        -- rewrite <- app_assoc, <- fmap_app.
           rewrite <- drop_drop, take_drop. reflexivity.
        -- lia.
        -- rewrite <- app_assoc. f_equal. cbn [app]. f_equal.
           ++ f_equal. lia.
           ++ unfold page_requests. apply list_fmap_ext.
              intros j k _. cbn. f_equal. lia.
      * rewrite (pages_from_more (length matching) offset) in Hfuel by lia. lia.
Qed.

(** C3 (as amended). The records [get_frogs] returns come from the REST
    occurrence search, page by page: against a server that pages
    faithfully through a non-empty list of matching records, and given
    enough iterations, it asks for the pages at offsets 0, 300, 600, ...
    with limit 300, makes no other remote call, and returns every matching
    record once, in order. *)
Theorem get_frogs_paged {G} (sv : services) (b : bbox)
    (matching : list gbif_record) (fuel : nat) (w : world G) :
  paged_server sv b matching →
  matching ≠ [] →
  pages_from (length matching) 0 ≤ fuel →
  (get_frogs sv fuel b w).1
  = Ok (Some ((fun r => to_sighting (gbif_latitude r, gbif_longitude r))
                <$> matching))
  ∧ trace (get_frogs sv fuel b w).2
    = trace w
      ++ ((fun k => RestGet (k * 300) 300)
            <$> seq 0 (pages_from (length matching) 0)).
Proof.
  intros Hsrv Hne Hfuel. unfold get_frogs. unfold mbind, M_bind.
  rewrite (get_frogs_loop_pages sv b matching Hsrv);
    [| destruct matching; [contradiction | simpl; lia] | exact Hfuel].
  unfold mret, M_ret.
  cbn [fst snd trace fmap option_fmap option_map app drop]. split.
  - rewrite <- list_fmap_compose. reflexivity.
  - unfold page_requests. reflexivity.
Qed.

Lemma get_frogs_paged_witness :
  (get_frogs sample_services 3 richmond fresh).1
  = Ok (Some ((fun r => to_sighting (gbif_latitude r, gbif_longitude r))
                <$> sample_matching))
  ∧ trace (get_frogs sample_services 3 richmond fresh).2
    = [RestGet 0 300; RestGet 300 300; RestGet 600 300].
Proof.
  destruct (get_frogs_paged sample_services richmond sample_matching 3 fresh)
    as [Hout Htrace].
  - intros offset limit. reflexivity.
  - discriminate.
  - vm_compute. lia.
  - split; [exact Hout | exact Htrace].
Defined.

(** The extraction loop of the planetary-computer notebook makes no REST
    request at all. *)
Lemma extraction_no_rest_request (sv : services) (w : world frogs_notebook) :
  rest_requests (trace (extraction sv w).2) = rest_requests (trace w).
Proof.
  unfold extraction.
  apply (for_each_preserves
           (fun w1 w2 => rest_requests (trace w2) = rest_requests (trace w1))).
  - reflexivity.
  - intros w1 w2 w3 H12 H23. congruence.
  - intros i w'. unfold extraction_body, rest_requests.
    destruct (selected sv i); [| reflexivity].
    unfold try_except. rewrite take_partition_run.
    destruct (read_partition sv (clock w') (df_href (df (globals w'))) i);
      cbn [snd trace]; [rewrite List.filter_app, app_nil_r; reflexivity |].
    unfold resign_planetary_computer, sign_item. run_program.
    destruct (first (gbif_items (globals w'))) as [it|]; run_program;
      [| rewrite List.filter_app, app_nil_r; reflexivity].
    destruct (getitem _ "data") as [a|]; run_program;
      [| rewrite !List.filter_app, !app_nil_r; reflexivity].
    rewrite take_partition_run.
    destruct (read_partition sv _ _ i); cbn [snd trace];
      rewrite !List.filter_app, !app_nil_r; reflexivity.
Qed.

(** C3 (as stated) fails: the records of the planetary-computer notebook
    are read from the partitions of a parquet dataset; a run that collects
    a record makes no REST request. *)
Lemma extraction_reads_partitions_not_rest :
  (extraction sample_services sample_world).1 = Ok ()
  ∧ length (frogs (globals (extraction sample_services sample_world).2)) = 1%nat
  ∧ rest_requests (trace (extraction sample_services sample_world).2) = []
  ∧ ReadPartition (sign_url 6 (href sample_gbif_asset)) 0
    ∈ trace (extraction sample_services sample_world).2.
Proof.
  split; [vm_compute; reflexivity |]. split; [vm_compute; reflexivity |].
  split; [apply (extraction_no_rest_request sample_services sample_world) |].
  vm_compute. set_solver.
Qed.

(** ** Which assets are opened *)

Section OpensOnly.
Context {G : Type}.
Implicit Types (P : url → Prop) (w : world G).

Lemma opens_only_ret {A} P (Post : A → Prop) (a : A) :
  Post a → opens_only (G := G) P Post (mret a).
Proof. intros Ha w. split; [auto |]. intros a' [= <-]. exact Ha. Qed.

Lemma opens_only_lift {A} P (Post : A → Prop) (r : result A) :
  (∀ a, r = Ok a → Post a) → opens_only (G := G) P Post (lift r).
Proof. intros Hr w. split; [auto | exact Hr]. Qed.

Lemma opened_urls_snoc (tr : list event) (e : event) (u : url) :
  u ∈ opened_urls (tr ++ [e]) → u ∈ opened_urls tr ∨ e = OpenAsset u.
Proof.
  unfold opened_urls. rewrite omap_app, elem_of_app.
  intros [H | H]; [left; exact H | right].
  destruct e; cbn in H; try (inversion H; fail).
  apply list_elem_of_singleton in H. congruence.
Qed.

Lemma opens_only_call P (e : event) :
  (∀ u, e = OpenAsset u → P u) →
  opens_only (G := G) P (fun _ => True) (call e).
Proof.
  intros He w. split; [| auto]. intros u Hu. cbn in Hu.
  apply opened_urls_snoc in Hu as [Hu | Hu]; [left; exact Hu | right; auto].
Qed.

Lemma opens_only_bind {A B} P (Post1 : A → Prop) (Post2 : B → Prop)
    (m : M G A) (k : A → M G B) :
  opens_only P Post1 m →
  (∀ a, Post1 a → opens_only P Post2 (k a)) →
  opens_only P Post2 (m ≫= k).
Proof.
  intros Hm Hk w. unfold mbind, M_bind.
  destruct (Hm w) as [Hm1 Hm2]. destruct (m w) as [[a|e] w1]; cbn [fst snd] in *.
  - destruct (Hk a (Hm2 a eq_refl) w1) as [Hk1 Hk2]. split; [| exact Hk2].
    intros u Hu. destruct (Hk1 u Hu) as [Hu1 | HP]; auto.
  - split; [exact Hm1 | discriminate].
Qed.

Lemma opens_only_weaken {A} P (Post Post' : A → Prop) (m : M G A) :
  opens_only P Post m → (∀ a, Post a → Post' a) → opens_only P Post' m.
Proof.
  intros Hm Himp w. destruct (Hm w) as [H1 H2]. split; [exact H1 | auto].
Qed.

Lemma opens_only_for_list {A B} P (Q : A → B → Prop) (f : A → M G B)
    (l : list A) :
  (∀ a, a ∈ l → opens_only P (Q a) (f a)) →
  opens_only P (fun bs => Forall2 Q l bs) (for_list l f).
Proof.
  induction l as [|a l IH]; intros Hf.
  - apply opens_only_ret. constructor.
  - cbn [for_list]. eapply opens_only_bind; [apply Hf; left |].
    intros b0 Hb0. eapply opens_only_bind.
    + apply IH. intros a' Ha'. apply Hf. right. exact Ha'.
    + intros bs Hbs. apply opens_only_ret. constructor; assumption.
Qed.

Lemma opens_only_for_each {A} P (body : A → M G ()) (l : list A) :
  (∀ a, a ∈ l → opens_only P (fun _ => True) (body a)) →
  opens_only P (fun _ => True) (for_each l body).
Proof.
  induction l as [|a l IH]; intros Hf.
  - apply opens_only_ret. exact I.
  - cbn [for_each]. eapply opens_only_bind; [apply Hf; left |].
    intros _ _. apply IH. intros a' Ha'. apply Hf. right. exact Ha'.
Qed.

(** Signing opens nothing and attaches one token to every asset. *)
Lemma sign_item_spec P (it : item) :
  opens_only (G := G) P
    (fun s => ∀ k a', (k, a') ∈ assets s →
                ∃ a t, (k, a) ∈ assets it ∧ href a' = sign_url t (href a))
    (sign_item it).
Proof.
  unfold sign_item. eapply opens_only_bind.
  - apply opens_only_call. discriminate.
  - intros t _. apply opens_only_ret. cbn [assets]. intros k a' Hin.
    apply list_elem_of_fmap in Hin as ([k0 a] & [= -> ->] & Hin).
    exists a, t. split; [exact Hin | reflexivity].
Qed.

Lemma sign_asset_spec P (a : asset) :
  opens_only (G := G) P
    (fun s => ∃ t, href s = sign_url t (href a)) (sign_asset a).
Proof.
  unfold sign_asset. eapply opens_only_bind.
  - apply opens_only_call. discriminate.
  - intros t _. apply opens_only_ret. exists t. reflexivity.
Qed.

Lemma stac_search_spec P (sv : services) (q : search_query) :
  opens_only (G := G) P (fun items => items = catalog sv q) (stac_search sv q).
Proof.
  unfold stac_search. eapply opens_only_bind.
  - apply opens_only_call. discriminate.
  - intros _ _. apply opens_only_ret. reflexivity.
Qed.

Lemma getitem_elem_of {V} (d : list (string * V)) (k : string) (v : V) :
  getitem d k = Ok v → (k, v) ∈ d.
Proof.
  unfold getitem.
  destruct (list_find (λ kv : string * V, kv.1 = k) d) as [[n [k' v']]|] eqn:Hf;
    [| discriminate].
  intros [= <-]. apply list_find_Some in Hf as (Hn & Hk & _). cbn in Hk.
  subst k'. eapply list_elem_of_lookup_2. exact Hn.
Qed.

(** The stack opens assets of the items it is given, and nothing else. *)
Lemma stackstac_stack_spec (sv : services) (items : list item)
    (sel : asset_selector) (b : bbox) (scale : Q) :
  opens_only (G := G)
    (fun u => ∃ it k a, it ∈ items ∧ (k, a) ∈ assets it ∧ u = href a)
    (fun _ => True)
    (stackstac_stack sv items sel b scale).
Proof.
  unfold stackstac_stack. destruct items as [|it0 rest] eqn:Hitems.
  - apply opens_only_lift. discriminate.
  - rewrite <- Hitems. clear Hitems.
    eapply opens_only_weaken; [| intros; exact I].
    apply (opens_only_for_list _ (fun _ _ => True)). intros it Hit.
    eapply opens_only_weaken; [| intros; exact I].
    apply (opens_only_for_list _ (fun _ _ => True)). intros k _.
    unfold stack_band.
    destruct (list_find (λ ka : string * asset, ka.1 = k) (assets it))
      as [[n [k' a]]|] eqn:Hf.
    + apply list_find_Some in Hf as (Hn & Hk & _). cbn in Hk. subst k'.
      eapply opens_only_bind.
      * apply opens_only_call. intros u [= <-]. exists it, k, a.
        split; [exact Hit |]. split; [| reflexivity].
        eapply list_elem_of_lookup_2. exact Hn.
      * intros _ _. apply opens_only_ret. exact I.
    + apply opens_only_ret. exact I.
Qed.

(** Stacking items that were found by a search and then signed opens
    only signed assets of that search. *)
Lemma signed_stack_spec (sv : services) (q : search_query)
    (signed : list item) (sel : asset_selector) (b : bbox) (scale : Q) :
  Forall2 (fun it s => ∀ k a', (k, a') ∈ assets s →
             ∃ a t, (k, a) ∈ assets it ∧ href a' = sign_url t (href a))
          (catalog sv q) signed →
  opens_only (G := G) (signed_asset_of_search sv q) (fun _ => True)
    (stackstac_stack sv signed sel b scale).
Proof.
  intros Hsigned w.
  destruct (stackstac_stack_spec sv signed sel b scale w) as [Hopen _].
  split; [| intros; exact I]. intros u Hu.
  destruct (Hopen u Hu) as [Hold | (s & k & a' & Hs & Ha' & ->)];
    [left; exact Hold | right].
  apply list_elem_of_lookup in Hs as [n Hn].
  destruct (Forall2_lookup_r _ _ _ _ _ Hsigned Hn) as (it & Hit & Hrel).
  destruct (Hrel k a' Ha') as (a & t & Ha & Hhref).
  exists it, k, a, t. split; [| split; [exact Ha | exact Hhref]].
  eapply list_elem_of_lookup_2. exact Hit.
Qed.

(** [get_pc] on a product other than terraclimate opens only signed
    assets of the items found by its search. *)
Lemma get_pc_spec (sv : services) (product : string) (b : bbox)
    (sel : asset_selector) (resolution : Q) (query date_range : option string)
    (na_val : option Q) :
  product ≠ "terraclimate"%string →
  opens_only (G := G)
    (signed_asset_of_search sv (pc_query product b date_range query))
    (fun _ => True)
    (get_pc sv product b sel resolution query date_range na_val).
Proof.
  intros Hne. unfold get_pc. rewrite decide_False by exact Hne.
  eapply opens_only_bind; [apply stac_search_spec |].
  intros items ->. eapply opens_only_bind.
  { apply opens_only_for_list. intros it _. apply sign_item_spec. }
  intros signed Hsigned. cbv beta in Hsigned.
  eapply (opens_only_bind _ (fun _ => True)).
  - apply signed_stack_spec, Hsigned.
  - intros data _. apply opens_only_ret. exact I.
Qed.

(** The Sentinel-2 notebook does the same with its own query. *)
Lemma sentinel2_load_spec (sv : services) (b : bbox) :
  opens_only (G := G) (signed_asset_of_search sv (sentinel2_query b))
    (fun _ => True) (sentinel2_load sv b).
Proof.
  unfold sentinel2_load. fold (sentinel2_query b).
  eapply opens_only_bind; [apply stac_search_spec |].
  intros items ->. eapply opens_only_bind.
  { apply opens_only_for_list. intros it _. apply sign_item_spec. }
  intros signed Hsigned. cbv beta in Hsigned.
  eapply (opens_only_bind _ (fun _ => True)).
  - apply signed_stack_spec, Hsigned.
  - intros data _. apply opens_only_ret. exact I.
Qed.

(** The land-cover notebook opens the signed tiles of its search, and the
    'data' asset of the first tile through an href it signs first. *)
Lemma land_cover_load_spec (sv : services) (b : bbox) :
  opens_only (G := G) (signed_asset_of_search sv (land_cover_query b))
    (fun _ => True) (land_cover_load sv b).
Proof.
  unfold land_cover_load. fold (land_cover_query b). cbv zeta.
  eapply opens_only_bind; [apply stac_search_spec |]. intros _ _.
  eapply opens_only_bind; [apply stac_search_spec |]. intros found ->.
  eapply opens_only_bind.
  { apply (opens_only_lift _ (fun it => it ∈ catalog sv (land_cover_query b))).
    intros it Hit. unfold next in Hit.
    destruct (catalog sv _) as [|it0 rest]; [discriminate |].
    injection Hit as <-. left. }
  intros it Hit.
  eapply opens_only_bind; [apply stac_search_spec |]. intros again ->.
  eapply opens_only_bind.
  { apply opens_only_for_list. intros it' _. apply sign_item_spec. }
  intros signed Hsigned. cbv beta in Hsigned.
  eapply (opens_only_bind _ (fun _ => True)).
  { apply opens_only_lift. intros; exact I. }
  intros _ _. eapply (opens_only_bind _ (fun _ => True)).
  { apply signed_stack_spec, Hsigned. }
  intros data _. eapply opens_only_bind.
  { apply (opens_only_lift _ (fun a => ("data"%string, a) ∈ assets it)).
    intros a Ha. apply getitem_elem_of, Ha. }
  intros a Ha. eapply opens_only_bind.
  { apply opens_only_call. discriminate. }
  intros t _. eapply opens_only_bind.
  - apply opens_only_call. intros u [= <-].
    exists it, "data"%string, a, t. auto.
  - intros _ _. apply opens_only_ret. exact I.
Qed.

(** The DEM notebook opens only the signed 'data' asset of a tile found
    by its search. *)
Lemma dem_load_spec (sv : services) (b : bbox) :
  opens_only (G := G) (signed_asset_of_search sv (dem_query b))
    (fun _ => True) (dem_load sv b).
Proof.
  unfold dem_load. eapply opens_only_bind; [apply stac_search_spec |].
  intros items ->. eapply opens_only_bind.
  { apply (opens_only_lift _ (fun it => it ∈ catalog sv (dem_query b))).
    intros it Hit. unfold first in Hit. unfold dem_query.
    destruct (catalog sv _) as [|it0 rest]; [discriminate |].
    injection Hit as <-. left. }
  intros it Hit. eapply opens_only_bind.
  { apply (opens_only_lift _ (fun a => ("data"%string, a) ∈ assets it)).
    intros a Ha. apply getitem_elem_of, Ha. }
  intros a Ha. eapply opens_only_bind; [apply sign_asset_spec |].
  intros s [t Hs]. eapply opens_only_bind.
  - apply opens_only_call. intros u [= <-].
    exists it, "data"%string, a, t. auto.
  - intros _ _. apply opens_only_ret. exact I.
Qed.

End OpensOnly.

(** C7 (as amended). The DEM, land-cover and Sentinel-2 notebooks, and
    [get_pc] on every product other than terraclimate, open a raster asset
    only through a signed URL, and that URL is the signed href of an asset
    of an item returned by their catalog search for the bounding box and
    the collection. *)
Theorem raster_assets_signed {G} (sv : services) (b : bbox) (product : string)
    (sel : asset_selector) (resolution : Q) (query date_range : option string)
    (na_val : option Q) (w : world G) :
  product ≠ "terraclimate"%string →
  let from_search (q : search_query) (tr : list event) :=
    ∀ u, u ∈ opened_urls tr →
         u ∈ opened_urls (trace w)
         ∨ (signed_asset_of_search sv q u ∧ is_Some (sas_token u)) in
  from_search (dem_query b) (trace (dem_load sv b w).2)
  ∧ from_search (land_cover_query b) (trace (land_cover_load sv b w).2)
  ∧ from_search (sentinel2_query b) (trace (sentinel2_load sv b w).2)
  ∧ from_search (pc_query product b date_range query)
      (trace (get_pc sv product b sel resolution query date_range na_val w).2).
Proof.
  intros Hne from_search.
  assert (Hsigned : ∀ q u, signed_asset_of_search sv q u → is_Some (sas_token u)).
  { intros q u (it & k & a & t & _ & _ & ->). cbn. eauto. }
  assert (Hfrom : ∀ A q (m : M G A),
            opens_only (signed_asset_of_search sv q) (fun _ => True) m →
            from_search q (trace (m w).2)).
  { intros A q m Hm u Hu. destruct (Hm w) as [Hopen _].
    destruct (Hopen u Hu) as [Hold | Hnew]; [left; exact Hold | right; eauto]. }
  split; [apply Hfrom, dem_load_spec |].
  split; [apply Hfrom, land_cover_load_spec |].
  split; [apply Hfrom, sentinel2_load_spec |].
  apply Hfrom, get_pc_spec, Hne.
Qed.

Lemma raster_assets_signed_witness :
  Forall (fun u => is_Some (sas_token u))
         (opened_urls
            (trace (get_pc sample_services "jrc-gsw" richmond
                           stackstac_default_assets 10 None None
                           None fresh).2)).
Proof.
  apply Forall_forall. intros u Hu.
  destruct (raster_assets_signed sample_services richmond "jrc-gsw"
              stackstac_default_assets 10 None None None fresh)
    as (_ & _ & _ & Hpc); [discriminate |].
  destruct (Hpc u Hu) as [Hold | [_ Htok]]; [inversion Hold | exact Htok].
Defined.

(** C7 (as stated) fails twice.  The surface-water notebook takes the
    scene from the search as it is and opens its assets through unsigned
    URLs; and [get_pc] on terraclimate opens a collection-level asset that
    comes from no search and is not signed. *)
Lemma unsigned_assets_opened :
  (∃ u, u ∈ opened_urls (trace (jrc_load sample_services richmond fresh).2)
        ∧ sas_token u = None)
  ∧ (∃ u, u ∈ opened_urls
                (trace (get_pc sample_services "terraclimate" richmond
                               (ByMediaType ["image/tiff"%string]) 10 None None
                               None fresh).2)
          ∧ sas_token u = None
          ∧ ∀ q, StacSearch q
                 ∉ trace (get_pc sample_services "terraclimate" richmond
                                 (ByMediaType ["image/tiff"%string]) 10 None
                                 None None fresh).2).
Proof.
  split.
  - exists {| path := "jrc/occurrence.tif"; sas_token := None |}.
    split; [| reflexivity]. vm_compute. left.
  - exists {| path := "terraclimate.zarr"; sas_token := None |}.
    split; [vm_compute; left |]. split; [reflexivity |].
    intros q Hq. vm_compute in Hq.
    apply elem_of_cons in Hq as [[=] | Hq].
    apply list_elem_of_singleton in Hq. discriminate.
Qed.

(** ** The median composite *)

#[local] Instance Qle_transitive : Transitive Qle.
Proof. intros a b c. apply Qle_trans. Qed.

#[local] Instance Qle_total : Total Qle.
Proof.
  intros a b. destruct (Qlt_le_dec a b) as [H | H];
    [left; apply Qlt_le_weak, H | right; exact H].
Qed.

(** In a sorted list the labels grow with the positions. *)
Lemma sorted_lookup_le (s : list Q) :
  StronglySorted Qle s →
  ∀ i j a c, i ≤ j → s !! i = Some a → s !! j = Some c → (a <= c)%Q.
Proof.
  induction 1 as [|v s Hs IH Hall]; intros i j a c Hij Hi Hj; [discriminate |].
  destruct i as [|i], j as [|j]; cbn in Hi, Hj.
  - injection Hi as <-. injection Hj as <-. apply Qle_refl.
  - injection Hi as <-. rewrite Forall_forall in Hall. apply Hall.
    eapply list_elem_of_lookup_2. exact Hj.
  - lia.
  - apply (IH i j); [lia | assumption..].
Qed.

(** If the first [n] elements satisfy [P], at least [n] elements do. *)
Lemma count_take (P : Q → Prop) `{∀ v, Decision (P v)} (n : nat) (l : list Q) :
  n ≤ length l → Forall P (take n l) → n ≤ length (filter P l).
Proof.
  intros Hn Hall. rewrite <- (take_drop n l) at 1.
  rewrite filter_app, length_app.
  assert (Hf : filter P (take n l) = take n l).
  { clear Hn. induction (take n l) as [|v t IH]; [reflexivity |].
    apply Forall_cons in Hall as [Hv Hall].
    rewrite filter_cons_True by exact Hv. f_equal. apply IH, Hall. }
  rewrite Hf, length_take. lia.
Qed.

(** If all elements from position [n] on satisfy [P], at least
    [length l - n] elements do. *)
Lemma count_drop (P : Q → Prop) `{∀ v, Decision (P v)} (n : nat) (l : list Q) :
  Forall P (drop n l) → length l - n ≤ length (filter P l).
Proof.
  intros Hall. rewrite <- (take_drop n l) at 2.
  rewrite filter_app, length_app.
  assert (Hf : filter P (drop n l) = drop n l).
  { induction (drop n l) as [|v t IH]; [reflexivity |].
    apply Forall_cons in Hall as [Hv Hall].
    rewrite filter_cons_True by exact Hv. f_equal. apply IH, Hall. }
  rewrite Hf, length_drop. lia.
Qed.

(** In a sorted list, a number between the labels at [k - 1] and [k]
    has [k] labels at or below it and the others at or above it. *)
Lemma sorted_counts (s : list Q) (k : nat) (lo hi m : Q) :
  StronglySorted Qle s →
  (∀ c, s !! (k - 1)%nat = Some c → 0 < k → (c <= m)%Q) →
  (∀ c, s !! k = Some c → (m <= c)%Q) →
  k ≤ length s →
  k ≤ count_le s m ∧ length s - k ≤ count_ge s m.
Proof.
  intros Hs Hlo Hhi Hk. split.
  - apply count_take; [exact Hk |]. apply Forall_lookup. intros i a Hi.
    apply lookup_take_Some in Hi as [Hi Hik].
    destruct (s !! (k - 1)%nat) as [c|] eqn:Hc.
    + eapply Qle_trans; [| apply (Hlo c eq_refl); lia].
      apply (sorted_lookup_le s Hs i (k - 1)%nat); [lia | assumption..].
    + apply lookup_ge_None in Hc. lia.
  - apply count_drop. apply Forall_lookup. intros i a Hi.
    rewrite lookup_drop in Hi.
    destruct (s !! k) as [c|] eqn:Hc.
    + eapply Qle_trans; [apply (Hhi c eq_refl) |].
      apply (sorted_lookup_le s Hs k (k + i)%nat); [lia | assumption..].
    + apply lookup_ge_None in Hc. apply lookup_lt_Some in Hi. lia.
Qed.

Lemma count_le_Permutation (xs ys : list Q) (m : Q) :
  xs ≡ₚ ys → count_le xs m = count_le ys m ∧ count_ge xs m = count_ge ys m.
Proof.
  intros Hp. unfold count_le, count_ge. split;
    apply Permutation_length, filter_Permutation, Hp.
Qed.

Lemma midpoint_between (lo hi : Q) :
  (lo <= hi)%Q → (lo <= (lo + hi) / 2)%Q ∧ ((lo + hi) / 2 <= hi)%Q.
Proof.
  intros H. split.
  - apply Qle_shift_div_l; [reflexivity | Lqa.lra].
  - apply Qle_shift_div_r; [reflexivity | Lqa.lra].
Qed.

Lemma odd_half (n : nat) :
  Nat.odd n = true → n ≤ 2 * (n / 2 + 1) ∧ n ≤ 2 * (n - n / 2) ∧ n / 2 < n.
Proof.
  intros H. apply Nat.odd_spec in H. destruct H as [k ->].
  replace (2 * k + 1) with (1 + k * 2) by lia.
  rewrite Nat.div_add by lia. simpl. lia.
Qed.

Lemma even_half (n : nat) :
  Nat.odd n = false → n ≠ 0 → n = 2 * (n / 2) ∧ 1 ≤ n / 2.
Proof.
  intros H Hn. rewrite <- Nat.negb_even in H. apply negb_false_iff in H.
  apply Nat.even_spec in H. destruct H as [k ->].
  replace (2 * k) with (k * 2) by lia. rewrite Nat.div_mul by lia. lia.
Qed.

(** [median] returns a median of a non-empty list, and NaN for the empty
    list. *)
Lemma median_spec (xs : list Q) :
  (xs = [] ∧ median xs = None)
  ∨ (xs ≠ [] ∧ ∃ q, median xs = Some q ∧ is_median xs q).
Proof.
  pose proof (StronglySorted_merge_sort Qle xs) as Hs.
  pose proof (merge_sort_Permutation Qle xs) as Hp.
  pose proof (Permutation_length Hp) as Hlen.
  unfold median. set (s := merge_sort Qle xs) in *.
  destruct xs as [|x0 xs']; [left; split; reflexivity |].
  right. split; [discriminate |].
  set (xs := x0 :: xs') in *. set (n := length s) in *.
  assert (Hn : n ≠ 0) by (subst n; rewrite Hlen; discriminate).
  destruct (Nat.eqb_spec n 0) as [| _]; [contradiction |].
  unfold is_median.
  destruct (Nat.odd n) eqn:Hodd.
  - destruct (odd_half n Hodd) as (H1 & H2 & H3).
    destruct (lookup_lt_is_Some_2 s (n / 2)) as [c Hc]; [exact H3 |].
    exists c. split; [exact Hc |].
    destruct (sorted_counts s (S (n / 2)) c c c Hs) as [Hle _].
    { intros c' Hc' _. rewrite Nat.sub_succ, Nat.sub_0_r, Hc in Hc'.
      injection Hc' as <-. apply Qle_refl. }
    { intros c' Hc'. apply (sorted_lookup_le s Hs (n / 2) (S (n / 2)));
        [lia | assumption..]. }
    { fold n. lia. }
    destruct (sorted_counts s (n / 2) c c c Hs) as [_ Hge].
    { intros c' Hc' Hpos. apply (sorted_lookup_le s Hs (n / 2 - 1) (n / 2));
        [lia | assumption..]. }
    { intros c' Hc'. rewrite Hc in Hc'. injection Hc' as <-. apply Qle_refl. }
    { fold n. lia. }
    destruct (count_le_Permutation s xs c Hp) as [<- <-].
    rewrite <- Hlen. fold n. lia.
  - destruct (even_half n Hodd Hn) as (H1 & H2).
    destruct (lookup_lt_is_Some_2 s (n / 2 - 1)) as [lo Hlo]; [fold n; lia |].
    destruct (lookup_lt_is_Some_2 s (n / 2)) as [hi Hhi]; [fold n; lia |].
    rewrite Hlo, Hhi. cbn [mbind option_bind].
    exists ((lo + hi) / 2)%Q. split; [reflexivity |].
    assert (Hlohi : (lo <= hi)%Q).
    { apply (sorted_lookup_le s Hs (n / 2 - 1) (n / 2)); [lia | assumption..]. }
    destruct (midpoint_between lo hi Hlohi) as [Hm1 Hm2].
    destruct (sorted_counts s (n / 2) lo hi ((lo + hi) / 2)%Q Hs) as [Hle Hge].
    { intros c' Hc' _. rewrite Hlo in Hc'. injection Hc' as <-. exact Hm1. }
    { intros c' Hc'. rewrite Hhi in Hc'. injection Hc' as <-. exact Hm2. }
    { fold n. lia. }
    destruct (count_le_Permutation s xs ((lo + hi) / 2)%Q Hp) as [<- <-].
    rewrite <- Hlen. fold n. lia.
Qed.

(** The reduction of a series with NaN skipped is its median. *)
Lemma series_median_skipna (series : list cell) :
  median_skipna series (series_median true series).
Proof. unfold median_skipna, series_median. apply median_spec. Qed.

(** Every pixel of the composite is the reduction of its own series. *)
Lemma median_time_pixel (skipna : bool) (data : list (list (list (list cell))))
    (b y x : nat) (v : cell) :
  mosaic_pixel (median_time skipna data) b y x = Some v →
  v = series_median skipna (time_series data b y x).
Proof.
  unfold mosaic_pixel, median_time. destruct data as [|scene0 rest];
    [rewrite lookup_nil; discriminate |].
  rewrite list_lookup_imap.
  destruct (scene0 !! b) as [band0|]; [| discriminate]. cbn [fmap option_fmap option_map].
  unfold pixel. rewrite list_lookup_imap.
  destruct (band0 !! y) as [row0|]; [| discriminate]. cbn [fmap option_fmap option_map mbind option_bind].
  rewrite list_lookup_imap.
  destruct (row0 !! x) as [c|]; [| discriminate]. cbn [fmap option_fmap option_map].
  intros [= <-]. reflexivity.
Qed.

(** A comprehension over programs that always return always returns,
    with one value per element. *)
Lemma for_list_total {G A B} (f : A → M G B) (l : list A) :
  (∀ a w, ∃ b w', f a w = (Ok b, w')) →
  ∀ w, ∃ bs w', for_list l f w = (Ok bs, w') ∧ length bs = length l.
Proof.
  intros Hf. induction l as [|a l IH]; intros w.
  - exists [], w. split; reflexivity.
  - destruct (Hf a w) as (b0 & w1 & Hb0).
    destruct (IH w1) as (bs & w2 & Hbs & Hlen).
    exists (b0 :: bs), w2. cbn [for_list]. unfold mbind, M_bind.
    rewrite Hb0, Hbs. split; [reflexivity | cbn; lia].
Qed.

Lemma sign_item_total {G} (it : item) (w : world G) :
  ∃ s w', sign_item it w = (Ok s, w').
Proof. eexists. eexists. reflexivity. Qed.

Lemma stack_band_total {G} (sv : services) (b : bbox) (scale : Q) (it : item)
    (k : string) (w : world G) :
  ∃ r w', stack_band sv b scale it k w = (Ok r, w').
Proof.
  unfold stack_band.
  destruct (list_find (λ ka : string * asset, ka.1 = k) (assets it))
    as [[n ka]|]; eexists; eexists; reflexivity.
Qed.

(** A stack of at least one item is built, with one slice per item. *)
Lemma stackstac_stack_total {G} (sv : services) (items : list item)
    (sel : asset_selector) (b : bbox) (scale : Q) (w : world G) :
  items ≠ [] →
  ∃ stack w',
    stackstac_stack sv items sel b scale w = (Ok stack, w')
    ∧ length stack = length items.
Proof.
  intros Hne. unfold stackstac_stack.
  destruct items as [|it0 rest] eqn:Hitems; [contradiction |].
  rewrite <- Hitems. apply for_list_total. intros it w1.
  destruct (for_list_total (stack_band sv b scale it) (selected_keys sel items)
              (stack_band_total sv b scale it) w1) as (bs & w2 & Hbs & _).
  exists bs, w2. exact Hbs.
Qed.



(** The median of five readings of which one is missing: the two middle
    ones of 1, 2, 3, 8 are averaged. *)
Example series_median_even :
  series_median true [Some 3; None; Some 1; Some 8; Some 2]%Q = Some (5 # 2).
Proof. reflexivity. Qed.

(* ===================================================================== *)
(** * Part IV: further properties of the code *)
(* ===================================================================== *)

(** ** The extraction loop, as a whole *)

Lemma partition_is_frogs_in_box (b : bbox) (rows : list occurrence) :
  Forall (frog_in_box b) (bbox_filter b (query_anura rows)).
Proof.
  apply Forall_forall. intros r Hr. apply list_elem_of_In in Hr.
  unfold bbox_filter in Hr. apply filter_In in Hr as [Hq Hin].
  apply list_elem_of_In in Hq. unfold query_anura in Hq.
  apply list_elem_of_filter in Hq as [Hord _].
  split; [exact Hord | apply in_bbox_spec, Hin].
Qed.

Lemma grows_by_frogs_refl (w : world frogs_notebook) : grows_by_frogs w w.
Proof.
  split; [reflexivity |]. exists []. rewrite app_nil_r. split; [reflexivity | constructor].
Qed.

Lemma grows_by_frogs_trans (w1 w2 w3 : world frogs_notebook) :
  grows_by_frogs w1 w2 → grows_by_frogs w2 w3 → grows_by_frogs w1 w3.
Proof.
  intros [Hb1 (n1 & Hf1 & Hall1)] [Hb2 (n2 & Hf2 & Hall2)].
  split; [congruence |]. exists (n1 ++ n2).
  split; [rewrite Hf2, Hf1, app_assoc; reflexivity |].
  apply Forall_app. split; [exact Hall1 |]. rewrite <- Hb1. exact Hall2.
Qed.

(** One attempt on a partition adds the frogs of the box that the
    partition holds, or nothing. *)
Lemma take_partition_grows (sv : services) (i : nat) (w : world frogs_notebook) :
  grows_by_frogs w (take_partition sv i w).2.
Proof.
  rewrite take_partition_run.
  destruct (read_partition sv (clock w) (df_href (df (globals w))) i) as [rows|e];
    cbn [snd globals nb_bbox frogs].
  - split; [reflexivity |]. eexists. split; [reflexivity |].
    apply partition_is_frogs_in_box.
  - split; [reflexivity |]. exists []. rewrite app_nil_r.
    split; [reflexivity | constructor].
Qed.

Lemma extraction_body_grows (sv : services) (i : nat) (w : world frogs_notebook) :
  grows_by_frogs w (extraction_body sv i w).2.
Proof.
  unfold extraction_body. destruct (selected sv i); [| apply grows_by_frogs_refl].
  unfold try_except.
  pose proof (take_partition_grows sv i w) as Hfirst.
  destruct (take_partition sv i w) as [[[]|e] w1] eqn:Htake;
    cbn [snd] in *; [exact Hfirst |].
  (* the handler: in the world the failed attempt left *)
  assert (Hw1 : globals w1 = globals w).
  { rewrite take_partition_run in Htake.
    destruct (read_partition sv (clock w) (df_href (df (globals w))) i);
      [discriminate |]. injection Htake as _ <-. reflexivity. }
  unfold resign_planetary_computer, sign_item. run_program.
  destruct (first (gbif_items (globals w1))) as [it|]; [| exact Hfirst].
  run_program.
  destruct (getitem _ "data") as [a|]; [| exact Hfirst].
  run_program.
  match goal with |- grows_by_frogs _ (take_partition sv i ?w2).2 =>
    pose proof (take_partition_grows sv i w2) as Hsecond;
    apply (grows_by_frogs_trans w w2); [| exact Hsecond]
  end.
  cbn [globals nb_bbox frogs]. rewrite Hw1. split; [reflexivity |].
  exists []. rewrite app_nil_r. split; [reflexivity | constructor].
Qed.

(** X1. Whatever the blob store does, a run of the extraction loop keeps
    the records collected before it, in front and unchanged, and every
    record it adds is a frog (order Anura) lying strictly inside the
    bounding box of the notebook; the box itself is not changed. *)
Theorem extraction_collects_frogs_in_box (sv : services)
    (w : world frogs_notebook) :
  nb_bbox (globals (extraction sv w).2) = nb_bbox (globals w)
  ∧ ∃ new,
      frogs (globals (extraction sv w).2) = frogs (globals w) ++ new
      ∧ Forall (fun r => order r = "Anura"%string
                         ∧ strictly_inside (nb_bbox (globals w)) r) new.
Proof.
  unfold extraction.
  apply (for_each_preserves grows_by_frogs).
  - apply grows_by_frogs_refl.
  - apply grows_by_frogs_trans.
  - intros i w'. apply extraction_body_grows.
Qed.

(** While every read succeeds, the loop over a list of partitions reads
    the drawn ones, in order, through the handle it started with. *)
Lemma extraction_reads_run (sv : services) (d : dask_df) (l : list nat) :
  (∀ t i, ∃ rows, read_partition sv t (df_href d) i = Ok rows) →
  ∀ w, df (globals w) = d →
    (for_each l (extraction_body sv) w).1 = Ok ()
    ∧ trace (for_each l (extraction_body sv) w).2
      = trace w ++ (ReadPartition (df_href d) <$> List.filter (selected sv) l)
    ∧ df (globals (for_each l (extraction_body sv) w).2) = d.
Proof.
  intros Hread. induction l as [|i l IH]; intros w Hd.
  - cbn. rewrite app_nil_r. auto.
  - cbn [for_each List.filter]. unfold mbind, M_bind.
    remember (extraction_body sv i w) as outcome eqn:Hbody.
    unfold extraction_body in Hbody. destruct (selected sv i) eqn:Hsel.
    + unfold try_except in Hbody. rewrite take_partition_run, Hd in Hbody.
      destruct (Hread (clock w) i) as [rows Hrows]. rewrite Hrows in Hbody.
      subst outcome.
      match goal with |- context [for_each l _ ?w1] =>
        destruct (IH w1) as (Hok & Htr & Hdf); [reflexivity |]
      end.
      split; [exact Hok |]. split; [| exact Hdf].
      rewrite Htr. cbn [trace fmap list_fmap]. rewrite <- app_assoc. reflexivity.
    + subst outcome. unfold mret, M_ret. apply IH, Hd.
Qed.

(** X2. If no read of a partition through the present handle fails, the
    extraction loop ends normally, having read exactly the drawn
    partitions, each once and in increasing order, through that handle: a
    partition that was not drawn is never read, no token is requested and
    the handle is not replaced. *)
Theorem extraction_reads_drawn_partitions_once (sv : services)
    (w : world frogs_notebook) :
  (∀ t i, ∃ rows, read_partition sv t (df_href (df (globals w))) i = Ok rows) →
  (extraction sv w).1 = Ok ()
  ∧ trace (extraction sv w).2
    = trace w ++ (ReadPartition (df_href (df (globals w)))
                    <$> List.filter (selected sv) (seq 0 (gbif_npartitions sv)))
  ∧ df (globals (extraction sv w).2) = df (globals w).
Proof.
  intros Hread. unfold extraction.
  apply (extraction_reads_run sv (df (globals w))); [exact Hread | reflexivity].
Qed.

Lemma extraction_reads_drawn_partitions_once_witness :
  (extraction reliable_services sample_world).1 = Ok ()
  ∧ trace (extraction reliable_services sample_world).2
    = [ReadPartition (sign_url 0 (href sample_gbif_asset)) 0;
       ReadPartition (sign_url 0 (href sample_gbif_asset)) 2]
  ∧ df (globals (extraction reliable_services sample_world).2)
    = {| df_href := sign_url 0 (href sample_gbif_asset) |}.
Proof.
  apply (extraction_reads_drawn_partitions_once reliable_services sample_world).
  intros t i. exists sample_partition. reflexivity.
Defined.

(** ** The occurrence search at its edges *)

(** X3. For a region in which the search finds no sighting, [get_frogs]
    does not return an empty table: the first page has no results, the
    frame built from it has no coordinate columns, and selecting them
    raises KeyError after that one request. *)
Theorem get_frogs_no_sighting_raises {G} (sv : services) (b : bbox)
    (fuel : nat) (w : world G) :
  results (gbif_search sv b 0 300) = [] →
  get_frogs sv (S fuel) b w
  = (Raise (KeyError "decimalLatitude"),
     {| clock := S (clock w); trace := trace w ++ [RestGet 0 300];
        globals := globals w |}).
Proof.
  intros Hempty. unfold get_frogs. cbn [get_frogs_loop]. run_program.
  rewrite Hempty. reflexivity.
Qed.

Lemma get_frogs_no_sighting_raises_witness :
  get_frogs empty_services 5 richmond fresh
  = (Raise (KeyError "decimalLatitude"),
     {| clock := 1; trace := [RestGet 0 300]; globals := () |}).
Proof.
  apply (get_frogs_no_sighting_raises empty_services richmond 4 fresh).
  reflexivity.
Defined.

Lemma get_frogs_loop_endless {G} (sv : services) (b : bbox) :
  (∀ offset, results (gbif_search sv b offset 300) ≠ []
             ∧ endOfRecords (gbif_search sv b offset 300) = false) →
  ∀ (fuel offset : nat) (acc : list (Q * Q)) (w : world G),
    (get_frogs_loop sv fuel b 300 offset acc w).1 = Ok None
    ∧ trace (get_frogs_loop sv fuel b 300 offset acc w).2
      = trace w ++ ((fun k => RestGet (offset + k * 300) 300) <$> seq 0 fuel).
Proof.
  intros Hsrv. induction fuel as [|fuel IH]; intros offset acc w.
  - cbn. rewrite app_nil_r. auto.
  - cbn [get_frogs_loop]. run_program.
    destruct (Hsrv offset) as [Hres Hend]. unfold results_frame.
    destruct (results (gbif_search sv b offset 300)) as [|r page] eqn:Hp;
      [contradiction |]. run_program. rewrite Hend.
    match goal with |- context [get_frogs_loop sv fuel b 300 ?o ?a ?w1] =>
      destruct (IH o a w1) as [Hout Htr]
    end.
    split; [exact Hout |]. rewrite Htr. cbn [trace].
    rewrite <- app_assoc. f_equal. cbn [app seq fmap list_fmap].
    f_equal; [f_equal; lia |].
    rewrite <- fmap_S_seq, <- list_fmap_compose.
    apply list_fmap_ext. intros j k _. cbn. f_equal. lia.
Qed.

(** X4. The paging loop of [get_frogs] ends on the flag [endOfRecords]
    alone; the total the server reports is read and not used.  Against a
    server that never sets the flag the loop does not end: however many
    iterations it is given it has not returned, and it has asked for one
    page per iteration, at offsets 0, 300, 600, ... *)
Theorem get_frogs_ends_on_flag_only {G} (sv : services) (b : bbox)
    (fuel : nat) (w : world G) :
  (∀ offset, results (gbif_search sv b offset 300) ≠ []
             ∧ endOfRecords (gbif_search sv b offset 300) = false) →
  (get_frogs sv fuel b w).1 = Ok None
  ∧ trace (get_frogs sv fuel b w).2
    = trace w ++ ((fun k => RestGet (k * 300) 300) <$> seq 0 fuel).
Proof.
  intros Hsrv. unfold get_frogs. unfold mbind, M_bind.
  destruct (get_frogs_loop_endless sv b Hsrv fuel 0 [] w) as [Hout Htr].
  destruct (get_frogs_loop sv fuel b 300 0 [] w) as [[r|e] w1];
    cbn [fst snd] in *; [| discriminate].
  injection Hout as ->. split; [reflexivity | exact Htr].
Qed.

Lemma get_frogs_ends_on_flag_only_witness :
  (get_frogs endless_services 4 richmond fresh).1 = Ok None
  ∧ trace (get_frogs endless_services 4 richmond fresh).2
    = [RestGet 0 300; RestGet 300 300; RestGet 600 300; RestGet 900 300].
Proof.
  apply (get_frogs_ends_on_flag_only endless_services richmond 4 fresh).
  intros offset. split; [discriminate | reflexivity].
Defined.

(** ** [get_pc] at its edges *)

(** X5. When the catalog search of [get_pc] finds no scene for a product
    other than terraclimate, the function does not return an empty
    mosaic: stacking the empty list of items raises ValueError, after the
    search and before anything is signed or opened. *)
Theorem get_pc_no_scene_raises {G} (sv : services) (product : string)
    (b : bbox) (sel : asset_selector) (resolution : Q)
    (query date_range : option string) (na_val : option Q) (w : world G) :
  product ≠ "terraclimate"%string →
  catalog sv (pc_query product b date_range query) = [] →
  get_pc sv product b sel resolution query date_range na_val w
  = (Raise (ValueError "No items"),
     {| clock := S (clock w);
        trace := trace w ++ [StacSearch (pc_query product b date_range query)];
        globals := globals w |}).
Proof.
  intros Hne Hnone. unfold get_pc. rewrite decide_False by exact Hne.
  fold (pc_query product b date_range query).
  unfold stac_search. run_program. rewrite Hnone. reflexivity.
Qed.

Lemma get_pc_no_scene_raises_witness :
  get_pc empty_services "jrc-gsw" richmond stackstac_default_assets 10
         None None None fresh
  = (Raise (ValueError "No items"),
     {| clock := 1;
        trace := [StacSearch (pc_query "jrc-gsw" richmond None None)];
        globals := () |}).
Proof.
  apply (get_pc_no_scene_raises empty_services "jrc-gsw" richmond
           stackstac_default_assets 10 None None None fresh);
    [discriminate | reflexivity].
Defined.

Lemma imap_lookup_id {A} (f : nat → A → A) (l : list A) :
  (∀ i a, l !! i = Some a → f i a = a) → imap f l = l.
Proof.
  intros Hf. apply list_eq. intros i. rewrite list_lookup_imap.
  destruct (l !! i) as [a|] eqn:Hi; [| reflexivity].
  cbn. f_equal. apply Hf, Hi.
Qed.

(** The median of a series of one reading is that reading. *)
Lemma series_median_singleton (c : cell) : series_median true [c] = c.
Proof. destruct c as [q|]; reflexivity. Qed.

(** The median over time of a stack of one scene is that scene. *)
Lemma median_time_single_scene (scene : list (raster cell)) :
  median_time true [scene] = scene.
Proof.
  unfold median_time. apply imap_lookup_id. intros bnd band0 Hb.
  apply imap_lookup_id. intros y row0 Hy.
  apply imap_lookup_id. intros x c Hx.
  assert (Hseries : time_series [scene] bnd y x = [c]);
    [| rewrite Hseries; apply series_median_singleton].
  unfold time_series. cbn [fmap list_fmap]. f_equal.
  refine (eq_trans (f_equal (fun o => match o with
                                      | Some band => default None (pixel band y x)
                                      | None => None
                                      end) Hb) _).
  unfold pixel.
  refine (eq_trans (f_equal (fun o => default None (o ≫= (.!! x))) Hy) _).
  cbn [mbind option_bind].
  exact (f_equal (default None) Hx).
Qed.

Lemma where_ne_single_scene (v : Q) (scene : list (raster cell)) :
  where_ne v [scene] = [mask_na (Some v) scene].
Proof. reflexivity. Qed.

(** X6. When the search of [get_pc] finds exactly one scene, compositing
    changes nothing: the mosaic is that scene as it was read from its
    signed assets, with the no-data value (if one is given) replaced by
    NaN. *)
Theorem get_pc_single_scene {G} (sv : services) (product : string)
    (b : bbox) (sel : asset_selector) (resolution : Q)
    (query date_range : option string) (na_val : option Q) (w : world G)
    (it : item) :
  product ≠ "terraclimate"%string →
  catalog sv (pc_query product b date_range query) = [it] →
  ∃ signed w1 scene w2,
    sign_item it (stac_search sv (pc_query product b date_range query) w).2
    = (Ok signed, w1)
    ∧ stackstac_stack sv [signed] sel b (resolution / 111320)%Q w1
      = (Ok [scene], w2)
    ∧ get_pc sv product b sel resolution query date_range na_val w
      = (Ok (Mosaic (mask_na na_val scene)), w2).
Proof.
  intros Hne Hone. set (q := pc_query product b date_range query) in *.
  destruct (sign_item_total it (stac_search sv q w).2) as (signed & w1 & Hsign).
  destruct (stackstac_stack_total sv [signed] sel b (resolution / 111320)%Q w1)
    as (stack & w2 & Hstack & Hlen); [discriminate |].
  destruct stack as [|scene [|? ?]]; try discriminate.
  exists signed, w1, scene, w2. split; [exact Hsign |]. split; [exact Hstack |].
  unfold get_pc. rewrite decide_False by exact Hne.
  fold (pc_query product b date_range query). fold q.
  unfold mbind at 1, M_bind at 1.
  assert (Hsearch : stac_search sv q w = (Ok (catalog sv q), (stac_search sv q w).2))
    by reflexivity.
  rewrite Hsearch, Hone. cbn [for_list].
  unfold mbind at 1, M_bind at 1. unfold mbind at 1, M_bind at 1.
  rewrite Hsign. unfold mbind at 1, M_bind at 1.
  unfold mret at 1, M_ret at 1. unfold mret at 1, M_ret at 1.
  unfold mbind at 1, M_bind at 1. rewrite Hstack.
  unfold mret, M_ret. f_equal.
  destruct na_val as [v|].
  - rewrite where_ne_single_scene, median_time_single_scene. reflexivity.
  - rewrite median_time_single_scene. reflexivity.
Qed.

Lemma get_pc_single_scene_witness :
  ∃ signed w1 scene w2,
    sign_item sample_jrc_item
      (stac_search reliable_services (pc_query "jrc-gsw" richmond None None)
                   fresh).2
    = (Ok signed, w1)
    ∧ stackstac_stack reliable_services [signed] stackstac_default_assets
        richmond (10 / 111320)%Q w1
      = (Ok [scene], w2)
    ∧ get_pc reliable_services "jrc-gsw" richmond stackstac_default_assets 10
             None None (Some 0%Q) fresh
      = (Ok (Mosaic (mask_na (Some 0%Q) scene)), w2).
Proof.
  apply (get_pc_single_scene reliable_services "jrc-gsw" richmond
           stackstac_default_assets 10 None None (Some 0%Q) fresh
           sample_jrc_item); [discriminate | reflexivity].
Defined.

(** Masking acts on the series of every pixel, reading by reading. *)
Lemma time_series_where_ne (na : Q) (data : list (list (raster cell)))
    (bnd y x : nat) :
  time_series (where_ne na data) bnd y x
  = (fun c : cell =>
       match c with
       | Some q => if Qeq_bool q na then None else Some q
       | None => None
       end) <$> time_series data bnd y x.
Proof.
  unfold time_series, where_ne, raster, cell.
  change (map ?f ?l) with (f <$> l). rewrite <- !list_fmap_compose.
  apply list_fmap_ext. intros _ scene _. cbn [compose].
  change (map ?f ?l) with (f <$> l).
  rewrite list_lookup_fmap.
  destruct (scene !! bnd) as [band0|]; [| reflexivity].
  cbn [fmap option_fmap option_map].
  change (map ?f ?l) with (f <$> l).
  change (list_fmap ?A ?B ?f ?l) with (map f l).
  rewrite (pixel_map2 _ band0 y x).
  destruct (pixel band0 y x) as [c|]; reflexivity.
Qed.

Lemma dropna_no_observation (na : Q) (series : list cell) :
  Forall (no_observation na) series →
  dropna ((fun c : cell =>
             match c with
             | Some q => if Qeq_bool q na then None else Some q
             | None => None
             end) <$> series) = [].
Proof.
  induction 1 as [|c series Hc _ IH]; [reflexivity |].
  rewrite fmap_cons. unfold dropna in *.
  destruct c as [q|]; cbn [no_observation] in Hc.
  - apply Qeq_bool_iff in Hc. rewrite Hc. exact IH.
  - exact IH.
Qed.

(** X7. The no-data value does not leak into the mosaic as a
    measurement: for a product other than terraclimate whose search finds
    a scene, a pixel at which every scene of the stack reads NaN or the
    no-data value [na_val] comes out of [get_pc] as NaN. *)
Theorem get_pc_unobserved_pixel_is_nan {G} (sv : services) (product : string)
    (b : bbox) (sel : asset_selector) (resolution : Q)
    (query date_range : option string) (na : Q) (w : world G) :
  product ≠ "terraclimate"%string →
  catalog sv (pc_query product b date_range query) ≠ [] →
  ∃ signed_items w1 stack w2 mosaic,
    for_list (catalog sv (pc_query product b date_range query)) sign_item
             (stac_search sv (pc_query product b date_range query) w).2
    = (Ok signed_items, w1)
    ∧ stackstac_stack sv signed_items sel b (resolution / 111320)%Q w1
      = (Ok stack, w2)
    ∧ get_pc sv product b sel resolution query date_range (Some na) w
      = (Ok (Mosaic mosaic), w2)
    ∧ ∀ bnd y x v,
        mosaic_pixel mosaic bnd y x = Some v →
        Forall (no_observation na) (time_series stack bnd y x) →
        v = None.
Proof.
  intros Hne Hfound. set (q := pc_query product b date_range query) in *.
  destruct (for_list_total sign_item (catalog sv q) sign_item_total
              (stac_search sv q w).2) as (signed & w1 & Hsign & Hlen1).
  destruct (stackstac_stack_total sv signed sel b (resolution / 111320)%Q w1)
    as (stack & w2 & Hstack & Hlen2).
  { intros ->. destruct (catalog sv q); [contradiction | discriminate]. }
  exists signed, w1, stack, w2. eexists.
  split; [exact Hsign |]. split; [exact Hstack |]. split.
  - unfold get_pc. rewrite decide_False by exact Hne.
    fold (pc_query product b date_range query). fold q.
    unfold mbind at 1, M_bind at 1.
    assert (Hsearch : stac_search sv q w = (Ok (catalog sv q), (stac_search sv q w).2))
      by reflexivity.
    rewrite Hsearch. unfold mbind at 1, M_bind at 1. rewrite Hsign.
    unfold mbind at 1, M_bind at 1. rewrite Hstack. reflexivity.
  - intros bnd y x v Hv Hnone. apply median_time_pixel in Hv. subst v.
    unfold series_median. rewrite time_series_where_ne.
    rewrite (dropna_no_observation na _ Hnone). reflexivity.
Qed.

Lemma get_pc_unobserved_pixel_is_nan_witness :
  ∃ mosaic,
    (get_pc reliable_services "jrc-gsw" richmond stackstac_default_assets 10
            None None (Some 0%Q) fresh).1
    = Ok (Mosaic mosaic)
    ∧ mosaic_pixel mosaic 0 0 0 = Some None.
Proof.
  destruct (get_pc_unobserved_pixel_is_nan reliable_services "jrc-gsw" richmond
              stackstac_default_assets 10 None None 0%Q fresh)
    as (signed & w1 & stack & w2 & mosaic & _ & _ & Hrun & _);
    [discriminate | discriminate |].
  exists mosaic. rewrite Hrun. split; [reflexivity |].
  vm_compute in Hrun. injection Hrun as <- _. reflexivity.
Defined.

(** ** The slope of simple terrains *)

Section TerrainFacts.
Local Open Scope R_scope.

Lemma reflect_lt (n : nat) (z : Z) : (0 < n)%nat → (reflect n z < n)%nat.
Proof.
  intros Hn. unfold reflect.
  pose proof (Z.mod_pos_bound z (2 * Z.of_nat n)) as Hp.
  destruct (Z.ltb_spec (z mod (2 * Z.of_nat n)) (Z.of_nat n)); lia.
Qed.

Lemma reflect_inside (n : nat) (z : Z) :
  (0 ≤ z < Z.of_nat n)%Z → reflect n z = Z.to_nat z.
Proof.
  intros Hz. unfold reflect. rewrite Z.mod_small by lia.
  destruct (Z.ltb_spec z (Z.of_nat n)); [reflexivity | lia].
Qed.

(** In a rectangular array every row is as long as the first. *)
Lemma rectangular_row (dem : ndarray2) (i : nat) :
  rectangular dem → (i < nrows dem)%nat → length (nth i dem []) = ncols dem.
Proof.
  intros Hrect Hi. unfold rectangular in Hrect. rewrite Forall_forall in Hrect.
  apply Hrect. apply list_elem_of_In, nth_In. exact Hi.
Qed.

(** A pixel that exists lies within the rows and the columns. *)
Lemma pixel_bounds (dem : ndarray2) (i j : nat) (e : R) :
  rectangular dem → pixel dem i j = Some e →
  (i < nrows dem)%nat ∧ (j < ncols dem)%nat ∧ at2 dem i j = e.
Proof.
  intros Hrect He. unfold pixel in He.
  match type of He with
  | context [@lookup ?K ?V ?M ?I i dem] =>
      destruct (@lookup K V M I i dem) as [row|] eqn:Hrow; [| discriminate]
  end.
  cbn [mbind option_bind] in He.
  pose proof (lookup_lt_Some _ _ _ Hrow) as Hi.
  pose proof (lookup_lt_Some _ _ _ He) as Hj.
  assert (Hnth : nth i dem [] = row) by (apply nth_lookup_Some; exact Hrow).
  split; [exact Hi |]. split.
  - rewrite <- (rectangular_row dem i Hrect Hi), Hnth. exact Hj.
  - unfold at2. rewrite Hnth. apply nth_lookup_Some. exact He.
Qed.

(** What the convolution sees of a pixel of a lifted terrain, reflected
    border included. *)
Lemma pix_raise_terrain (c : R) (dem : ndarray2) (u v : Z) :
  rectangular dem → (0 < nrows dem)%nat → (0 < ncols dem)%nat →
  pix (raise_terrain c dem) u v = pix dem u v + c.
Proof.
  intros Hrect Hr Hc. unfold pix.
  assert (Hn : nrows (raise_terrain c dem) = nrows dem)
    by (unfold nrows, raise_terrain; apply length_map).
  assert (Hm : ncols (raise_terrain c dem) = ncols dem).
  { unfold ncols, raise_terrain. destruct dem; [reflexivity |]. cbn. apply length_map. }
  rewrite Hn, Hm.
  pose proof (reflect_lt (nrows dem) u Hr) as Hu.
  pose proof (reflect_lt (ncols dem) v Hc) as Hv.
  set (i := reflect (nrows dem) u) in *. set (j := reflect (ncols dem) v) in *.
  unfold at2, raise_terrain.
  rewrite (nth_indep _ [] (map (fun e => e + c) [])) by (rewrite length_map; exact Hu).
  rewrite map_nth.
  rewrite (nth_indep _ 0 (0 + c))
    by (rewrite length_map, (rectangular_row dem i Hrect Hu); exact Hv).
  apply (map_nth (fun e => e + c)).
Qed.

Ltac sum_kernel :=
  unfold convolution3, Rsum;
  cbn [map list_prod app fold_right fst snd];
  repeat match goal with
  | |- context [kernel_entry ?k ?a ?b] =>
      let v := eval vm_compute in (kernel_entry k a b) in
      change (kernel_entry k a b) with v
  end.

(** Both kernels sum to zero, so lifting the terrain changes neither
    convolution. *)
Lemma convolution3_raise_terrain (k : kernel) (c : R) (dem : ndarray2) (i j : Z) :
  k = dx_kernel ∨ k = dy_kernel →
  rectangular dem → (0 < nrows dem)%nat → (0 < ncols dem)%nat →
  convolution3 k (raise_terrain c dem) i j = convolution3 k dem i j.
Proof.
  intros Hk Hrect Hr Hc. destruct Hk as [-> | ->]; sum_kernel;
    rewrite !(pix_raise_terrain c dem) by assumption; ring.
Qed.



Lemma pixel_at2 (dem : ndarray2) (i j : nat) :
  rectangular dem → (i < nrows dem)%nat → (j < ncols dem)%nat →
  pixel dem i j = Some (at2 dem i j).
Proof.
  intros Hrect Hi Hj. unfold pixel, at2.
  destruct (nth_lookup_or_length dem i []) as [Hrow | Hlen];
    [| unfold nrows in Hi; lia].
  refine (eq_trans (f_equal (fun o => o ≫= (.!! j)) Hrow) _).
  cbn [mbind option_bind].
  destruct (nth_lookup_or_length (nth i dem []) j 0) as [He | Hlen];
    [exact He |].
  rewrite (rectangular_row dem i Hrect Hi) in Hlen. lia.
Qed.

Lemma pix_flat_terrain (c : R) (dem : ndarray2) (u v : Z) :
  flat_terrain c dem → rectangular dem →
  (0 < nrows dem)%nat → (0 < ncols dem)%nat →
  pix dem u v = c.
Proof.
  intros Hflat Hrect Hr Hc. unfold pix.
  apply (Hflat (reflect (nrows dem) u) (reflect (ncols dem) v)).
  apply pixel_at2; [exact Hrect | apply reflect_lt, Hr | apply reflect_lt, Hc].
Qed.

Lemma convolution3_flat_terrain (k : kernel) (c : R) (dem : ndarray2) (i j : Z) :
  k = dx_kernel ∨ k = dy_kernel →
  flat_terrain c dem → rectangular dem →
  (0 < nrows dem)%nat → (0 < ncols dem)%nat →
  convolution3 k dem i j = 0.
Proof.
  intros Hk Hflat Hrect Hr Hc. destruct Hk as [-> | ->]; sum_kernel;
    rewrite !(pix_flat_terrain c dem) by assumption; ring.
Qed.



(** What the convolution sees around an interior pixel of a plane. *)
Lemma pix_plane_terrain (e0 a b : R) (dem : ndarray2) (i j : nat) (du dv : Z) :
  plane_terrain e0 a b dem → interior dem i j →
  (-1 ≤ du ≤ 1)%Z → (-1 ≤ dv ≤ 1)%Z →
  pix dem (Z.of_nat i - du) (Z.of_nat j - dv)
  = e0 + a * (INR j - IZR dv) + b * (INR i - IZR du).
Proof.
  intros Hplane (Hi1 & Hi2 & Hj1 & Hj2) Hdu Hdv. unfold pix.
  rewrite !reflect_inside by lia.
  rewrite Hplane by lia.
  rewrite !INR_IZR_INZ, !Z2Nat.id by lia. rewrite !minus_IZR. reflexivity.
Qed.



End TerrainFacts.

(** ** The join at its edges *)

Lemma join_features_single_band_witness :
  join_features sample_frogs sample_elevation
  = Raise (ValueError "zero-dimensional arrays cannot be concatenated").
Proof.
  apply (join_features_single_band _ _ sample_elevation);
    [split; [discriminate | reflexivity].. | reflexivity].
Defined.

Lemma Qdist_below (c target : Q) :
  (c < target)%Q → (Qdist c target == target - c)%Q.
Proof.
  intros Hlt. unfold Qdist. rewrite Qabs_neg by Lqa.lra. ring.
Qed.

(** Of labels that all lie below the target, a nearest one is a largest
    one. *)
Lemma nearest_below_is_largest (labels : list Q) (target : Q) (i : nat) :
  (∀ c, c ∈ labels → (c < target)%Q) →
  nearest labels target i →
  ∃ ci, labels !! i = Some ci ∧ ∀ c, c ∈ labels → (c <= ci)%Q.
Proof.
  intros Hbelow (ci & Hi & Hmin). exists ci. split; [exact Hi |].
  intros c Hc. apply list_elem_of_lookup in Hc as [j Hj].
  specialize (Hmin j c Hj).
  rewrite (Qdist_below ci target), (Qdist_below c target) in Hmin.
  - Lqa.lra.
  - apply Hbelow. eapply list_elem_of_lookup_2. exact Hj.
  - apply Hbelow. eapply list_elem_of_lookup_2. exact Hi.
Qed.



(** ** Stacking the predictor bands, continued *)

(** X13. [create_predictor_image] checks the spatial shape of a dataset
    only through [np.concatenate]: when the second dataset does not have
    the spatial shape of the first, the function raises ValueError at
    that dataset, whatever follows it in the list. *)
Theorem create_predictor_image_shape_mismatch (d0 d1 : DataArray)
    (rest : list DataArray) :
  shape (values d0) ≠ [] → shape (values d1) ≠ [] →
  ¬ same_spatial_dims d0 d1 →
  create_predictor_image (d0 :: d1 :: rest)
  = Raise (ValueError "all the input array dimensions except for the concatenation axis must match exactly").
Proof.
  intros H0 H1 Hdiff. unfold create_predictor_image, same_spatial_dims in *.
  cbn [cpi_loop Nat.eqb mbind result_bind combined_values]. unfold concatenate.
  destruct (shape (values d0)) as [|n0 t0]; [contradiction |].
  destruct (shape (values d1)) as [|n1 t1]; [contradiction |].
  cbn [tail] in Hdiff. rewrite decide_False by congruence. reflexivity.
Qed.

Lemma create_predictor_image_shape_mismatch_witness :
  create_predictor_image [sample_elevation; sample_image_3x1; sample_gradient]
  = Raise (ValueError "all the input array dimensions except for the concatenation axis must match exactly").
Proof.
  apply (create_predictor_image_shape_mismatch sample_elevation
           sample_image_3x1 [sample_gradient]);
    [discriminate | discriminate | unfold same_spatial_dims; discriminate].
Defined.

(** The image [create_predictor_image] builds, field by field. *)
Lemma create_predictor_image_value (d0 : DataArray) (rest : list DataArray) :
  Forall valid_DataArray (d0 :: rest) →
  Forall band_first (d0 :: rest) →
  Forall (same_spatial_dims d0) rest →
  create_predictor_image (d0 :: rest)
  = Ok (stacked_image d0 rest).
Proof.
  intros Hvalid Hband Hshape.
  apply Forall_cons in Hvalid as [Hv0 Hvalid].
  apply Forall_cons in Hband as [Hb0 Hband].
  pose proof (band_first_shape d0 Hv0 Hb0) as Hd0.
  set (l0 := {| combined_values := values d0; combined_bands := band d0;
                x_coords := x d0; y_coords := y d0; dims_ := dims d0 |}).
  destruct (cpi_loop_invariant (tail (shape (values d0))) rest 0 l0)
    as (l' & Hrun & Hbands & Hflat & Hshp & Hx & Hy & Hdims);
    [assumption.. | exact Hd0 |].
  unfold create_predictor_image. cbn [cpi_loop Nat.eqb mbind result_bind].
  fold l0. rewrite Hrun. cbn [mbind result_bind].
  subst l0. cbn in Hbands, Hflat, Hx, Hy, Hdims.
  apply valid_DataArray_inv in Hv0 as (Hlen0 & _ & Hx0 & Hy0).
  destruct Hb0 as [spatial Hdims0].
  assert (Hvalues : combined_values l'
                    = {| shape := length (concat (band <$> d0 :: rest))
                                  :: tail (shape (values d0));
                         flat := concat ((flat ∘ values) <$> d0 :: rest) |}).
  { destruct (combined_values l') as [shp flt]. cbn in Hflat, Hshp.
    subst shp flt. rewrite Hbands. reflexivity. }
  unfold xr_DataArray. rewrite decide_True.
  - unfold stacked_image. f_equal. clear Hrun Hflat Hshp.
    destruct l' as [cv cb xc yc dm]. cbn in Hvalues, Hbands, Hx, Hy, Hdims.
    subst cv cb xc yc dm. reflexivity.
  - rewrite Hshp, Hdims, Hx, Hy, Hdims0. rewrite Hd0, Hdims0 in Hlen0, Hx0, Hy0.
    split; [exact Hlen0 |]. split; [apply dim_size_band |].
    split.
    + rewrite <- Hx0. apply dim_size_spatial. discriminate.
    + rewrite <- Hy0. apply dim_size_spatial. discriminate.
Qed.

Lemma xr_DataArray_valid (data : ndarray) (dms bands : list string)
    (xs ys : list Q) (d : DataArray) :
  xr_DataArray data dms bands xs ys = Ok d → valid_DataArray d.
Proof.
  unfold valid_DataArray, xr_DataArray. case_decide as Hok; [| discriminate].
  intros [= <-]. cbn [values dims band x y].
  rewrite decide_True by exact Hok. reflexivity.
Qed.

(** What was built by the constructor is valid, has the band axis first
    if the first input had, and keeps the spatial shape. *)
Lemma stacked_image_valid (d0 : DataArray) (rest : list DataArray) :
  Forall valid_DataArray (d0 :: rest) →
  Forall band_first (d0 :: rest) →
  Forall (same_spatial_dims d0) rest →
  valid_DataArray (stacked_image d0 rest)
  ∧ band_first (stacked_image d0 rest)
  ∧ same_spatial_dims d0 (stacked_image d0 rest).
Proof.
  intros Hvalid Hband Hshape.
  pose proof (create_predictor_image_value d0 rest Hvalid Hband Hshape) as Hrun.
  split; [| split].
  - unfold create_predictor_image in Hrun.
    destruct (cpi_loop 0 (d0 :: rest) None) as [[l|]|]; try discriminate.
    cbn [mbind result_bind] in Hrun.
    eapply xr_DataArray_valid. exact Hrun.
  - apply Forall_cons in Hband as [Hb0 _]. exact Hb0.
  - reflexivity.
Qed.

(** X14. Stacking can be done in steps: for valid datasets with the band
    axis first and a common spatial shape, stacking two groups separately
    and then stacking the two results gives the same image as stacking
    all the datasets at once. *)
Theorem create_predictor_image_in_steps (d0 e0 : DataArray)
    (rest1 rest2 : list DataArray) :
  Forall valid_DataArray (d0 :: rest1 ++ e0 :: rest2) →
  Forall band_first (d0 :: rest1 ++ e0 :: rest2) →
  Forall (same_spatial_dims d0) (rest1 ++ e0 :: rest2) →
  ∃ first_part second_part,
    create_predictor_image (d0 :: rest1) = Ok first_part
    ∧ create_predictor_image (e0 :: rest2) = Ok second_part
    ∧ create_predictor_image [first_part; second_part]
      = create_predictor_image (d0 :: rest1 ++ e0 :: rest2).
Proof.
  intros Hvalid Hband Hshape.
  pose proof Hvalid as Hvalid'. pose proof Hband as Hband'.
  pose proof Hshape as Hshape'.
  apply Forall_cons in Hvalid' as [Hv0 Hvrest].
  apply Forall_app in Hvrest as [Hv1 Hv2].
  apply Forall_cons in Hband' as [Hb0 Hbrest].
  apply Forall_app in Hbrest as [Hb1 Hb2].
  apply Forall_app in Hshape' as [Hs1 Hs2].
  pose proof Hs2 as Hs2'. apply Forall_cons in Hs2' as [Hse0 Hs2'].
  assert (Hs2e : Forall (same_spatial_dims e0) rest2).
  { eapply Forall_impl; [exact Hs2' |]. intros d Hd.
    unfold same_spatial_dims in *. congruence. }
  assert (H1 : Forall valid_DataArray (d0 :: rest1)) by (constructor; assumption).
  assert (H2 : Forall band_first (d0 :: rest1)) by (constructor; assumption).
  exists (stacked_image d0 rest1), (stacked_image e0 rest2).
  split; [apply create_predictor_image_value; assumption |].
  split; [apply create_predictor_image_value; assumption |].
  destruct (stacked_image_valid d0 rest1 H1 H2 Hs1) as (Ha1 & Ha2 & Ha3).
  destruct (stacked_image_valid e0 rest2 Hv2 Hb2 Hs2e) as (Hc1 & Hc2 & Hc3).
  rewrite (create_predictor_image_value (stacked_image d0 rest1)
             [stacked_image e0 rest2]).
  - rewrite (create_predictor_image_value d0 (rest1 ++ e0 :: rest2))
      by assumption.
    f_equal. unfold stacked_image. cbn [values shape flat band x y dims tail].
    rewrite !fmap_cons, !fmap_app, !fmap_cons. cbn [concat].
    rewrite !concat_app. cbn [concat compose flat values band].
    rewrite !app_nil_r, <- !app_assoc. reflexivity.
  - repeat constructor; assumption.
  - repeat constructor; assumption.
  - constructor; [| constructor].
    unfold same_spatial_dims in *. cbn [stacked_image values shape tail] in *.
    congruence.
Qed.

Lemma create_predictor_image_in_steps_witness :
  ∃ first_part second_part,
    create_predictor_image [sample_elevation] = Ok first_part
    ∧ create_predictor_image [sample_gradient; sample_elevation] = Ok second_part
    ∧ create_predictor_image [first_part; second_part]
      = create_predictor_image
          [sample_elevation; sample_gradient; sample_elevation].
Proof.
  apply (create_predictor_image_in_steps sample_elevation sample_gradient
           [] [sample_elevation]).
  - repeat constructor.
  - repeat constructor; eexists; reflexivity.
  - repeat constructor.
Defined.

(** ** Clipping by coordinate labels *)

Lemma monotonic_increasing_lookup (l : list Q) :
  is_monotonic_increasing l = true →
  ∀ i j a b, i ≤ j → l !! i = Some a → l !! j = Some b → (a <= b)%Q.
Proof.
  induction l as [|c l IH]; intros Hmono i j a b Hij Hi Hj; [discriminate |].
  assert (Htail : is_monotonic_increasing l = true).
  { destruct l; [reflexivity |]. cbn in Hmono.
    apply andb_true_iff in Hmono as [_ H]. exact H. }
  assert (Hhead : ∀ k d, l !! k = Some d → (c <= d)%Q).
  { intros k d Hk. destruct l as [|c' l']; [discriminate |].
    cbn in Hmono. apply andb_true_iff in Hmono as [Hcc' _].
    apply Qle_bool_iff in Hcc'. eapply Qle_trans; [exact Hcc' |].
    apply (IH Htail 0%nat k c' d); [lia | reflexivity | exact Hk]. }
  destruct i as [|i], j as [|j]; cbn in Hi, Hj.
  - injection Hi as <-. injection Hj as <-. apply Qle_refl.
  - injection Hi as <-. apply (Hhead j b Hj).
  - lia.
  - apply (IH Htail i j); [lia | assumption..].
Qed.

Lemma monotonic_decreasing_lookup (l : list Q) :
  is_monotonic_decreasing l = true →
  ∀ i j a b, i ≤ j → l !! i = Some a → l !! j = Some b → (b <= a)%Q.
Proof.
  induction l as [|c l IH]; intros Hmono i j a b Hij Hi Hj; [discriminate |].
  assert (Htail : is_monotonic_decreasing l = true).
  { destruct l; [reflexivity |]. cbn in Hmono.
    apply andb_true_iff in Hmono as [_ H]. exact H. }
  assert (Hhead : ∀ k d, l !! k = Some d → (d <= c)%Q).
  { intros k d Hk. destruct l as [|c' l']; [discriminate |].
    cbn in Hmono. apply andb_true_iff in Hmono as [Hcc' _].
    apply Qle_bool_iff in Hcc'. eapply Qle_trans; [| exact Hcc'].
    apply (IH Htail 0%nat k c' d); [lia | reflexivity | exact Hk]. }
  destruct i as [|i], j as [|j]; cbn in Hi, Hj.
  - injection Hi as <-. injection Hj as <-. apply Qle_refl.
  - injection Hi as <-. apply (Hhead j b Hj).
  - lia.
  - apply (IH Htail i j); [lia | assumption..].
Qed.

Lemma filter_none (f : Q → bool) (l : list Q) :
  (∀ k d, l !! k = Some d → f d = false) → List.filter f l = [].
Proof.
  induction l as [|a l IH]; intros Hall; [reflexivity |].
  cbn [List.filter]. rewrite (Hall 0%nat a eq_refl).
  apply IH. intros k d Hk. apply (Hall (S k) d Hk).
Qed.

(** A test that, once it fails along a list, fails for good, is passed
    exactly by a front part of the list. *)
Lemma filter_front (f : Q → bool) (l : list Q) :
  (∀ i j a b, i ≤ j → l !! i = Some a → l !! j = Some b →
              f b = true → f a = true) →
  ∀ j c, l !! j = Some c → (j < length (List.filter f l) ↔ f c = true).
Proof.
  induction l as [|a l IH]; intros Hclosed j c Hj; [discriminate |].
  assert (Htail : ∀ i j a b, i ≤ j → l !! i = Some a → l !! j = Some b →
                             f b = true → f a = true).
  { intros i' j' a' b' Hij Hi' Hj'. apply (Hclosed (S i') (S j')); [lia | assumption..]. }
  cbn [List.filter]. destruct (f a) eqn:Hfa.
  - destruct j as [|j]; cbn in Hj.
    + injection Hj as <-. cbn. split; [intros _; exact Hfa | lia].
    + cbn [length]. rewrite <- (IH Htail j c Hj). lia.
  - assert (Hnone : List.filter f l = []).
    { apply filter_none. intros k d Hk.
      destruct (f d) eqn:Hfd; [| reflexivity].
      rewrite (Hclosed 0%nat (S k) a d) in Hfa;
        [discriminate | lia | reflexivity | exact Hk | exact Hfd]. }
    rewrite Hnone. cbn [length]. split; [lia |]. intros Hfc. exfalso.
    destruct j as [|j]; cbn in Hj.
    + injection Hj as <-. congruence.
    + rewrite (Hclosed 0%nat (S j) a c) in Hfa;
        [discriminate | lia | reflexivity | exact Hj | exact Hfc].
Qed.

Lemma length_filter_rev (f : Q → bool) (l : list Q) :
  length (List.filter f (rev l)) = length (List.filter f l).
Proof.
  induction l as [|a l IH]; [reflexivity |].
  cbn [rev]. rewrite List.filter_app, length_app, IH. cbn [List.filter].
  destruct (f a); cbn [length]; lia.
Qed.

Lemma length_filter_negb (f : Q → bool) (l : list Q) :
  length l - length (List.filter f l)
  = length (List.filter (fun c => negb (f c)) l).
Proof.
  induction l as [|a l IH]; [reflexivity |].
  cbn [List.filter length]. destruct (f a); cbn [negb length].
  - exact IH.
  - rewrite <- IH. pose proof (List.filter_length_le f l). lia.
Qed.

(** On an increasing coordinate, [slice(lo, hi)] selects the window of
    the labels in the closed interval from [lo] to [hi]. *)
Lemma slice_indexer_increasing (l : list Q) (lo hi : Q) :
  is_monotonic_increasing l = true →
  ∃ s e,
    slice_indexer l lo hi = Ok (s, e)
    ∧ s = length (List.filter (fun c => Qltb c lo) l)
    ∧ e = length (List.filter (fun c => Qle_bool c hi) l)
    ∧ ∀ j c, l !! j = Some c → (s ≤ j < e ↔ (lo <= c)%Q ∧ (c <= hi)%Q).
Proof.
  intros Hmono. eexists. eexists.
  split; [unfold slice_indexer, get_slice_bound; rewrite Hmono; reflexivity |].
  split; [reflexivity |]. split; [reflexivity |].
  intros j c Hj. unfold searchsorted.
  pose proof (filter_front (fun c => Qltb c lo) l) as Hlo.
  pose proof (filter_front (fun c => Qle_bool c hi) l) as Hhi.
  rewrite (Hhi) by (first [exact Hj |
    intros i' j' a b' Hij Hi' Hj' Hb; apply Qle_bool_iff; apply Qle_bool_iff in Hb;
    eapply Qle_trans; [apply (monotonic_increasing_lookup l Hmono i' j'); eassumption | exact Hb]]).
  assert (Hs : j < length (List.filter (fun c => Qltb c lo) l) ↔ Qltb c lo = true).
  { apply Hlo; [| exact Hj].
    intros i' j' a b' Hij Hi' Hj' Hb. apply Qltb_lt. apply Qltb_lt in Hb.
    eapply Qle_lt_trans; [apply (monotonic_increasing_lookup l Hmono i' j'); eassumption | exact Hb]. }
  rewrite Qle_bool_iff. rewrite Qltb_lt in Hs.
  split.
  - intros [H1 H2]. split; [| exact H2].
    apply Qnot_lt_le. intros Hlt. apply Hs in Hlt. lia.
  - intros [H1 H2]. split; [| exact H2].
    apply Nat.nlt_ge. intros Hlt. apply Hs in Hlt.
    exact (Qlt_not_le _ _ Hlt H1).
Qed.

(** On a decreasing coordinate, [slice(hi, lo)] does. *)
Lemma slice_indexer_decreasing (l : list Q) (lo hi : Q) :
  is_monotonic_increasing l = false →
  is_monotonic_decreasing l = true →
  ∃ s e,
    slice_indexer l hi lo = Ok (s, e)
    ∧ ∀ j c, l !! j = Some c → (s ≤ j < e ↔ (lo <= c)%Q ∧ (c <= hi)%Q).
Proof.
  intros Hinc Hdec. eexists. eexists.
  split; [unfold slice_indexer, get_slice_bound; rewrite Hinc, Hdec; reflexivity |].
  intros j c Hj. unfold searchsorted. cbn [negb].
  rewrite !length_filter_rev, !length_filter_negb.
  assert (Hs : j < length (List.filter (fun c => negb (Qle_bool c hi)) l)
               ↔ negb (Qle_bool c hi) = true).
  { apply (filter_front (fun c => negb (Qle_bool c hi)) l); [| exact Hj].
    intros i' j' a b' Hij Hi' Hj' Hb.
    apply negb_true_iff, not_true_iff_false. apply negb_true_iff, not_true_iff_false in Hb.
    rewrite Qle_bool_iff in *. intros Ha. apply Hb.
    eapply Qle_trans; [apply (monotonic_decreasing_lookup l Hdec i' j'); eassumption | exact Ha]. }
  assert (He : j < length (List.filter (fun c => negb (Qltb c lo)) l)
               ↔ negb (Qltb c lo) = true).
  { apply (filter_front (fun c => negb (Qltb c lo)) l); [| exact Hj].
    intros i' j' a b' Hij Hi' Hj' Hb.
    apply negb_true_iff, not_true_iff_false. apply negb_true_iff, not_true_iff_false in Hb.
    rewrite Qltb_lt in *. intros Ha. apply Hb.
    eapply Qle_lt_trans; [apply (monotonic_decreasing_lookup l Hdec i' j'); eassumption | exact Ha]. }
  rewrite negb_true_iff, <- not_true_iff_false, Qle_bool_iff in Hs.
  rewrite negb_true_iff, <- not_true_iff_false, Qltb_lt in He.
  split.
  - intros [H1 H2]. split.
    + apply Qnot_lt_le. apply He. exact H2.
    + destruct (Qlt_le_dec hi c) as [Hlt | Hle]; [| exact Hle].
      exfalso. assert (j < length (List.filter (fun c => negb (Qle_bool c hi)) l)); [| lia].
      apply Hs. apply Qlt_not_le, Hlt.
  - intros [H1 H2]. split.
    + apply Nat.nlt_ge. intros Hlt. apply Hs in Hlt. contradiction.
    + apply He. apply Qle_not_lt, H1.
Qed.

(** X15. The clip of the DEM notebook keeps the closed box: on a tile
    whose x labels increase and whose y labels decrease (north up), the
    label slices select exactly the columns with
    [min_lon <= x <= max_lon] and the rows with [min_lat <= y <= max_lat],
    labels on the edge of the box included; the file is then written from
    that window of the elevation and of the slope computed on the whole
    tile. *)
Theorem dem_clip_keeps_closed_box (data_elevation : ndarray2)
    (xs ys : list Q) (b : bbox) :
  is_monotonic_increasing xs = true →
  is_monotonic_increasing ys = false →
  is_monotonic_decreasing ys = true →
  ∃ c0 c1 r0 r1,
    slice_indexer xs (min_lon b) (max_lon b) = Ok (c0, c1)
    ∧ slice_indexer ys (max_lat b) (min_lat b) = Ok (r0, r1)
    ∧ (∀ j c, xs !! j = Some c →
         (c0 ≤ j < c1 ↔ (min_lon b <= c)%Q ∧ (c <= max_lon b)%Q))
    ∧ (∀ i c, ys !! i = Some c →
         (r0 ≤ i < r1 ↔ (min_lat b <= c)%Q ∧ (c <= max_lat b)%Q))
    ∧ dem_cells data_elevation xs ys b
      = dem_notebook data_elevation r0 r1 c0 c1.
Proof.
  intros Hx Hy1 Hy2.
  destruct (slice_indexer_increasing xs (min_lon b) (max_lon b) Hx)
    as (c0 & c1 & Hcols & _ & _ & Hxs).
  destruct (slice_indexer_decreasing ys (min_lat b) (max_lat b) Hy1 Hy2)
    as (r0 & r1 & Hrows & Hys).
  exists c0, c1, r0, r1.
  split; [exact Hcols |]. split; [exact Hrows |].
  split; [exact Hxs |]. split; [exact Hys |].
  unfold dem_cells, sel_box. cbn [cd_x cd_y cd_elevation cd_slope].
  rewrite Hcols, Hrows. reflexivity.
Qed.

Lemma dem_clip_keeps_closed_box_witness :
  ∃ c0 c1 r0 r1,
    slice_indexer sample_tile_x (min_lon richmond) (max_lon richmond)
    = Ok (c0, c1)
    ∧ slice_indexer sample_tile_y (max_lat richmond) (min_lat richmond)
      = Ok (r0, r1)
    ∧ (∀ j c, sample_tile_x !! j = Some c →
         (c0 ≤ j < c1 ↔ (min_lon richmond <= c)%Q ∧ (c <= max_lon richmond)%Q))
    ∧ (∀ i c, sample_tile_y !! i = Some c →
         (r0 ≤ i < r1 ↔ (min_lat richmond <= c)%Q ∧ (c <= max_lat richmond)%Q))
    ∧ dem_cells sample_tile sample_tile_x sample_tile_y richmond
      = dem_notebook sample_tile r0 r1 c0 c1.
Proof.
  apply (dem_clip_keeps_closed_box sample_tile sample_tile_x sample_tile_y
           richmond); reflexivity.
Defined.

(** X16. The y slice of the DEM notebook runs from [max_lat] down to
    [min_lat], which presumes a north-up tile: on a tile whose y labels
    increase (or that has a single row) the same cells select no row at
    all, and the clipped elevation and slope are empty. *)
Theorem dem_clip_south_up_is_empty (b : bbox) (d : Combined) :
  is_monotonic_increasing (cd_x d) = true →
  is_monotonic_increasing (cd_y d) = true →
  (min_lat b < max_lat b)%Q →
  ∃ clipped,
    sel_box b d = Ok clipped
    ∧ cd_y clipped = [] ∧ cd_elevation clipped = [] ∧ cd_slope clipped = [].
Proof.
  intros Hx Hy Hbox.
  destruct (slice_indexer_increasing (cd_x d) (min_lon b) (max_lon b) Hx)
    as (c0 & c1 & Hcols & _).
  destruct (slice_indexer_increasing (cd_y d) (max_lat b) (min_lat b) Hy)
    as (r0 & r1 & Hrows & Hr0 & Hr1 & _).
  assert (Hempty : r1 - r0 = 0%nat).
  { subst r0 r1. apply Nat.sub_0_le. clear -Hbox.
    induction (cd_y d) as [|c l IH]; [reflexivity |].
    cbn [List.filter].
    destruct (Qle_bool c (min_lat b)) eqn:Hle.
    - apply Qle_bool_iff in Hle.
      rewrite (proj2 (Qltb_lt c (max_lat b))) by (eapply Qle_lt_trans; eassumption).
      cbn [length]. lia.
    - destruct (Qltb c (max_lat b)); cbn [length]; lia. }
  eexists. unfold sel_box. rewrite Hcols, Hrows. cbn [mbind result_bind].
  split; [reflexivity |]. cbn [cd_y cd_elevation cd_slope fst snd].
  unfold isel, clip. cbn [fst snd]. rewrite Hempty. auto.
Qed.

Lemma dem_clip_south_up_is_empty_witness :
  ∃ clipped,
    sel_box richmond
      {| cd_x := sample_tile_x; cd_y := rev sample_tile_y;
         cd_elevation := map (map Fin) sample_tile;
         cd_slope := map (map Fin) sample_tile |}
    = Ok clipped
    ∧ cd_y clipped = [] ∧ cd_elevation clipped = [] ∧ cd_slope clipped = [].
Proof.
  apply (dem_clip_south_up_is_empty richmond
           {| cd_x := sample_tile_x; cd_y := rev sample_tile_y;
              cd_elevation := map (map Fin) sample_tile;
              cd_slope := map (map Fin) sample_tile |});
    reflexivity.
Defined.

(** ** The Sentinel-2 file *)



(** ** The probability image *)

Lemma column_rowwise (f : list cell → list Q) (rows : list (list cell)) :
  (∀ row, is_Some (f row !! 1%nat)) →
  column 1 (f <$> rows) = Ok ((fun row => default 0%Q (f row !! 1%nat)) <$> rows).
Proof.
  intros Hf. induction rows as [|row rows IH]; [reflexivity |].
  rewrite !fmap_cons. cbn [column]. destruct (Hf row) as [p Hp].
  rewrite Hp, IH. reflexivity.
Qed.

Lemma zip_labels_values {L V W} (g : V → W) (l : list (L * V)) :
  zip (fst <$> l) (g <$> (snd <$> l)) = (fun e => (e.1, g e.2)) <$> l.
Proof. induction l as [|e l IH]; [reflexivity |]. cbn. rewrite <- IH. reflexivity. Qed.

Lemma unique_labels_lookup (l : list Q) :
  unique_labels l = true →
  ∀ i j a b, i < j → l !! i = Some a → l !! j = Some b → Qeq_bool a b = false.
Proof.
  induction l as [|c l IH]; intros Hu i j a b Hij Hi Hj; [discriminate |].
  cbn in Hu. apply andb_true_iff in Hu as [Hc Hu].
  destruct j as [|j]; [lia |]. cbn in Hj. destruct i as [|i]; cbn in Hi.
  - injection Hi as <-. rewrite forallb_forall in Hc.
    apply negb_true_iff, Hc. apply list_elem_of_In.
    eapply list_elem_of_lookup_2. exact Hj.
  - apply (IH Hu i j); [lia | assumption..].
Qed.

Lemma find_app_None {E} (p : E → bool) (l1 l2 : list E) :
  List.find p l1 = None → List.find p (l1 ++ l2) = List.find p l2.
Proof.
  induction l1 as [|e l1 IH]; [reflexivity |]. cbn.
  destruct (p e); [discriminate | exact IH].
Qed.

Lemma find_app_Some {E} (p : E → bool) (l1 l2 : list E) (e : E) :
  List.find p l1 = Some e → List.find p (l1 ++ l2) = Some e.
Proof.
  induction l1 as [|e' l1 IH]; [discriminate |]. cbn.
  destruct (p e'); [auto | exact IH].
Qed.

(** In the row of one x label the entry of a y label is the first whose
    label matches it. *)
Lemma find_in_row (xv yv : Q) (ys : list Q) :
  unique_labels ys = true →
  ∀ (iy : nat) (h : nat → Q),
    ys !! iy = Some yv →
    List.find (fun e : (Q * Q) * Q => Qeq_bool e.1.1 xv && Qeq_bool e.1.2 yv)
              (imap (fun iy' yv' => ((xv, yv'), h iy')) ys)
    = Some ((xv, yv), h iy).
Proof.
  induction ys as [|y0 ys IH]; intros Hu iy h Hiy; [discriminate |].
  cbn [imap List.find fst snd]. rewrite Qeq_bool_refl. cbn [andb].
  destruct iy as [|iy]; cbn in Hiy.
  - injection Hiy as ->. rewrite Qeq_bool_refl. reflexivity.
  - rewrite (unique_labels_lookup (y0 :: ys) Hu 0 (S iy) y0 yv)
      by (first [lia | reflexivity | exact Hiy]).
    cbn in Hu. apply andb_true_iff in Hu as [_ Hu].
    apply (IH Hu iy (h ∘ S) Hiy).
Qed.

Lemma find_not_in_row (x0 xv yv : Q) (ys : list Q) (h : nat → Q) :
  Qeq_bool x0 xv = false →
  List.find (fun e : (Q * Q) * Q => Qeq_bool e.1.1 xv && Qeq_bool e.1.2 yv)
            (imap (fun iy' yv' => ((x0, yv'), h iy')) ys)
  = None.
Proof.
  intros Hne. revert h. induction ys as [|y0 ys IH]; intros h; [reflexivity |].
  cbn [imap List.find fst snd]. rewrite Hne. cbn [andb]. apply (IH (h ∘ S)).
Qed.

(** In the stacked vector the entry of a pixel is the first whose label
    matches the pixel's. *)
Lemma find_in_grid (xv yv : Q) (ys : list Q) (iy : nat) (xs : list Q) :
  unique_labels ys = true → ys !! iy = Some yv →
  unique_labels xs = true →
  ∀ (ix : nat) (h : nat → nat → Q),
    xs !! ix = Some xv →
    List.find (fun e : (Q * Q) * Q => Qeq_bool e.1.1 xv && Qeq_bool e.1.2 yv)
              (concat (imap (fun ix' xv' =>
                         imap (fun iy' yv' => ((xv', yv'), h ix' iy')) ys) xs))
    = Some ((xv, yv), h ix iy).
Proof.
  intros Huy Hiy. induction xs as [|x0 xs IH]; intros Hux ix h Hix; [discriminate |].
  cbn [imap concat]. destruct ix as [|ix]; cbn in Hix.
  - injection Hix as ->. apply find_app_Some.
    apply (find_in_row xv yv ys Huy iy (h 0%nat) Hiy).
  - rewrite find_app_None.
    + cbn in Hux. apply andb_true_iff in Hux as [_ Hux'].
      apply (IH Hux' ix (h ∘ S) Hix).
    + apply find_not_in_row.
      apply (unique_labels_lookup (x0 :: xs) Hux 0 (S ix));
        [lia | reflexivity | exact Hix].
Qed.

Lemma fmap_grid {A B C D} (g : C → D) (xs : list A) (ys : list B) :
  ∀ h : nat → A → nat → B → C,
    g <$> concat (imap (fun ix xv => imap (fun iy yv => h ix xv iy yv) ys) xs)
    = concat (imap (fun ix xv => imap (fun iy yv => g (h ix xv iy yv)) ys) xs).
Proof.
  induction xs as [|x0 xs IH]; intros h; [reflexivity |].
  cbn [imap concat]. rewrite fmap_app, fmap_imap.
  f_equal. apply (IH (fun ix => h (S ix))).
Qed.



(** ** The grid of absence points *)

Lemma no_match_forallb {E} (f : E → bool) (l : list E) :
  (length (List.filter f l) =? 0)%nat = forallb (fun e => negb (f e)) l.
Proof.
  induction l as [|e l IH]; [reflexivity |].
  cbn [List.filter forallb]. destruct (f e); [reflexivity | exact IH].
Qed.

(** One iteration: the unit at the present corner is examined, and the
    corner of the present indices is kept for the next iteration. *)
Lemma grid_unit_body_run (b : bbox) (geo_frogs : list vec2) (c : vec2)
    (acc : list absence) (ij : nat * nat) :
  grid_unit_body b geo_frogs {| bottom_corner := c; non_frogs := acc |} ij
  = {| bottom_corner := unit_corner b ij;
       non_frogs := if unit_without_frog b geo_frogs c
                    then acc ++ [unit_midpoint b c] else acc |}.
Proof.
  unfold grid_unit_body. cbn [bottom_corner non_frogs].
  rewrite no_match_forallb. reflexivity.
Qed.

Lemma grid_walk_run (b : bbox) (geo_frogs : list vec2) (indices : list (nat * nat)) :
  ∀ (c : vec2) (acc : list absence),
    non_frogs (foldl (grid_unit_body b geo_frogs)
                     {| bottom_corner := c; non_frogs := acc |} indices)
    = acc ++ (unit_midpoint b
                <$> List.filter (unit_without_frog b geo_frogs)
                      (take (length indices) (c :: (unit_corner b <$> indices)))).
Proof.
  induction indices as [|ij rest IH]; intros c acc.
  - cbn. rewrite app_nil_r. reflexivity.
  - cbn [foldl]. rewrite grid_unit_body_run, IH.
    cbn [length fmap list_fmap take List.filter].
    destruct (unit_without_frog b geo_frogs c).
    + rewrite fmap_cons, <- app_assoc. reflexivity.
    + reflexivity.
Qed.

(** The whole walk. *)
Lemma non_frog_grid_run (b : bbox) (geo_frogs : list vec2) :
  non_frog_grid b geo_frogs
  = unit_midpoint b
      <$> List.filter (unit_without_frog b geo_frogs)
            (take (length grid_indices)
                  (bbox_bottom_corner b :: (unit_corner b <$> grid_indices))).
Proof. unfold non_frog_grid. rewrite grid_walk_run. apply app_nil_l. Qed.

Lemma take_cons_removelast {E} (c : E) (l : list E) :
  l ≠ [] → take (length l) (c :: l) = c :: removelast l.
Proof.
  revert c. induction l as [|a l IH]; intros c Hne; [contradiction |].
  destruct l as [|a' l']; [reflexivity |].
  cbn [length take removelast]. f_equal. apply (IH a). discriminate.
Qed.

Lemma fmap_removelast {E F} (f : E → F) (l : list E) :
  removelast (f <$> l) = f <$> removelast l.
Proof.
  induction l as [|a [|a' l'] IH]; [reflexivity.. |].
  cbn [removelast fmap list_fmap] in *. rewrite IH. reflexivity.
Qed.

(** X19. The walk over the 50x50 grid examines, in each iteration, the
    unit whose corner was computed at the end of the iteration before:
    the absence points are the midpoints of the examined units that hold
    no frog, the unit at the corner of the box is examined twice (in the
    first two iterations), and the unit of the last indices (49, 49) is
    not examined at all.  A corner lies [i] fiftieths of the latitude
    extent east and [j] fiftieths of the longitude extent north of the
    corner of the box. *)
Theorem non_frog_grid_walk (b : bbox) (geo_frogs : list vec2) :
  non_frog_grid b geo_frogs
  = unit_midpoint b
      <$> List.filter (unit_without_frog b geo_frogs)
            (bbox_bottom_corner b
               :: (unit_corner b <$> removelast grid_indices))
  ∧ length (removelast grid_indices) = 2499%nat
  ∧ removelast grid_indices !! 0%nat = Some (0, 0)%nat
  ∧ last (removelast grid_indices) = Some (49, 48)%nat
  ∧ ((unit_corner b (0, 0)%nat).1 == (bbox_bottom_corner b).1)%Q
  ∧ ((unit_corner b (0, 0)%nat).2 == (bbox_bottom_corner b).2)%Q.
Proof.
  split.
  - rewrite non_frog_grid_run.
    replace (length grid_indices)
      with (length (unit_corner b <$> grid_indices)) by apply length_fmap.
    rewrite take_cons_removelast, fmap_removelast; [reflexivity |].
    intros Hnil. apply fmap_nil_inv in Hnil. discriminate.
  - split; [vm_compute; reflexivity |]. split; [vm_compute; reflexivity |].
    split; [vm_compute; reflexivity |].
    unfold unit_corner, bbox_bottom_corner. cbn [fst snd].
    split; ring.
Qed.

Lemma half_step (d : Q) :
  (0 <= d)%Q →
  (0 <= d / 50)%Q ∧ (0 <= d / 50 / 2)%Q ∧ (d / 50 / 2 <= d / 50)%Q.
Proof.
  intros Hd.
  assert (H50 : (0 <= d / 50)%Q) by (apply Qle_shift_div_l; [reflexivity | Lqa.lra]).
  split; [exact H50 |]. split.
  - apply Qle_shift_div_l; [reflexivity | Lqa.lra].
  - apply Qle_shift_div_r; [reflexivity | Lqa.lra].
Qed.

(** The midpoint of a unit lies in the unit. *)
Lemma midpoint_in_unit (b : bbox) (c p : vec2) :
  (min_lon b <= max_lon b)%Q → (min_lat b <= max_lat b)%Q →
  (p.1 == a_longitude (unit_midpoint b c))%Q →
  (p.2 == a_latitude (unit_midpoint b c))%Q →
  intersects p (unit_at b c) = true.
Proof.
  intros Hlon Hlat Hx Hy. cbn [unit_midpoint a_longitude a_latitude] in Hx, Hy.
  unfold intersects, unit_at. cbn [existsb fst snd].
  destruct (half_step (max_lat b - min_lat b)) as (Hs0 & Hs1 & Hs2); [Lqa.lra |].
  destruct (half_step (max_lon b - min_lon b)) as (Ht0 & Ht1 & Ht2); [Lqa.lra |].
  set (s := ((max_lat b - min_lat b) / 50)%Q) in *.
  set (t := ((max_lon b - min_lon b) / 50)%Q) in *.
  set (hs := (s / 2)%Q) in *. set (ht := (t / 2)%Q) in *.
  assert (H1 : Qle_bool c.1 p.1 = true) by (apply Qle_bool_iff; Lqa.lra).
  assert (H2 : Qle_bool p.1 (c.1 + s) = true) by (apply Qle_bool_iff; Lqa.lra).
  assert (H3 : Qle_bool c.2 p.2 = true) by (apply Qle_bool_iff; Lqa.lra).
  assert (H4 : Qle_bool p.2 (c.2 + t) = true) by (apply Qle_bool_iff; Lqa.lra).
  rewrite H1, H2, H3, H4. cbn [orb andb]. rewrite !orb_true_r. reflexivity.
Qed.

(** X20. An absence point is never the place of a sighting: for a box
    with [min_lon <= max_lon] and [min_lat <= max_lat], no row of
    [non_frogs] has the longitude and the latitude of a frog, since it is
    the midpoint of a grid unit that no frog touches. *)
Theorem absence_points_are_not_sightings (b : bbox) (geo_frogs : list vec2)
    (a : absence) (p : vec2) :
  (min_lon b <= max_lon b)%Q → (min_lat b <= max_lat b)%Q →
  a ∈ non_frog_grid b geo_frogs → p ∈ geo_frogs →
  ¬ ((p.1 == a_longitude a)%Q ∧ (p.2 == a_latitude a)%Q).
Proof.
  intros Hlon Hlat Ha Hp [Hx Hy].
  rewrite non_frog_grid_run in Ha.
  apply list_elem_of_fmap in Ha as (c & -> & Hc).
  apply list_elem_of_In, filter_In in Hc as [_ Hempty].
  unfold unit_without_frog in Hempty. rewrite forallb_forall in Hempty.
  apply list_elem_of_In in Hp. specialize (Hempty p Hp).
  rewrite (midpoint_in_unit b c p Hlon Hlat Hx Hy) in Hempty. discriminate.
Qed.

Lemma absence_points_are_not_sightings_witness :
  ¬ (((15063 # 100) == a_longitude (unit_midpoint richmond (bbox_bottom_corner richmond)))%Q
     ∧ ((-3368 # 100) == a_latitude (unit_midpoint richmond (bbox_bottom_corner richmond)))%Q).
Proof.
  apply (absence_points_are_not_sightings richmond sample_geo_frogs
           (unit_midpoint richmond (bbox_bottom_corner richmond))
           (15063 # 100, -3368 # 100)%Q).
  - vm_compute. discriminate.
  - vm_compute. discriminate.
  - apply (list_elem_of_lookup_2 _ 0%nat). vm_compute. reflexivity.
  - unfold sample_geo_frogs. do 2 (apply elem_of_cons; right).
    apply elem_of_cons. left. reflexivity.
Defined.

(** ** The loading cells on an empty search result *)

(** X21. None of the loading cells handles a search that finds nothing,
    and each fails at its first use of the result, before any token is
    requested or any asset opened: the DEM and the surface-water notebook
    raise IndexError on [items[0]], the land-cover notebook raises
    StopIteration on [next(search.get_items())] (after a second search),
    and the Sentinel-2 notebook raises ValueError when it stacks the empty
    list. *)
Theorem loading_cells_fail_on_empty_search {G} (sv : services) (b : bbox)
    (w : world G) :
  (∀ q, q_bbox q = b → catalog sv q = []) →
  dem_load sv b w = (Raise IndexError, after_searches w [dem_query b])
  ∧ jrc_load sv b w = (Raise IndexError, after_searches w [jrc_query b])
  ∧ land_cover_load sv b w
    = (Raise StopIteration,
       after_searches w [land_cover_query b; land_cover_query b])
  ∧ sentinel2_load sv b w
    = (Raise (ValueError "No items"), after_searches w [sentinel2_query b]).
Proof.
  intros Hnone. unfold after_searches. cbn [length fmap list_fmap].
  repeat split.
  - unfold dem_load, stac_search. run_program.
    fold (dem_query b). rewrite (Hnone (dem_query b) eq_refl).
    rewrite Nat.add_1_r. reflexivity.
  - unfold jrc_load, stac_search. run_program.
    fold (jrc_query b). rewrite (Hnone (jrc_query b) eq_refl).
    rewrite Nat.add_1_r. reflexivity.
  - unfold land_cover_load, stac_search. run_program.
    fold (land_cover_query b). rewrite (Hnone (land_cover_query b) eq_refl).
    cbn [next]. rewrite <- app_assoc.
    replace (clock w + 2) with (S (S (clock w))) by lia. reflexivity.
  - unfold sentinel2_load, stac_search. run_program.
    fold (sentinel2_query b). rewrite (Hnone (sentinel2_query b) eq_refl).
    rewrite Nat.add_1_r. reflexivity.
Qed.

Lemma loading_cells_fail_on_empty_search_witness :
  dem_load empty_services richmond fresh
  = (Raise IndexError, after_searches fresh [dem_query richmond])
  ∧ jrc_load empty_services richmond fresh
    = (Raise IndexError, after_searches fresh [jrc_query richmond])
  ∧ land_cover_load empty_services richmond fresh
    = (Raise StopIteration,
       after_searches fresh [land_cover_query richmond; land_cover_query richmond])
  ∧ sentinel2_load empty_services richmond fresh
    = (Raise (ValueError "No items"),
       after_searches fresh [sentinel2_query richmond]).
Proof.
  apply (loading_cells_fail_on_empty_search empty_services richmond fresh).
  intros q _. reflexivity.
Defined.

(** ** The Sentinel-2 mosaic *)

(** Masking acts on the series of every pixel, reading by reading. *)
Lemma time_series_where_positive (data : list (list (raster cell)))
    (bnd y x : nat) :
  time_series (where_positive data) bnd y x
  = (fun c : cell =>
       match c with
       | Some q => if Qltb 0 q then Some q else None
       | None => None
       end) <$> time_series data bnd y x.
Proof.
  unfold time_series, where_positive, raster, cell.
  change (map ?f ?l) with (f <$> l). rewrite <- !list_fmap_compose.
  apply list_fmap_ext. intros _ scene _. cbn [compose].
  change (map ?f ?l) with (f <$> l).
  rewrite list_lookup_fmap.
  destruct (scene !! bnd) as [band0|]; [| reflexivity].
  cbn [fmap option_fmap option_map].
  change (map ?f ?l) with (f <$> l).
  change (list_fmap ?A ?B ?f ?l) with (map f l).
  rewrite (pixel_map2 _ band0 y x).
  destruct (pixel band0 y x) as [c|]; reflexivity.
Qed.

Lemma dropna_where_positive (series : list cell) :
  Forall (fun q => (0 < q)%Q)
    (dropna ((fun c : cell =>
                match c with
                | Some q => if Qltb 0 q then Some q else None
                | None => None
                end) <$> series)).
Proof.
  induction series as [|c series IH]; [constructor |].
  rewrite fmap_cons. unfold dropna in *.
  destruct c as [q|]; [| exact IH].
  destruct (Qltb 0 q) eqn:Hq; [| exact IH].
  cbn. constructor; [apply Qltb_lt, Hq | exact IH].
Qed.

(** The median of positive numbers is positive. *)
Lemma median_positive (xs : list Q) (q : Q) :
  Forall (fun v => (0 < v)%Q) xs → median xs = Some q → (0 < q)%Q.
Proof.
  intros Hpos. unfold median.
  assert (Hsorted : Forall (fun v => (0 < v)%Q) (merge_sort Qle xs)).
  { rewrite merge_sort_Permutation. exact Hpos. }
  set (s := merge_sort Qle xs) in *. rewrite Forall_lookup in Hsorted.
  destruct (length s =? 0)%nat; [discriminate |].
  destruct (Nat.odd (length s)).
  - intros Hq. apply (Hsorted _ _ Hq).
  - destruct (s !! (length s / 2 - 1)%nat) as [lo|] eqn:Hlo; [| discriminate].
    destruct (s !! (length s / 2)%nat) as [hi|] eqn:Hhi; [| discriminate].
    cbn [mbind option_bind]. intros [= <-].
    pose proof (Hsorted _ _ Hlo). pose proof (Hsorted _ _ Hhi).
    apply Qlt_shift_div_l; [reflexivity | Lqa.lra].
Qed.

(** X22. The mosaic of the Sentinel-2 notebook holds no zero and no
    negative value: when the search finds a scene, the cells return a
    mosaic, and every pixel of it is NaN or a positive number, the
    readings equal to the no-data value 0 having been masked before the
    median was taken. *)
Theorem sentinel2_mosaic_is_positive {G} (sv : services) (b : bbox)
    (w : world G) :
  catalog sv (sentinel2_query b) ≠ [] →
  ∃ mosaic w',
    sentinel2_load sv b w = (Ok mosaic, w')
    ∧ ∀ bnd y x q,
        mosaic_pixel mosaic bnd y x = Some (Some q) → (0 < q)%Q.
Proof.
  intros Hfound. set (q := sentinel2_query b) in *.
  destruct (for_list_total sign_item (catalog sv q) sign_item_total
              (stac_search sv q w).2) as (signed & w1 & Hsign & Hlen1).
  destruct (stackstac_stack_total sv signed
              (ByKey ["B04"; "B03"; "B02"; "B08"]%string) b (10 / 111320)%Q w1)
    as (stack & w2 & Hstack & Hlen2).
  { intros ->. destruct (catalog sv q); [contradiction | discriminate]. }
  eexists. exists w2. split.
  - unfold sentinel2_load. fold (sentinel2_query b). fold q.
    unfold mbind at 1, M_bind at 1.
    assert (Hsearch : stac_search sv q w = (Ok (catalog sv q), (stac_search sv q w).2))
      by reflexivity.
    rewrite Hsearch. unfold mbind at 1, M_bind at 1. rewrite Hsign.
    unfold mbind at 1, M_bind at 1. rewrite Hstack. reflexivity.
  - intros bnd y x v Hv. apply median_time_pixel in Hv.
    unfold series_median in Hv. rewrite time_series_where_positive in Hv.
    symmetry in Hv. eapply median_positive; [| exact Hv].
    apply dropna_where_positive.
Qed.

Lemma sentinel2_mosaic_is_positive_witness :
  ∃ mosaic w',
    sentinel2_load sentinel_services richmond fresh = (Ok mosaic, w')
    ∧ ∀ bnd y x q,
        mosaic_pixel mosaic bnd y x = Some (Some q) → (0 < q)%Q.
Proof.
  apply (sentinel2_mosaic_is_positive sentinel_services richmond fresh).
  discriminate.
Defined.

(** On the sample scene: the reading 0 is masked and 1200 is kept. *)
Example sentinel2_mosaic_sample :
  (sentinel2_load sentinel_services richmond fresh).1
  = Ok (repeat [[None; Some 1200%Q]] 4).
Proof. vm_compute. reflexivity. Qed.

(** ** The pixels of a stacked image *)

(** The values of a (band, y, x) array at one pixel, read from the
    buffer. *)
Lemma pixel_values_band_y_x (d : DataArray) (iy ix : nat) :
  valid_DataArray d → band_y_x d →
  shape (values d) = [length (band d); length (y d); length (x d)]
  ∧ pixel_values d iy ix
    = (fun bnd => default None
                    (flat (values d)
                       !! ((bnd * length (y d) + iy) * length (x d) + ix)%nat))
        <$> seq 0 (length (band d)).
Proof.
  intros Hvalid Hdims. unfold band_y_x in Hdims.
  apply valid_DataArray_inv in Hvalid as (Hlen & Hb & Hx & Hy).
  rewrite Hdims in Hlen, Hb, Hx, Hy.
  destruct (shape (values d)) as [|k [|h [|w [|? ?]]]] eqn:Hshape;
    try discriminate.
  cbn in Hb, Hx, Hy. injection Hb as ->. injection Hx as ->. injection Hy as ->.
  split; [reflexivity |].
  unfold pixel_values. rewrite Hshape, Hdims. apply list_fmap_ext.
  intros _ bnd _. cbn. reflexivity.
Qed.

(** The offset of a pixel of band [i] lies in the first [k] bands. *)
Lemma band_offset_bound (h w iy ix i k : nat) :
  iy < h → ix < w → i < k → (i * h + iy) * w + ix < k * (h * w).
Proof.
  intros Hiy Hix Hi.
  assert (Hrow : i * h + iy + 1 ≤ k * h) by nia.
  assert (Hcol : (i * h + iy) * w + ix < (i * h + iy + 1) * w) by nia.
  assert (Hall : (i * h + iy + 1) * w ≤ k * h * w) by (apply Nat.mul_le_mono_r; exact Hrow).
  lia.
Qed.

(** Reading band by band from buffers laid one after the other. *)
Lemma concat_buffers_pixel (h w iy ix : nat) (parts : list (nat * list cell)) :
  iy < h → ix < w →
  Forall (fun p => length p.2 = p.1 * (h * w)) parts →
  (fun bnd => default None (concat (snd <$> parts) !! ((bnd * h + iy) * w + ix)%nat))
    <$> seq 0 (sum_list (fst <$> parts))
  = concat ((fun p : nat * list cell =>
               (fun bnd => default None (p.2 !! ((bnd * h + iy) * w + ix)%nat))
                 <$> seq 0 p.1) <$> parts).
Proof.
  unfold cell. intros Hiy Hix.
  induction 1 as [|[k buf] parts Hbuf _ IH]; [reflexivity |].
  cbn [fst snd] in Hbuf. rewrite !fmap_cons. cbn [sum_list concat fst snd].
  rewrite seq_app, fmap_app. f_equal.
  - apply list_fmap_ext. intros i bnd Hbnd. f_equal.
    apply lookup_seq in Hbnd as [Heq Hlt]. cbn [Nat.add] in Heq. subst.
    apply lookup_app_l. rewrite Hbuf. apply band_offset_bound; assumption.
  - rewrite <- IH. cbn [Nat.add].
    replace (seq k (sum_list parts.*1))
      with (Nat.add k <$> seq 0 (sum_list parts.*1))
      by (rewrite fmap_add_seq; f_equal; lia).
    rewrite <- list_fmap_compose.
    apply list_fmap_ext. intros _ bnd _. cbn [compose]. f_equal.
    rewrite lookup_app_r by (rewrite Hbuf; nia). f_equal. rewrite Hbuf. nia.
Qed.

(** X23. The stacked image keeps every value at its pixel: for valid
    datasets over (band, y, x) with full buffers and a common spatial
    shape, the band values of the image built by
    [create_predictor_image] at a pixel are the band values of the
    datasets at that same pixel, one dataset after the other. *)
Theorem create_predictor_image_pixelwise (d0 : DataArray)
    (rest : list DataArray) (iy ix : nat) :
  Forall valid_DataArray (d0 :: rest) →
  Forall band_y_x (d0 :: rest) →
  Forall full_buffer (d0 :: rest) →
  Forall (same_spatial_dims d0) rest →
  iy < length (y d0) → ix < length (x d0) →
  ∃ img,
    create_predictor_image (d0 :: rest) = Ok img
    ∧ pixel_values img iy ix
      = concat ((fun d => pixel_values d iy ix) <$> d0 :: rest).
Proof.
  intros Hvalid Hdims Hfull Hshape Hiy Hix.
  assert (Hfirst : Forall band_first (d0 :: rest)).
  { eapply Forall_impl; [exact Hdims |]. intros d Hd. eexists. exact Hd. }
  exists (stacked_image d0 rest).
  split; [apply create_predictor_image_value; assumption |].
  destruct (stacked_image_valid d0 rest Hvalid Hfirst Hshape) as (Hv & _ & _).
  assert (Hd0 : band_y_x d0) by (apply Forall_cons in Hdims as [H _]; exact H).
  destruct (pixel_values_band_y_x (stacked_image d0 rest) iy ix Hv Hd0)
    as [_ ->].
  cbn [stacked_image values flat band x y].
  assert (Hv0 : valid_DataArray d0) by (apply Forall_cons in Hvalid as [H _]; exact H).
  destruct (pixel_values_band_y_x d0 iy ix Hv0 Hd0) as [Hshape0 _].
  (* every dataset is laid out on the grid of the first *)
  assert (Hall : Forall (fun d =>
            length (flat (values d))
            = length (band d) * (length (y d0) * length (x d0))
            ∧ pixel_values d iy ix
              = (fun bnd => default None
                              (flat (values d)
                                 !! ((bnd * length (y d0) + iy) * length (x d0) + ix)%nat))
                  <$> seq 0 (length (band d))) (d0 :: rest)).
  { apply Forall_forall. intros d Hd.
    rewrite Forall_forall in Hvalid, Hdims, Hfull.
    destruct (pixel_values_band_y_x d iy ix (Hvalid d Hd) (Hdims d Hd))
      as [Hshp Hpix].
    assert (Hsame : tail (shape (values d)) = tail (shape (values d0))).
    { apply elem_of_cons in Hd as [-> | Hd]; [reflexivity |].
      rewrite Forall_forall in Hshape. apply (Hshape d Hd). }
    rewrite Hshp, Hshape0 in Hsame. cbn [tail] in Hsame.
    injection Hsame as Hy Hx. rewrite Hy, Hx in Hpix, Hshp.
    split; [| exact Hpix].
    rewrite (Hfull d Hd), Hshp. cbn [size foldr]. lia. }
  clear -Hall Hiy Hix.
  pose proof (concat_buffers_pixel (length (y d0)) (length (x d0)) iy ix
                ((fun d => (length (band d), flat (values d))) <$> d0 :: rest)
                Hiy Hix) as Hcat.
  rewrite <- !list_fmap_compose in Hcat.
  assert (Hsum : sum_list ((fst ∘ (fun d => (length (band d), flat (values d))))
                             <$> d0 :: rest)
                 = length (concat (band <$> d0 :: rest))).
  { rewrite length_concat, <- list_fmap_compose. reflexivity. }
  rewrite Hsum in Hcat.
  etrans; [apply Hcat |].
  - apply Forall_fmap. eapply Forall_impl; [exact Hall |].
    intros d [Hlen _]. exact Hlen.
  - f_equal. apply Forall_fmap_ext_1. eapply Forall_impl; [exact Hall |].
    intros d [_ Hpix]. cbn [compose fst snd]. symmetry. exact Hpix.
Qed.

Lemma create_predictor_image_pixelwise_witness :
  ∃ img,
    create_predictor_image [sample_elevation; sample_gradient] = Ok img
    ∧ pixel_values img 0 1
      = concat ((fun d => pixel_values d 0 1)
                  <$> [sample_elevation; sample_gradient]).
Proof.
  apply (create_predictor_image_pixelwise sample_elevation [sample_gradient] 0 1).
  - repeat constructor.
  - repeat constructor.
  - repeat constructor.
  - repeat constructor.
  - cbn. lia.
  - cbn. lia.
Defined.
